(** * Bolt: the in-memory text engine of the editor (src/Bolt.cpp)

    A shallow embedding of the row store, the render mapper, the highlight
    classifier, the edit operations and the incremental search of
    [src/Bolt.cpp], with the properties the specification states about them;
    and of what is built on these: cursor movement and scrolling, the
    prompt, saving, the dispatch of a key, the loop of [main] and the
    drawing of the screen, with further properties of the code.

    Conventions of the embedding
    - [std::string] is a [list ascii] (a byte sequence); [std::vector<T>] is a
      [list T]; [size_t] indices and lengths are [nat]; [int] is [Z].
      Signed overflow is undefined in C++ and is not modelled: the integers
      of the editor (cursor, offsets, rendered columns) are far below 2^31.
      The statements about the arithmetic of [editorScroll] itself assume
      the bounds under which none of its [int]s overflows, and those about
      whole runs a window of the sizes of a terminal.
    - The global [E] is passed explicitly as an [editorConfig]; the static
      locals of [editorFindCallback] are the record [FindStatics].
    - An operation that would index a vector out of range or make
      [std::string::substr] throw returns [None].
    - The keys [editorReadKey] returns are given as a list of [int]s: a
      byte below 0x80 as itself, a byte from 0x80 on as a negative number
      ([char] is signed), the named keys as the numbers from 1000 on. A
      function that reads keys returns the keys it left unread, or says
      that it still waits for a key when the list is used up.
    - A refresh is in two parts: [editorRefreshScreen] is what the call does
      to [E], and [editorRefreshScreen_draw] the bytes it writes, [None]
      when the drawing throws or reads outside a row. The program draws
      before every key it reads, so the state in which a run waits for a
      key is the one just drawn; the statements about runs say of that
      state that the drawing has returned. The file system answers through
      a [Disk]. *)

From Stdlib Require Import ZArith Ascii Lia Bool DecimalString.
From stdpp Require Import base option list strings.

Local Open Scope Z_scope.

(** ** Data *)

(** String literals of the source, as byte sequences. *)
Definition lit (s : string) : list ascii := String.list_ascii_of_string s.

Definition KILO_TAB_STOP : Z := 8.

(** [enum editorKeys] *)
Definition BACKSPACE : Z := 127.
Definition ARROW_LEFT : Z := 1000.
Definition ARROW_RIGHT : Z := 1001.
Definition ARROW_UP : Z := 1002.
Definition ARROW_DOWN : Z := 1003.
Definition DEL_KEY : Z := 1004.
Definition HOME_KEY : Z := 1005.
Definition END_KEY : Z := 1006.
Definition PAGE_UP : Z := 1007.
Definition PAGE_DOWN : Z := 1008.

(** [enum editorHighlight]; the vector [hl] of the source holds these as
    [int]s, [hl_code] gives the number of each. *)
Inductive editorHighlight : Set :=
| HL_NORMAL
| HL_COMMENT
| HL_KEYWORD1
| HL_KEYWORD2
| HL_STRING
| HL_NUMBER
| HL_MATCH.

Definition hl_code (h : editorHighlight) : Z :=
  match h with
  | HL_NORMAL => 0
  | HL_COMMENT => 1
  | HL_KEYWORD1 => 2
  | HL_KEYWORD2 => 3
  | HL_STRING => 4
  | HL_NUMBER => 5
  | HL_MATCH => 6
  end.

#[global] Instance editorHighlight_eq_dec : EqDecision editorHighlight.
Proof. solve_decision. Defined.

Definition HL_HIGHLIGHT_NUMBERS : Z := Z.shiftl 1 0.
Definition HL_HIGHLIGHT_STRINGS : Z := Z.shiftl 1 1.

(** [struct EditorSyntax] *)
Record EditorSyntax : Type := mkSyntax {
  filetype : list ascii;
  extensions : list (list ascii);
  keywords : list (list ascii);
  singleline_comment_start : list ascii;
  flags : Z
}.

(** [struct ERow] *)
Record ERow : Type := mkRow {
  chars : list ascii;
  render : list ascii;
  hl : list editorHighlight
}.

(** [struct editorConfig], without the terminal settings and the time stamp
    of the status message, which no operation below reads. [syntax] is the
    pointer [E.syntax]: [None] is the null pointer. *)
Record editorConfig : Type := mkConfig {
  cx : Z;
  cy : Z;
  rx : Z;
  rowoff : Z;
  coloff : Z;
  screenrows : Z;
  screencols : Z;
  dirty : bool;
  filename : list ascii;
  statusmsg : list ascii;
  syntax : option EditorSyntax;
  rows : list ERow
}.

(** The only entry of [HLDB]. *)
Definition HLDB0 : EditorSyntax :=
  mkSyntax (lit "c")
    [lit ".c"; lit ".h"; lit ".cpp"]
    (map lit
       ["switch"; "if"; "while"; "for"; "break"; "continue"; "return"; "else";
        "struct"; "union"; "typedef"; "static"; "enum"; "class"; "case";
        "int|"; "long|"; "double|"; "float|"; "char|"; "unsigned|"; "signed|";
        "void|"]%string)
    (lit "//")
    (Z.lor HL_HIGHLIGHT_NUMBERS HL_HIGHLIGHT_STRINGS).

(** Field updates of the global [E]. *)
Definition set_cursor (x y : Z) (E : editorConfig) : editorConfig :=
  mkConfig x y (rx E) (rowoff E) (coloff E) (screenrows E) (screencols E)
    (dirty E) (filename E) (statusmsg E) (syntax E) (rows E).

Definition set_rowoff (o : Z) (E : editorConfig) : editorConfig :=
  mkConfig (cx E) (cy E) (rx E) o (coloff E) (screenrows E) (screencols E)
    (dirty E) (filename E) (statusmsg E) (syntax E) (rows E).

Definition set_dirty (d : bool) (E : editorConfig) : editorConfig :=
  mkConfig (cx E) (cy E) (rx E) (rowoff E) (coloff E) (screenrows E)
    (screencols E) d (filename E) (statusmsg E) (syntax E) (rows E).

Definition set_filename (f : list ascii) (E : editorConfig) : editorConfig :=
  mkConfig (cx E) (cy E) (rx E) (rowoff E) (coloff E) (screenrows E)
    (screencols E) (dirty E) f (statusmsg E) (syntax E) (rows E).

Definition set_syntax (g : option EditorSyntax) (E : editorConfig) : editorConfig :=
  mkConfig (cx E) (cy E) (rx E) (rowoff E) (coloff E) (screenrows E)
    (screencols E) (dirty E) (filename E) (statusmsg E) g (rows E).

Definition set_rows (rs : list ERow) (E : editorConfig) : editorConfig :=
  mkConfig (cx E) (cy E) (rx E) (rowoff E) (coloff E) (screenrows E)
    (screencols E) (dirty E) (filename E) (statusmsg E) (syntax E) rs.

(** ** Render mapper *)

Definition TAB : ascii := ascii_of_nat 9.
Definition SPACE : ascii := ascii_of_nat 32.
Definition NUL : ascii := ascii_of_nat 0.
Definition DQUOTE : ascii := ascii_of_nat 34.
Definition SQUOTE : ascii := ascii_of_nat 39.

(** [s[j]] of a [std::string]: the byte at [j], and the terminating NUL at
    [j = s.size()] (beyond that the source is undefined). *)
Definition char_at (s : list ascii) (j : nat) : ascii := nth j s NUL.

(** The body of the [for] loop of [editorRowCxToRx]: [n] iterations are
    left, [j] is the loop index. [%] is C's remainder. *)
Fixpoint editorRowCxToRx_loop (n : nat) (s : list ascii) (j : nat) (r : Z) : Z :=
  match n with
  | O => r
  | S n' =>
      let r1 :=
        if Ascii.eqb (char_at s j) TAB
        then r + ((KILO_TAB_STOP - 1) - Z.rem r KILO_TAB_STOP)
        else r in
      editorRowCxToRx_loop n' s (S j) (r1 + 1)
  end.

(** [editorRowCxToRx(row, cx)]: the loop runs for [j = 0 .. cx-1], so not at
    all when [cx <= 0]. *)
Definition editorRowCxToRx (row : ERow) (c : Z) : Z :=
  editorRowCxToRx_loop (Z.to_nat c) (chars row) 0 0.

(** The inner [while (render.tellp() % KILO_TAB_STOP != 0) render << ' ';]
    of [editorUpdateRow]; it appends at most [KILO_TAB_STOP - 1] spaces, and
    [fuel] bounds the number of tests of the condition. *)
Fixpoint pad_to_tab_stop (fuel : nat) (out : list ascii) : list ascii :=
  match fuel with
  | O => out
  | S fuel' =>
      if Z.rem (Z.of_nat (length out)) KILO_TAB_STOP =? 0
      then out
      else pad_to_tab_stop fuel' (out ++ [SPACE])
  end.

(** The range-[for] of [editorUpdateRow] over [row.chars], [out] being the
    contents of the output stream. *)
Fixpoint render_loop (s : list ascii) (out : list ascii) : list ascii :=
  match s with
  | [] => out
  | c :: s' =>
      if Ascii.eqb c TAB
      then render_loop s' (pad_to_tab_stop (Z.to_nat KILO_TAB_STOP) (out ++ [SPACE]))
      else render_loop s' (out ++ [c])
  end.

Definition render_of (s : list ascii) : list ascii := render_loop s [].

(** ** Highlight classifier *)

(** The code of a byte, read as [unsigned char]. *)
Definition code (c : ascii) : Z := Z.of_nat (nat_of_ascii c).

(** [isspace] and [isdigit] of the C locale. *)
Definition isspace (c : ascii) : bool :=
  ((9 <=? code c) && (code c <=? 13)) || (code c =? 32).

Definition isdigit (c : ascii) : bool :=
  (48 <=? code c) && (code c <=? 57).

(** [strchr(s, c) != NULL]: [c] occurs in [s], or [c] is the terminating
    NUL of [s]. *)
Definition strchr_found (s : list ascii) (c : ascii) : bool :=
  existsb (Ascii.eqb c) s || Ascii.eqb c NUL.

Definition is_separator (c : ascii) : bool :=
  isspace c || Ascii.eqb c NUL || strchr_found (lit ",.()+-/*=~%<>[];") c.

(** [std::fill(v.begin() + lo, v.begin() + hi, x)]: the positions
    [lo <= k < hi] of [v] become [x]. *)
Definition fill {A : Type} (lo hi : nat) (x : A) (v : list A) : list A :=
  imap (fun k y => if ((lo <=? k) && (k <? hi))%nat then x else y) v.

(** [s.substr(i, n)] for [i <= s.size()]. *)
Definition substr (s : list ascii) (i n : nat) : list ascii :=
  take n (drop i s).

(** The first lines of the body of the keyword loop: a keyword that ends in
    ['|'] loses it and is coloured [HL_KEYWORD2]. *)
Definition keyword_key (kw : list ascii) : list ascii * editorHighlight :=
  match last kw with
  | Some c =>
      if Ascii.eqb c "|"%char then (removelast kw, HL_KEYWORD2)
      else (kw, HL_KEYWORD1)
  | None => (kw, HL_KEYWORD1)
  end.

(** [for (const auto &kw : keywords)] at position [i]: on the first keyword
    that matches, the new [hl] and the new [i]; [None] is [matched == false]. *)
Fixpoint keyword_loop (kws : list (list ascii)) (r : list ascii)
    (h : list editorHighlight) (i : nat)
    : option (list editorHighlight * nat) :=
  match kws with
  | [] => None
  | kw :: kws' =>
      let '(key, kw_color) := keyword_key kw in
      let klen := length key in
      if ((i + klen <=? length r)%nat
          && bool_decide (substr r i klen = key)
          && ((i + klen =? length r)%nat || is_separator (char_at r (i + klen))))
      then Some (fill i (i + klen) kw_color h, (i + klen)%nat)
      else keyword_loop kws' r h i
  end.

(** The locals of [editorUpdateSyntax] that live across iterations of its
    [while] loop. [s_in_string] is [0] or the code of the opening quote. *)
Record SyntaxLocals : Type := mkLocals {
  s_hl : list editorHighlight;
  s_prev_sep : bool;
  s_in_string : Z;
  s_i : nat
}.

(** One iteration of [while (i < row.render.size())], the condition
    included: [inl h] when the loop is left with highlight [h] (the condition
    fails, or the comment rule breaks out), [inr st] at a [continue] or at
    the end of the body. *)
Definition editorUpdateSyntax_step (syn : option EditorSyntax) (r : list ascii)
    (st : SyntaxLocals) : list editorHighlight + SyntaxLocals :=
  let h := s_hl st in
  let i := s_i st in
  if negb (i <? length r)%nat then inl h else
  if match syn with
     | Some g =>
         let comment_start := singleline_comment_start g in
         negb (bool_decide (comment_start = []))
         && (s_in_string st =? 0)
         && (i + length comment_start <=? length r)%nat
         && bool_decide (substr r i (length comment_start) = comment_start)
     | None => false
     end
  then inl (fill i (length h) HL_COMMENT h)
  else
    let c := char_at r i in
    let prev_hl :=
      match i with
      | O => HL_NORMAL
      | S i' => nth i' h HL_NORMAL
      end in
    if negb (s_in_string st =? 0) then
      inr (mkLocals (<[i := HL_STRING]> h) true
             (if code c =? s_in_string st then 0 else s_in_string st) (S i))
    else if Ascii.eqb c DQUOTE || Ascii.eqb c SQUOTE then
      inr (mkLocals (<[i := HL_STRING]> h) (s_prev_sep st) (code c) (S i))
    else if (isdigit c && (s_prev_sep st || bool_decide (prev_hl = HL_NUMBER)))
            || (Ascii.eqb c "."%char && bool_decide (prev_hl = HL_NUMBER)) then
      inr (mkLocals (<[i := HL_NUMBER]> h) false (s_in_string st) (S i))
    else
      match (if s_prev_sep st
             then keyword_loop
                    (match syn with Some g => keywords g | None => [] end) r h i
             else None) with
      | Some (h', i') => inr (mkLocals h' false (s_in_string st) i')
      | None => inr (mkLocals h (is_separator c) (s_in_string st) (S i))
      end.

(** The [while] loop; [None] only when [fuel] iterations were not enough
    (see [editorUpdateSyntax_loop_fuel]: they always are). *)
Fixpoint editorUpdateSyntax_loop (fuel : nat) (syn : option EditorSyntax)
    (r : list ascii) (st : SyntaxLocals) : option (list editorHighlight) :=
  match fuel with
  | O => None
  | S fuel' =>
      match editorUpdateSyntax_step syn r st with
      | inl h => Some h
      | inr st' => editorUpdateSyntax_loop fuel' syn r st'
      end
  end.

(** The locals at the entry of the loop, after
    [row.hl.assign(row.render.size(), HL_NORMAL)]. *)
Definition syntax_init (r : list ascii) : SyntaxLocals :=
  mkLocals (replicate (length r) HL_NORMAL) true 0 O.

(** An iteration either moves [i] forward or, for a keyword of length 0,
    clears [prev_sep]; so [2 * size + 2] iterations reach the end. *)
Definition syntax_fuel (r : list ascii) : nat := (2 * length r + 2)%nat.

(** The highlight sequence [editorUpdateSyntax] leaves in [row.hl], as a
    function of [E.syntax] and [row.render]. *)
Definition classify (syn : option EditorSyntax) (r : list ascii)
    : list editorHighlight :=
  default (replicate (length r) HL_NORMAL)
    (editorUpdateSyntax_loop (syntax_fuel r) syn r (syntax_init r)).

Definition editorUpdateSyntax (syn : option EditorSyntax) (row : ERow) : ERow :=
  mkRow (chars row) (render row) (classify syn (render row)).

(** [editorUpdateRow]: rebuild [render] from [chars], then reclassify. *)
Definition editorUpdateRow (syn : option EditorSyntax) (row : ERow) : ERow :=
  editorUpdateSyntax syn (mkRow (chars row) (render_of (chars row)) (hl row)).

(** ** Row store and edit operations *)

(** [(int)v.size()] *)
Definition isize {A : Type} (v : list A) : Z := Z.of_nat (length v).

(** [E.rows[k]] for an [int] [k]: defined inside the vector only. *)
Definition row_index (E : editorConfig) (k : Z) : option nat :=
  if (0 <=? k) && (k <? isize (rows E)) then Some (Z.to_nat k) else None.

(** [v.insert(v.begin() + at, x)] for [at <= v.size()]. *)
Definition insert_at {A : Type} (at_ : nat) (x : A) (v : list A) : list A :=
  take at_ v ++ x :: drop at_ v.

Definition editorInsertRow (at_ : Z) (s : list ascii) (E : editorConfig)
    : editorConfig :=
  if (at_ <? 0) || (at_ >? isize (rows E)) then E
  else
    let newRow := editorUpdateRow (syntax E) (mkRow s [] []) in
    set_dirty true (set_rows (insert_at (Z.to_nat at_) newRow (rows E)) E).

Definition editorDelRow (at_ : Z) (E : editorConfig) : editorConfig :=
  if (at_ <? 0) || (at_ >=? isize (rows E)) then E
  else set_dirty true (set_rows (delete (Z.to_nat at_) (rows E)) E).

(** The three functions that take an [ERow &row]: the reference is the
    index [idx] of the row in [E.rows]. *)
Definition editorRowInsertChar (idx : nat) (at_ : Z) (c : ascii)
    (E : editorConfig) : option editorConfig :=
  row ← rows E !! idx;
  let at1 :=
    if (at_ <? 0) || (at_ >? isize (chars row)) then isize (chars row)
    else at_ in
  let row1 := mkRow (insert_at (Z.to_nat at1) c (chars row)) (render row) (hl row) in
  Some (set_dirty true
          (set_rows (<[idx := editorUpdateRow (syntax E) row1]> (rows E)) E)).

Definition editorRowAppendString (idx : nat) (s : list ascii)
    (E : editorConfig) : option editorConfig :=
  row ← rows E !! idx;
  let row1 := mkRow (chars row ++ s) (render row) (hl row) in
  Some (set_dirty true
          (set_rows (<[idx := editorUpdateRow (syntax E) row1]> (rows E)) E)).

Definition editorRowDelChar (idx : nat) (at_ : Z) (E : editorConfig)
    : option editorConfig :=
  row ← rows E !! idx;
  if (at_ <? 0) || (at_ >=? isize (chars row)) then Some E
  else
    let row1 := mkRow (delete (Z.to_nat at_) (chars row)) (render row) (hl row) in
    Some (set_dirty true
            (set_rows (<[idx := editorUpdateRow (syntax E) row1]> (rows E)) E)).

Definition editorInsertChar (c : ascii) (E : editorConfig) : option editorConfig :=
  let E1 :=
    if cy E =? isize (rows E) then editorInsertRow (isize (rows E)) [] E
    else E in
  idx ← row_index E1 (cy E1);
  E2 ← editorRowInsertChar idx (cx E1) c E1;
  Some (set_cursor (cx E2 + 1) (cy E2) E2).

(** In the split branch [row.chars.substr(E.cx)] throws when [E.cx] is not
    in [0 .. size]. *)
Definition editorInsertNewline (E : editorConfig) : option editorConfig :=
  E1 ← (if cx E =? 0 then Some (editorInsertRow (cy E) [] E)
        else
          idx ← row_index E (cy E);
          row ← rows E !! idx;
          if (0 <=? cx E) && (cx E <=? isize (chars row)) then
            let splitText := drop (Z.to_nat (cx E)) (chars row) in
            let row1 :=
              mkRow (take (Z.to_nat (cx E)) (chars row)) (render row) (hl row) in
            Some (editorInsertRow (cy E + 1) splitText
                    (set_rows (<[idx := editorUpdateRow (syntax E) row1]> (rows E)) E))
          else None);
  Some (set_cursor 0 (cy E1 + 1) E1).

Definition editorDelChar (E : editorConfig) : option editorConfig :=
  if cy E =? isize (rows E) then Some E
  else if (cx E =? 0) && (cy E =? 0) then Some E
  else
    idx ← row_index E (cy E);
    row ← rows E !! idx;
    if cx E >? 0 then
      E1 ← editorRowDelChar idx (cx E - 1) E;
      Some (set_cursor (cx E1 - 1) (cy E1) E1)
    else
      pidx ← row_index E (cy E - 1);
      prev ← rows E !! pidx;
      let E1 := set_cursor (isize (chars prev)) (cy E) E in
      E2 ← editorRowAppendString pidx (chars row) E1;
      let E3 := editorDelRow (cy E2) E2 in
      Some (set_cursor (cx E3) (cy E3 - 1) E3).

(** ** File i/o *)

Definition LF : ascii := ascii_of_nat 10.
Definition CR : ascii := ascii_of_nat 13.

(** [editorRowsToString]: [out] is the output stream. *)
Definition editorRowsToString (E : editorConfig) : list ascii :=
  foldl (fun out row => out ++ chars row ++ [LF]) [] (rows E).

(** [editorSelectSyntaxHighlight]: any file name with a ['.'] selects
    [HLDB[0]]. *)
Definition editorSelectSyntaxHighlight (E : editorConfig) : editorConfig :=
  let E1 := set_syntax None E in
  if bool_decide (filename E1 = []) then E1
  else if existsb (Ascii.eqb "."%char) (filename E1)
       then set_syntax (Some HLDB0) E1
       else E1.

(** The test on a line in the loop of [editorOpen]. *)
Definition strip_cr (line : list ascii) : list ascii :=
  match last line with
  | Some c => if Ascii.eqb c CR then removelast line else line
  | None => line
  end.

(** [editorOpen] on a file that exists, [file_lines] being the strings
    [std::getline] yields. *)
Definition editorOpen (name : list ascii) (file_lines : list (list ascii))
    (E : editorConfig) : editorConfig :=
  let E1 := editorSelectSyntaxHighlight (set_filename name E) in
  set_dirty false
    (foldl (fun E2 line => editorInsertRow (isize (rows E2)) (strip_cr line) E2)
       E1 file_lines).

(** The interface of the persistence collaborator (spec, section 6) hands
    the core lines that are already stripped: [load_from_lines] is the loop
    of [editorOpen] from there on, [document_to_text] is
    [editorRowsToString]. *)
Definition load_from_lines (lines : list (list ascii)) (E : editorConfig)
    : editorConfig :=
  set_dirty false
    (foldl (fun E2 line => editorInsertRow (isize (rows E2)) line E2) E lines).

(** [initEditor], for a window of [r] text rows and [c] columns. *)
Definition initEditor (r c : Z) : editorConfig :=
  mkConfig 0 0 0 0 0 r c false [] [] None [].

(** ** Search *)

(** The static locals of [editorFindCallback]. [saved_hl] is the owning
    pointer: [None] is [nullptr], [Some h] a saved copy [h]. *)
Record FindStatics : Type := mkStatics {
  last_match : Z;
  direction : Z;
  saved_hl_line : Z;
  saved_hl : option (list editorHighlight)
}.

(** Their values before the first call. *)
Definition find_statics_init : FindStatics := mkStatics (-1) 1 0 None.

(** [s.find(q)]: the least position at which [q] occurs in [s], [None] for
    [npos]. [pos] counts the bytes of [s] already passed. *)
Fixpoint string_find_from (s q : list ascii) (pos : nat) : option nat :=
  if bool_decide (take (length q) s = q) then Some pos
  else
    match s with
    | [] => None
    | _ :: s' => string_find_from s' q (S pos)
    end.

Definition string_find (s q : list ascii) : option nat :=
  string_find_from s q 0.

(** The first statement of the callback: put the saved highlight back and
    free the slot. *)
Definition find_restore (fs : FindStatics) (E : editorConfig)
    : option (FindStatics * editorConfig) :=
  match saved_hl fs with
  | Some h =>
      idx ← row_index E (saved_hl_line fs);
      row ← rows E !! idx;
      Some (mkStatics (last_match fs) (direction fs) (saved_hl_line fs) None,
            set_rows (<[idx := mkRow (chars row) (render row) h]> (rows E)) E)
  | None => Some (fs, E)
  end.

(** The chain of tests on [key]: the statics it leaves, and whether the
    callback returns at once (Enter and Escape). *)
Definition find_key (key : Z) (fs : FindStatics) : FindStatics * bool :=
  if (key =? 13) || (key =? 27) then
    (mkStatics (-1) 1 (saved_hl_line fs) (saved_hl fs), true)
  else if (key =? ARROW_RIGHT) || (key =? ARROW_DOWN) then
    (mkStatics (last_match fs) 1 (saved_hl_line fs) (saved_hl fs), false)
  else if (key =? ARROW_LEFT) || (key =? ARROW_UP) then
    (mkStatics (last_match fs) (-1) (saved_hl_line fs) (saved_hl fs), false)
  else
    (mkStatics (-1) 1 (saved_hl_line fs) (saved_hl fs), false).

(** What the [for] loop of the callback did: the values [current] took, in
    order (the rows it examined), and the row and column of the match it
    stopped at, if any. *)
Record Scan : Type := mkScan {
  examined : list Z;
  hit : option (Z * nat)
}.

(** [current += direction] and the two wrap-around tests after it. *)
Definition scan_next (rs : list ERow) (dir current : Z) : Z :=
  let c1 := current + dir in
  if c1 =? -1 then isize rs - 1
  else if c1 =? isize rs then 0
  else c1.

(** The [for] loop with [n] iterations left. *)
Fixpoint find_scan (n : nat) (rs : list ERow) (query : list ascii)
    (dir current : Z) : option Scan :=
  match n with
  | O => Some (mkScan [] None)
  | S n' =>
      let c2 := scan_next rs dir current in
      if (0 <=? c2) && (c2 <? isize rs) then
        row ← rs !! Z.to_nat c2;
        match string_find (chars row) query with
        | Some pos => Some (mkScan [c2] (Some (c2, pos)))
        | None =>
            sc ← find_scan n' rs query dir c2;
            Some (mkScan (c2 :: examined sc) (hit sc))
        end
      else None
  end.

(** The body of [if (pos != std::string::npos)]. *)
Definition find_mark (query : list ascii) (current : Z) (pos : nat)
    (fs : FindStatics) (E : editorConfig) : option (FindStatics * editorConfig) :=
  row ← rows E !! Z.to_nat current;
  let E1 := set_rowoff (isize (rows E)) (set_cursor (Z.of_nat pos) current E) in
  let h1 := replicate (length (render row)) HL_NORMAL in
  let h2 := fill pos (pos + length query) HL_MATCH h1 in
  Some (mkStatics current (direction fs) current (Some (hl row)),
        set_rows (<[Z.to_nat current := mkRow (chars row) (render row) h2]> (rows E1)) E1).

(** The rest of the callback after the tests on [key]. *)
Definition find_search (query : list ascii) (fs : FindStatics)
    (E : editorConfig) : option (Scan * (FindStatics * editorConfig)) :=
  let fs1 :=
    if last_match fs =? -1
    then mkStatics (last_match fs) 1 (saved_hl_line fs) (saved_hl fs)
    else fs in
  sc ← find_scan (length (rows E)) (rows E) query (direction fs1) (last_match fs1);
  match hit sc with
  | Some (current, pos) =>
      r ← find_mark query current pos fs1 E; Some (sc, r)
  | None => Some (sc, (fs1, E))
  end.

(** [editorFindCallback(query, key)], with the scan it made (none on Enter
    and Escape). *)
Definition editorFindCallback_scan (query : list ascii) (key : Z)
    (fs : FindStatics) (E : editorConfig)
    : option (Scan * (FindStatics * editorConfig)) :=
  '(fs1, E1) ← find_restore fs E;
  let '(fs2, returned) := find_key key fs1 in
  if returned then Some (mkScan [] None, (fs2, E1))
  else find_search query fs2 E1.

Definition editorFindCallback (query : list ascii) (key : Z)
    (fs : FindStatics) (E : editorConfig) : option (FindStatics * editorConfig) :=
  snd <$> editorFindCallback_scan query key fs E.

(** ** Cursor movement and scrolling *)

Definition set_rx (x : Z) (E : editorConfig) : editorConfig :=
  mkConfig (cx E) (cy E) x (rowoff E) (coloff E) (screenrows E) (screencols E)
    (dirty E) (filename E) (statusmsg E) (syntax E) (rows E).

Definition set_coloff (o : Z) (E : editorConfig) : editorConfig :=
  mkConfig (cx E) (cy E) (rx E) (rowoff E) o (screenrows E) (screencols E)
    (dirty E) (filename E) (statusmsg E) (syntax E) (rows E).

Definition set_statusmsg (m : list ascii) (E : editorConfig) : editorConfig :=
  mkConfig (cx E) (cy E) (rx E) (rowoff E) (coloff E) (screenrows E)
    (screencols E) (dirty E) (filename E) m (syntax E) (rows E).

(** [(int)E.rows[k].chars.size()]: defined for a row of the vector only. *)
Definition row_len (E : editorConfig) (k : Z) : option Z :=
  idx ← row_index E k;
  row ← rows E !! idx;
  Some (isize (chars row)).

(** [editorMoveCursor(key)]: the [switch], then the clamp of [E.cx] to the
    length of the row [E.cy] ends on. Both read [E.rows[E.cy]] without a
    test on [E.cy]. *)
Definition editorMoveCursor (key : Z) (E : editorConfig) : option editorConfig :=
  match rows E with
  | [] => Some E
  | _ :: _ =>
      E1 ← (if key =? ARROW_LEFT then
              if cx E >? 0 then Some (set_cursor (cx E - 1) (cy E) E)
              else if cy E >? 0 then
                n ← row_len E (cy E - 1);
                Some (set_cursor n (cy E - 1) E)
              else Some E
            else if key =? ARROW_RIGHT then
              rowLen ← row_len E (cy E);
              if cx E <? rowLen then Some (set_cursor (cx E + 1) (cy E) E)
              else if cy E <? isize (rows E) - 1 then Some (set_cursor 0 (cy E + 1) E)
              else Some E
            else if key =? ARROW_UP then
              if cy E >? 0 then Some (set_cursor (cx E) (cy E - 1) E) else Some E
            else if key =? ARROW_DOWN then
              if cy E <? isize (rows E) - 1 then Some (set_cursor (cx E) (cy E + 1) E)
              else Some E
            else Some E);
      rowlen ← row_len E1 (cy E1);
      Some (if cx E1 >? rowlen then set_cursor rowlen (cy E1) E1 else E1)
  end.

(** [editorScroll]. The sums and differences are those of the code as long
    as they stay in the range of an [int]. *)
Definition editorScroll (E : editorConfig) : option editorConfig :=
  E1 ← (if cy E <? isize (rows E) then
          idx ← row_index E (cy E);
          row ← rows E !! idx;
          Some (set_rx (editorRowCxToRx row (cx E)) E)
        else Some (set_rx 0 E));
  let E2 := if cy E1 <? rowoff E1 then set_rowoff (cy E1) E1 else E1 in
  let E3 :=
    if cy E2 >=? rowoff E2 + screenrows E2
    then set_rowoff (cy E2 - screenrows E2 + 1) E2 else E2 in
  let E4 := if rx E3 <? coloff E3 then set_coloff (rx E3) E3 else E3 in
  let E5 :=
    if rx E4 >=? coloff E4 + screencols E4
    then set_coloff (rx E4 - screencols E4 + 1) E4 else E4 in
  Some E5.

(** ** Status message, prompt and the search session *)

(** [editorSetStatusMessage(fmt, ...)]: [formatted] is the text the format
    and its arguments expand to; [vsnprintf] keeps what fits the 80-byte
    buffer. The time stamp [E.statusmsg_time] is not kept: whether the
    message is still recent when it is drawn is an argument of
    [editorDrawMessageBar]. *)
Definition editorSetStatusMessage (formatted : list ascii) (E : editorConfig)
    : editorConfig :=
  set_statusmsg (take 79 formatted) E.

(** What [editorRefreshScreen] does to [E] (it calls [editorScroll]). The
    bytes it then draws and writes to the terminal are not part of the
    state; they are [editorRefreshScreen_draw] below, which also says when
    the drawing does not return. *)
Definition editorRefreshScreen (E : editorConfig) : option editorConfig :=
  editorScroll E.

(** [iscntrl(c)] in the C locale: the codes below 32 and 127. *)
Definition iscntrl (c : Z) : bool :=
  ((0 <=? c) && (c <? 32)) || (c =? 127).

(** [!iscntrl(c) && c < 128] for a key [editorReadKey] returns. That
    function reads a byte into a [char], which is signed, and returns it
    as an [int]: a byte from 0x80 on arrives as a negative number, is no
    control character and is below 128, so it passes the test like the
    bytes 32..126. The named keys, from 1000 on, do not pass. *)
Definition printable_key (c : Z) : bool :=
  negb (iscntrl c) && (c <? 128).

(** [(char)c], as the byte it is. *)
Definition to_char (c : Z) : ascii := ascii_of_nat (Z.to_nat (c mod 256)).

(** How a call of [editorPrompt] stands when the keys given are used up:
    it has returned [result], with the keys it left unread, or it waits in
    [editorReadKey] with [input] typed so far. *)
Inductive PromptResult : Type :=
| Returned (result : list ascii) (rest : list Z)
| Reading (input : list ascii).

Section Prompt.

(** The state the callback keeps besides [E] (its static locals). *)
Context {S : Type}.

(** [snprintf(status, ..., prompt.c_str(), input.c_str())] without the limit
    of the buffer, as a function of [input]. *)
Variable prompt : list ascii -> list ascii.

(** The function pointer [callback]; [None] is [NULL]. *)
Variable callback :
  option (list ascii -> Z -> S -> editorConfig -> option (S * editorConfig)).

(** [if (callback) callback(input, c);] *)
Definition call_callback (input : list ascii) (c : Z) (st : S * editorConfig)
    : option (S * editorConfig) :=
  match callback with
  | Some f => f input c (fst st) (snd st)
  | None => Some st
  end.

(** The [while (true)] loop of [editorPrompt], [keys] being what the next
    calls of [editorReadKey] return. *)
Fixpoint editorPrompt_loop (keys : list Z) (input : list ascii)
    (st : S * editorConfig) : option (PromptResult * (S * editorConfig)) :=
  E1 ← editorRefreshScreen
         (editorSetStatusMessage (take 255 (prompt input)) (snd st));
  match keys with
  | [] => Some (Reading input, (fst st, E1))
  | c :: keys' =>
      if (c =? DEL_KEY) || (c =? Z.land 104 31) || (c =? BACKSPACE) then
        st' ← call_callback (removelast input) c (fst st, E1);
        editorPrompt_loop keys' (removelast input) st'
      else if c =? 27 then
        st' ← call_callback input c (fst st, editorSetStatusMessage [] E1);
        Some (Returned [] keys', st')
      else if c =? 13 then
        match input with
        | _ :: _ =>
            st' ← call_callback input c (fst st, editorSetStatusMessage [] E1);
            Some (Returned input keys', st')
        | [] =>
            st' ← call_callback input c (fst st, E1);
            editorPrompt_loop keys' input st'
        end
      else
        let input' :=
          if printable_key c then input ++ [to_char c] else input in
        st' ← call_callback input' c (fst st, E1);
        editorPrompt_loop keys' input' st'
  end.

Definition editorPrompt (keys : list Z) (st : S * editorConfig)
    : option (PromptResult * (S * editorConfig)) :=
  editorPrompt_loop keys [] st.

End Prompt.

(** The expansion of the prompt of [editorFind]. *)
Definition find_prompt (input : list ascii) : list ascii :=
  lit "Search: " ++ input ++ lit " (ESC to cancel)".

(** [editorFind], the static locals of its callback being [fs]. *)
Definition editorFind (keys : list Z) (fs : FindStatics) (E : editorConfig)
    : option (PromptResult * (FindStatics * editorConfig)) :=
  r ← editorPrompt find_prompt (Some editorFindCallback) keys (fs, E);
  match r with
  | (Returned [] rest, (fs', E')) =>
      Some (Returned [] rest,
            (fs', set_rowoff (rowoff E)
                    (set_coloff (coloff E) (set_cursor (cx E) (cy E) E'))))
  | _ => Some r
  end.

(** ** Saving *)

(** A number as [%d] and [%lu] print it. *)
Definition decimal (n : Z) : list ascii :=
  String.list_ascii_of_string (DecimalString.NilZero.string_of_int (Z.to_int n)).

(** The expansion of the prompt of [editorSave]. *)
Definition save_prompt (input : list ascii) : list ascii :=
  lit "Save as: " ++ input ++ lit " (ESC to cancel)".

(** What the file system answers when [editorSave] opens the file for
    writing: whether [out.is_open()], and the text of [strerror(errno)]
    when it is not. *)
Record Disk : Type := mkDisk {
  can_open : list ascii -> bool;
  open_error : list ascii
}.

(** How a call of [editorSave] ends: [buffer] written to the file [name],
    the message of the I/O error, the message of the empty name, or still in
    [editorReadKey] when the keys given are used up. *)
Inductive SaveResult : Type :=
| SaveWritten (name buffer : list ascii)
| SaveFailed
| SaveAborted
| SaveReading (input : list ascii).

(** [editorSave] from [std::ofstream out(...)] on. *)
Definition save_write (d : Disk) (E : editorConfig) : SaveResult * editorConfig :=
  if can_open d (filename E) then
    let buffer := editorRowsToString E in
    (SaveWritten (filename E) buffer,
     editorSetStatusMessage
       (decimal (Z.of_nat (length buffer)) ++ lit " bytes written to disk")
       (set_dirty false E))
  else
    (SaveFailed,
     editorSetStatusMessage (lit "Can't save! I/O error: " ++ open_error d) E).

(** [editorSave], with the keys its prompt leaves unread. *)
Definition editorSave (d : Disk) (keys : list Z) (E : editorConfig)
    : option (SaveResult * list Z * editorConfig) :=
  match filename E with
  | [] =>
      r ← editorPrompt save_prompt None keys (tt, E);
      match r with
      | (Reading input, (_, E1)) => Some (SaveReading input, [], E1)
      | (Returned [] rest, (_, E1)) =>
          Some (SaveAborted, rest, editorSetStatusMessage (lit "Save aborted") E1)
      | (Returned newName rest, (_, E1)) =>
          let '(res, E2) :=
            save_write d (set_filename newName (editorSelectSyntaxHighlight E1)) in
          Some (res, rest, E2)
      end
  | _ :: _ => let '(res, E1) := save_write d E in Some (res, keys, E1)
  end.

(** ** Keys *)

Definition KILO_QUIT_TIMES : Z := 3.

Definition CTRL_KEY (k : Z) : Z := Z.land k 31.

(** The expansion of the warning of Ctrl-Q. *)
Definition quit_warning (quit_times : Z) : list ascii :=
  lit "WARNING!!! File has unsaved changes. Press Ctrl-Q "
  ++ decimal quit_times ++ lit " more times to quit.".

(** [while (times--) editorMoveCursor(key);] for [times >= 0]. *)
Fixpoint move_times (times : nat) (key : Z) (E : editorConfig)
    : option editorConfig :=
  match times with
  | O => Some E
  | S n => E1 ← editorMoveCursor key E; move_times n key E1
  end.

(** How a call of [editorProcessKeypress] ends: it returns, with the value
    of its static [quit_times], the statics of the search, the keys left
    unread and the file it wrote, if any; it calls [std::exit(0)]; or it
    still reads keys in a prompt when the keys given are used up. *)
Inductive KeyOutcome : Type :=
| Next (quit_times : Z) (fs : FindStatics) (E : editorConfig) (rest : list Z)
    (written : option (list ascii * list ascii))
| Exit
| InPrompt (fs : FindStatics) (E : editorConfig).

(** [editorProcessKeypress], [c] being the key [editorReadKey] returns and
    [keys] the keys after it. In the page keys, [while (times--)] with a
    negative [E.screenrows] counts down until [times] overflows: [None]. *)
Definition editorProcessKeypress (d : Disk) (c : Z) (keys : list Z)
    (quit_times : Z) (fs : FindStatics) (E : editorConfig) : option KeyOutcome :=
  let done := fun E' : editorConfig => Some (Next KILO_QUIT_TIMES fs E' keys None) in
  if c =? 13 then E' ← editorInsertNewline E; done E'
  else if c =? CTRL_KEY 113 then
    if dirty E && (quit_times >? 0) then
      Some (Next (quit_times - 1) fs
              (editorSetStatusMessage (quit_warning quit_times) E) keys None)
    else Some Exit
  else if c =? CTRL_KEY 115 then
    r ← editorSave d keys E;
    match r with
    | (SaveReading _, _, E') => Some (InPrompt fs E')
    | (SaveWritten name buffer, rest, E') =>
        Some (Next KILO_QUIT_TIMES fs E' rest (Some (name, buffer)))
    | (_, rest, E') => Some (Next KILO_QUIT_TIMES fs E' rest None)
    end
  else if c =? HOME_KEY then done (set_cursor 0 (cy E) E)
  else if c =? END_KEY then
    n ← row_len E (cy E); done (set_cursor n (cy E) E)
  else if c =? CTRL_KEY 102 then
    r ← editorFind keys fs E;
    match r with
    | (Returned _ rest, (fs', E')) => Some (Next KILO_QUIT_TIMES fs' E' rest None)
    | (Reading _, (fs', E')) => Some (InPrompt fs' E')
    end
  else if (c =? BACKSPACE) || (c =? CTRL_KEY 104) || (c =? DEL_KEY) then
    E1 ← (if c =? DEL_KEY then editorMoveCursor ARROW_RIGHT E else Some E);
    E' ← editorDelChar E1; done E'
  else if (c =? PAGE_UP) || (c =? PAGE_DOWN) then
    let E1 :=
      if c =? PAGE_UP then set_cursor (cx E) (rowoff E) E
      else
        let y := rowoff E + screenrows E - 1 in
        set_cursor (cx E) (if y >? isize (rows E) then isize (rows E) else y) E in
    if screenrows E1 <? 0 then None
    else
      E' ← move_times (Z.to_nat (screenrows E1))
             (if c =? PAGE_UP then ARROW_UP else ARROW_DOWN) E1;
      done E'
  else if (c =? ARROW_UP) || (c =? ARROW_DOWN) || (c =? ARROW_LEFT)
          || (c =? ARROW_RIGHT) then
    E' ← editorMoveCursor c E; done E'
  else if (c =? CTRL_KEY 108) || (c =? 27) then done E
  else if c =? 123 then
    E1 ← editorInsertChar (to_char c) E;
    E2 ← editorInsertChar "}"%char E1;
    done (set_cursor (cx E2 - 1) (cy E2) E2)
  else if c =? 40 then
    E1 ← editorInsertChar (to_char c) E;
    E2 ← editorInsertChar ")"%char E1;
    done (set_cursor (cx E2 - 1) (cy E2) E2)
  else E' ← editorInsertChar (to_char c) E; done E'.

(** ** The program *)

(** Where [main] stands when the keys given are used up, or that it has
    exited. *)
Inductive MainState : Type :=
| Exited
| AtKey (quit_times : Z) (fs : FindStatics) (E : editorConfig)
| AtPromptKey (fs : FindStatics) (E : editorConfig).

(** The [while (true)] loop of [main]; [log] lists the files written so
    far. A turn of the loop reads at least one key, so [fuel] as large as
    the number of keys is never used up. *)
Fixpoint main_loop (fuel : nat) (d : Disk) (keys : list Z) (quit_times : Z)
    (fs : FindStatics) (E : editorConfig) (log : list (list ascii * list ascii))
    : option (MainState * list (list ascii * list ascii)) :=
  E1 ← editorRefreshScreen E;
  match keys with
  | [] => Some (AtKey quit_times fs E1, log)
  | c :: keys' =>
      o ← editorProcessKeypress d c keys' quit_times fs E1;
      match o with
      | Exit => Some (Exited, log)
      | InPrompt fs' E' => Some (AtPromptKey fs' E', log)
      | Next quit_times' fs' E' rest written =>
          match fuel with
          | O => None
          | S fuel' =>
              main_loop fuel' d rest quit_times' fs' E' (log ++ option_list written)
          end
      end
  end.



(** ** Drawing *)

Definition ESC : ascii := ascii_of_nat 27.

Definition KILO_VERSION : list ascii := lit "0.0.1".

Definition editorSyntaxColor (h : editorHighlight) : Z :=
  match h with
  | HL_COMMENT => 36
  | HL_KEYWORD1 => 33
  | HL_KEYWORD2 => 32
  | HL_STRING => 35
  | HL_NUMBER => 31
  | HL_MATCH => 34
  | HL_NORMAL => 37
  end.

(** The loop over the columns of a text row in [editorDrawRows], with [n]
    columns left: [j] is the loop variable, the result what the loop
    appends. [render[E.coloff + j]] and [hl[E.coloff + j]] are read without
    a test. *)
Fixpoint draw_cells (row : ERow) (coloff : Z) (n : nat) (j : Z)
    (current_color : Z) : option (list ascii) :=
  match n with
  | O => Some []
  | S n' =>
      idx ← (if 0 <=? coloff + j then Some (Z.to_nat (coloff + j)) else None);
      c ← render row !! idx;
      h ← hl row !! idx;
      match h with
      | HL_NORMAL =>
          rest ← draw_cells row coloff n' (j + 1) (-1);
          Some ((if current_color =? -1 then [] else ESC :: lit "[39m")
                ++ c :: rest)
      | _ =>
          let color := editorSyntaxColor h in
          rest ← draw_cells row coloff n' (j + 1) color;
          Some ((if color =? current_color then []
                 else ESC :: lit "[" ++ decimal color ++ lit "m")
                ++ c :: rest)
      end
  end.

(** The [else] branch of the loop over the screen rows: a row of the
    file. *)
Definition draw_text_row (E : editorConfig) (row : ERow) : option (list ascii) :=
  let len0 := isize (render row) - coloff E in
  let len1 := if len0 <? 0 then 0 else len0 in
  let len := if len1 >? screencols E then screencols E else len1 in
  cells ← draw_cells row (coloff E) (Z.to_nat len) 0 (-1);
  Some (cells ++ ESC :: lit "[39m").

(** The branch of a screen row past the end of the file: the welcome
    message in the empty buffer, a tilde elsewhere. [welcome.resize] with a
    negative [E.screencols] throws. *)
Definition draw_filler (E : editorConfig) (y : Z) : option (list ascii) :=
  if bool_decide (rows E = []) && (y =? Z.quot (screenrows E) 3) then
    let welcome0 := lit "Kilo editor -- version " ++ KILO_VERSION in
    welcome ← (if isize welcome0 >? screencols E then
                 if screencols E <? 0 then None
                 else Some (take (Z.to_nat (screencols E)) welcome0)
               else Some welcome0);
    let padding := Z.quot (screencols E - isize welcome) 2 in
    Some ((if padding =? 0 then []
           else "~"%char :: replicate (Z.to_nat (padding - 1)) " "%char)
          ++ welcome)
  else Some (lit "~").

(** The body of the loop over the screen rows. *)
Definition draw_line (E : editorConfig) (y : Z) : option (list ascii) :=
  let filerow := y + rowoff E in
  body ← (if filerow >=? isize (rows E) then draw_filler E y
          else
            row ← (if 0 <=? filerow then rows E !! Z.to_nat filerow else None);
            draw_text_row E row);
  Some (body ++ ESC :: lit "[K" ++ [CR; LF]).

(** The loop over the screen rows, [n] rows left. *)
Fixpoint draw_lines (E : editorConfig) (n : nat) (y : Z) : option (list ascii) :=
  match n with
  | O => Some []
  | S n' =>
      line ← draw_line E y;
      rest ← draw_lines E n' (y + 1);
      Some (line ++ rest)
  end.

(** [editorDrawRows(ab)]: the buffer after the call. *)
Definition editorDrawRows (E : editorConfig) (ab : list ascii)
    : option (list ascii) :=
  out ← draw_lines E (Z.to_nat (screenrows E)) 0;
  Some (ab ++ out).

(** The [while] loop of [editorDrawStatusBar], [n] being
    [E.screencols - len]. *)
Fixpoint status_fill (n : nat) (rStr : list ascii) : list ascii :=
  match n with
  | O => []
  | S n' =>
      if Z.of_nat n =? isize rStr then rStr
      else " "%char :: status_fill n' rStr
  end.

(** [lStr] before it is cut to the width of the window, and [rStr]. *)
Definition status_left (E : editorConfig) : list ascii :=
  (match filename E with [] => lit "[No Name]" | _ :: _ => filename E end)
  ++ lit " - " ++ decimal (isize (rows E)) ++ lit " lines"
  ++ (if dirty E then lit " (modified)" else []).

Definition status_right (E : editorConfig) : list ascii :=
  decimal (cy E + 1) ++ lit "/" ++ decimal (isize (rows E))
  ++ (match syntax E with Some s => filetype s | None => lit "no ft" end)
  ++ lit " | " ++ decimal (cy E + 1) ++ lit "/" ++ decimal (isize (rows E)).

(** [editorDrawStatusBar(ab)]: the buffer after the call. [lStr.resize]
    with a negative [E.screencols] throws. *)
Definition editorDrawStatusBar (E : editorConfig) (ab : list ascii)
    : option (list ascii) :=
  lStr ← (if isize (status_left E) >? screencols E then
            if screencols E <? 0 then None
            else Some (take (Z.to_nat (screencols E)) (status_left E))
          else Some (status_left E));
  Some (ab ++ ESC :: lit "[7m" ++ lStr
        ++ status_fill (Z.to_nat (screencols E - isize lStr)) (status_right E)
        ++ ESC :: lit "[m" ++ [CR; LF]).

(** [editorDrawMessageBar(ab)]: the buffer after the call. [recent] is the
    test [time(nullptr) - E.statusmsg_time < 5]. [ab.b.append(s, msglen)]
    with a negative [msglen] throws. *)
Definition editorDrawMessageBar (recent : bool) (E : editorConfig)
    (ab : list ascii) : option (list ascii) :=
  let ab1 := ab ++ ESC :: lit "[K" in
  match statusmsg E with
  | [] => Some ab1
  | _ :: _ =>
      let msglen :=
        if isize (statusmsg E) >? screencols E then screencols E
        else isize (statusmsg E) in
      if recent then
        if msglen <? 0 then None
        else Some (ab1 ++ take (Z.to_nat msglen) (statusmsg E))
      else Some ab1
  end.

(** [editorRefreshScreen] from [abuf ab;] on, [E] being the state
    [editorScroll] has left: the bytes the call writes to the terminal.
    [None] when one of the drawing functions throws or reads outside a
    row; the call then does not return, whatever [editorRefreshScreen]
    above, which follows [E] only, gives for it. *)
Definition editorRefreshScreen_draw (recent : bool) (E : editorConfig)
    : option (list ascii) :=
  ab1 ← editorDrawRows E (ESC :: lit "[?25l" ++ ESC :: lit "[H");
  ab2 ← editorDrawStatusBar E ab1;
  ab3 ← editorDrawMessageBar recent E ab2;
  Some (ab3 ++ ESC :: lit "[" ++ decimal ((cy E - rowoff E) + 1) ++ lit ";"
        ++ decimal ((rx E - coloff E) + 1) ++ lit "H"
        ++ ESC :: lit "[?25h").

(** * Vocabulary of the statements *)

(** ** Render mapper *)

(** What one byte of the raw text adds to the rendered column. *)
Definition rx_step (r : Z) (c : ascii) : Z :=
  (if Ascii.eqb c TAB then r + ((KILO_TAB_STOP - 1) - Z.rem r KILO_TAB_STOP) else r) + 1.

(** ** Highlight classifier *)

(** The quantity that drops at every iteration of the classifier loop that
    continues. *)
Definition syntax_measure (r : list ascii) (st : SyntaxLocals) : nat :=
  (2 * (length r - s_i st) + (if s_prev_sep st then 1 else 0))%nat.

(** A grammar whose keyword list is the primary keyword "int", with any
    file type, extensions and flags. *)
Definition grammar_int (ft : list ascii) (exts : list (list ascii)) (fl : Z)
    : EditorSyntax :=
  mkSyntax ft exts [lit "int"] (lit "//") fl.

(** ** Edit operations *)

(** The row invariant: one highlight class per rendered byte. *)
Definition row_ok (row : ERow) : Prop := length (render row) = length (hl row).

Definition rows_ok (E : editorConfig) : Prop := Forall row_ok (rows E).

(** The edit operations of the specification, each with its arguments. *)
Inductive EditOp : Type :=
| InsertChar (c : ascii)
| InsertNewline
| DelChar
| InsertRow (at_ : Z) (s : list ascii)
| DelRow (at_ : Z)
| RowAppendString (idx : nat) (s : list ascii).

Definition run_op (op : EditOp) (E : editorConfig) : option editorConfig :=
  match op with
  | InsertChar c => editorInsertChar c E
  | InsertNewline => editorInsertNewline E
  | DelChar => editorDelChar E
  | InsertRow at_ s => Some (editorInsertRow at_ s E)
  | DelRow at_ => Some (editorDelRow at_ E)
  | RowAppendString idx s => editorRowAppendString idx s E
  end.

(** The cursor as the key handlers keep it: on a row or on the virtual row
    past the end, and inside the text of its row. *)
Definition cursor_ok (E : editorConfig) : Prop :=
  0 <= cy E <= isize (rows E)
  /\ 0 <= cx E
  /\ (cx E <> 0 ->
      exists row, rows E !! Z.to_nat (cy E) = Some row /\ cx E <= isize (chars row)).

(** ** Load and serialize *)

(** The text the specification names: the lines joined by a newline... *)
Fixpoint join_lines (lines : list (list ascii)) : list ascii :=
  match lines with
  | [] => []
  | l :: ls =>
      match ls with
      | [] => l
      | _ :: _ => l ++ LF :: join_lines ls
      end
  end.

(** ... with one trailing newline. *)
Definition joined_with_trailing_newline (lines : list (list ascii)) : list ascii :=
  join_lines lines ++ [LF].

(** What the code writes: every line followed by a newline. *)
Definition each_line_terminated (lines : list (list ascii)) : list ascii :=
  concat (map (fun l => l ++ [LF]) lines).

(** ** Search *)

(** The scan stays inside the row vector: forward from [-1] or from a row,
    backward from a row. The test [if (last_match == -1) direction = 1]
    rules out the one start that would not, backward from [-1]. *)
Definition scan_start_ok (rs : list ERow) (dir current : Z) : Prop :=
  0 < isize rs
  /\ ((dir = 1 /\ -1 <= current < isize rs) \/ (dir = -1 /\ 0 <= current < isize rs)).

(** The slot, when it is in use, names a row of the document. *)
Definition slot_ok (fs : FindStatics) (E : editorConfig) : Prop :=
  saved_hl fs <> None -> 0 <= saved_hl_line fs < isize (rows E).

(** The highlight sequence a match at column [pos] leaves in its row. *)
Definition overlay_hl (query : list ascii) (pos : nat) (row : ERow)
    : list editorHighlight :=
  fill pos (pos + length query) HL_MATCH (replicate (length (render row)) HL_NORMAL).

(** The direction the scan takes. *)
Definition scan_direction (fs : FindStatics) : Z :=
  if last_match fs =? -1 then 1 else direction fs.

(** The documents of the examples. *)
Definition doc_foo (g : option EditorSyntax) : editorConfig :=
  load_from_lines [lit "foo bar"; lit "baz foo"] (set_syntax g (initEditor 24 80)).

Definition doc_int_foo : editorConfig :=
  load_from_lines [lit "int foo"] (set_syntax (Some HLDB0) (initEditor 24 80)).

(** What a search event does with a saved overlay [h] of row
    [saved_hl_line]: the restore step puts [h] back into that row and frees
    the slot; the rest of the callback, the scan included, runs on the
    restored state; and at the end of the event the row has highlight [h]
    again, unless the new match is on that very row, in which case [h] is
    what the slot holds. *)
Definition restores_before_matching (query : list ascii) (key : Z)
    (fs : FindStatics) (E : editorConfig) (h : list editorHighlight) : Prop :=
  let line := Z.to_nat (saved_hl_line fs) in
  exists fs1 E1 row,
    find_restore fs E = Some (fs1, E1)
    /\ saved_hl fs1 = None
    /\ rows E !! line = Some row
    /\ rows E1 = <[line := mkRow (chars row) (render row) h]> (rows E)
    /\ hl <$> rows E1 !! line = Some h
    /\ editorFindCallback_scan query key fs E
       = (let '(fs2, returned) := find_key key fs1 in
          if returned then Some (mkScan [] None, (fs2, E1))
          else find_search query fs2 E1)
    /\ (forall sc fs' E',
          editorFindCallback_scan query key fs E = Some (sc, (fs', E')) ->
          match hit sc with
          | Some (current, _) =>
              if current =? saved_hl_line fs then saved_hl fs' = Some h
              else hl <$> rows E' !! line = Some h
          | None => hl <$> rows E' !! line = Some h /\ saved_hl fs' = None
          end).

(** ** Edit operations on the text of the document *)

(** The serialized text of a sequence of rows. *)
Definition text_of (rs : list ERow) : list ascii :=
  each_line_terminated (map chars rs).

(** The place of the cursor in the serialized text: behind the rows above
    it and [E.cx] bytes into its row. *)
Definition cursor_offset (E : editorConfig) : nat :=
  (length (text_of (take (Z.to_nat (cy E)) (rows E))) + Z.to_nat (cx E))%nat.

(** The cursor is on a row of the document, inside its raw text. *)
Definition cursor_on_row (E : editorConfig) : Prop :=
  0 <= cy E
  /\ exists row, rows E !! Z.to_nat (cy E) = Some row
                 /\ 0 <= cx E <= isize (chars row).

(** The rendered text and the highlight of every row are what
    [editorUpdateRow] computes from its raw text under the grammar of [E]. *)
Definition rows_synced (E : editorConfig) : Prop :=
  Forall (fun row => editorUpdateRow (syntax E) row = row) (rows E).

(** The grammar is [syn] and every row has the property [P]. *)
Definition keeps (syn : option EditorSyntax) (P : ERow -> Prop)
    (E : editorConfig) : Prop :=
  syntax E = syn /\ Forall P (rows E).

(** ** Scrolling *)

(** The offset the two tests of [editorScroll] on one axis leave: [off]
    before, [pos] the position of the cursor, [size] the length of the
    window. *)
Definition scroll_offset (off pos size : Z) : Z :=
  let o1 := if pos <? off then pos else off in
  if pos >=? o1 + size then pos - size + 1 else o1.



(** The rendered column [editorScroll] computes for the cursor. *)
Definition cursor_rx (E : editorConfig) : Z :=
  match rows E !! Z.to_nat (cy E) with
  | Some row => editorRowCxToRx row (cx E)
  | None => 0
  end.


(** ** Search *)

(** The query [q] stands in the text [s] at position [p]. *)
Definition occurs_at (s q : list ascii) (p : nat) : Prop :=
  substr s p (length q) = q.


(** [E] has the window, the dirty flag, the file name and the grammar of
    [E0]. *)
Definition same_settings (E0 E : editorConfig) : Prop :=
  screenrows E = screenrows E0 /\ screencols E = screencols E0
  /\ dirty E = dirty E0 /\ filename E = filename E0 /\ syntax E = syntax E0.

(** The largest size of a window that [struct winsize] can hold, in its
    [unsigned short] fields. *)
Definition WINDOW_MAX : Z := 65535.

(** What the drawing of [editorRefreshScreen] needs of the state: every
    row has a highlight class for each rendered byte, neither offset is
    negative, and neither is the width of the window. The sizes of the
    window are moreover those of a terminal, far from the end of the range
    of an [int]. *)
Definition drawable (E : editorConfig) : Prop :=
  rows_ok E /\ 0 <= rowoff E /\ 0 <= coloff E
  /\ 0 <= screencols E <= WINDOW_MAX /\ screenrows E <= WINDOW_MAX.

(** Between two keys of a search session on the document [E0]: the cursor
    row is not negative, [last_match] is [-1] or a row, the cursor is in
    the text, [rowoff] not negative and the state drawable if they were so
    in [E0], and what
    differs from the rows of [E0] is the highlight of the one row whose own
    highlight the slot holds, so that the restore step gives the rows of
    [E0] back. *)
Definition search_state_ok (E0 : editorConfig) (fs : FindStatics)
    (E : editorConfig) : Prop :=
  0 <= cy E
  /\ -1 <= last_match fs < isize (rows E0)
  /\ same_settings E0 E
  /\ (cursor_ok E0 -> cursor_ok E)
  /\ (0 <= rowoff E0 -> 0 <= rowoff E)
  /\ (drawable E0 -> drawable E)
  /\ exists fs1 E1, find_restore fs E = Some (fs1, E1) /\ rows E1 = rows E0.

(** ** Keys *)

(** What [main] keeps between two keys: every row has the rendered text
    and the highlight of its raw text, the cursor is in the text or at the
    start of the virtual row, [rowoff] is not negative, the window has a
    row, a buffer without a name has no grammar, the search holds no
    saved highlight and no last match, neither [coloff] nor the width of
    the window is negative, and the sizes of the window are those of a
    terminal. *)
Definition editor_ok (fs : FindStatics) (E : editorConfig) : Prop :=
  rows_synced E /\ cursor_ok E /\ 0 <= rowoff E /\ 0 < screenrows E
  /\ (filename E = [] -> syntax E = None)
  /\ saved_hl fs = None /\ last_match fs = -1
  /\ 0 <= coloff E
  /\ 0 <= screencols E <= WINDOW_MAX /\ screenrows E <= WINDOW_MAX.

(** The keys that make [editorProcessKeypress] read [E.rows[E.cy]] with
    [E.cy == E.rows.size()]: End on the virtual row; right, down and
    Delete on the virtual row of a document with rows; Page Down when the
    document with rows ends inside the window. *)
Definition reads_past_end (c : Z) (E : editorConfig) : Prop :=
  (c = END_KEY /\ cy E = isize (rows E))
  \/ (rows E <> [] /\ cy E = isize (rows E)
      /\ (c = ARROW_RIGHT \/ c = ARROW_DOWN \/ c = DEL_KEY))
  \/ (c = PAGE_DOWN /\ rows E <> []
      /\ isize (rows E) <= rowoff E + screenrows E - 1).

(** [E'] differs from [E] in the cursor, the dirty flag and the rows at
    most. *)
Definition same_view (E E' : editorConfig) : Prop :=
  rx E' = rx E /\ rowoff E' = rowoff E /\ coloff E' = coloff E
  /\ screenrows E' = screenrows E /\ screencols E' = screencols E
  /\ filename E' = filename E /\ statusmsg E' = statusmsg E
  /\ syntax E' = syntax E.

(** [E'] has the cursor, the rows and the settings of [E], and a [rowoff]
    that is not negative if that of [E] is not: what a prompt leaves of
    the state it started in. *)
Definition same_document (E E' : editorConfig) : Prop :=
  cx E' = cx E /\ cy E' = cy E /\ rows E' = rows E
  /\ same_settings E E'
  /\ (0 <= rowoff E -> 0 <= rowoff E').

(** ** Drawing *)

(** How a terminal reads the bytes drawn: outside a control sequence every
    byte is a cell in the current foreground colour; [ESC [ n m] sets the
    colour to [n] (39 is the default colour); any other sequence
    [ESC [ n x], like the [ESC [ K] that clears the rest of a line, shows
    nothing and keeps the colour. *)
Inductive TermState : Type :=
| Text
| SawEsc
| InCsi (n : Z).

(** The cells the bytes show, and the colour and state they end in. *)
Fixpoint term_read (st : TermState) (fg : Z) (bytes : list ascii)
    : list (ascii * Z) * (TermState * Z) :=
  match bytes with
  | [] => ([], (st, fg))
  | b :: bs =>
      match st with
      | Text =>
          if Ascii.eqb b ESC then term_read SawEsc fg bs
          else let '(cells, final) := term_read Text fg bs in
               ((b, fg) :: cells, final)
      | SawEsc =>
          if Ascii.eqb b "["%char then term_read (InCsi 0) fg bs
          else term_read Text fg bs
      | InCsi n =>
          if isdigit b then term_read (InCsi (10 * n + (code b - 48))) fg bs
          else if Ascii.eqb b "m"%char then term_read Text n bs
          else term_read Text fg bs
      end
  end.

(** The colour of a cell of class [h]. *)
Definition cell_color (h : editorHighlight) : Z :=
  match h with
  | HL_NORMAL => 39
  | _ => editorSyntaxColor h
  end.

(** The part of a row's rendered text, or of its highlight, that is inside
    the window. *)
Definition in_window {A : Type} (E : editorConfig) (l : list A) : list A :=
  take (Z.to_nat (screencols E)) (drop (Z.to_nat (coloff E)) l).

Definition plain_cells (s : list ascii) : list (ascii * Z) :=
  map (fun c => (c, 39)) s.

(** The welcome line of a window [cols] columns wide: the message, cut at
    the right margin, behind a left margin half as wide as what the message
    leaves of the line; the margin, if there is one, starts with a tilde. *)
Definition welcome_line (cols : nat) : list ascii :=
  let message := take cols (lit "Kilo editor -- version 0.0.1") in
  match ((cols - length message) / 2)%nat with
  | O => message
  | S n => "~"%char :: replicate n " "%char ++ message
  end.

(** What screen row [y] shows: for a row of the file, the part of its
    rendered text inside the window, each byte in the colour of its class;
    past the end of the file a tilde, but in the empty buffer the welcome
    line a third of the way down; then the line ends. *)
Definition screen_line (E : editorConfig) (y : Z) : list (ascii * Z) :=
  (if y + rowoff E >=? isize (rows E) then
     if bool_decide (rows E = []) && (y =? screenrows E / 3)
     then plain_cells (welcome_line (Z.to_nat (screencols E)))
     else [("~"%char, 39)]
   else
     match rows E !! Z.to_nat (y + rowoff E) with
     | Some row =>
         zip (in_window E (render row)) (map cell_color (in_window E (hl row)))
     | None => []
     end)
  ++ plain_cells [CR; LF].

(** The screen rows from [y] on, [n] of them. *)
Fixpoint screen_lines (E : editorConfig) (n : nat) (y : Z) : list (ascii * Z) :=
  match n with
  | O => []
  | S n' => screen_line E y ++ screen_lines E n' (y + 1)
  end.

(** The bytes show [cells], starting in colour [fg] and ending in colour
    [fg'], outside a control sequence at both ends. *)
Definition shows (fg : Z) (bytes : list ascii) (cells : list (ascii * Z))
    (fg' : Z) : Prop :=
  forall tail,
    term_read Text fg (bytes ++ tail)
    = (cells ++ fst (term_read Text fg' tail), snd (term_read Text fg' tail)).

(** * Properties *)

(** ** Render mapper *)

Section RenderMapper.

Lemma rx_step_lt r c : r < rx_step r c.
Proof.
  unfold rx_step, KILO_TAB_STOP. destruct (Ascii.eqb c TAB); [|lia].
  pose proof (Z.rem_bound_pos_neg r 8).
  destruct (Z_le_gt_dec 0 r) as [Hr|Hr].
  - pose proof (Z.rem_bound_pos r 8 Hr). lia.
  - pose proof (Z.rem_bound_neg_pos r 8). lia.
Qed.

Lemma foldl_rx_step_le s r : r <= foldl rx_step r s.
Proof.
  revert r. induction s as [|c s IH]; intros r; simpl; [lia|].
  pose proof (rx_step_lt r c). specialize (IH (rx_step r c)). lia.
Qed.

Lemma editorRowCxToRx_loop_foldl n s j r :
  (j + n <= length s)%nat ->
  editorRowCxToRx_loop n s j r = foldl rx_step r (take n (drop j s)).
Proof.
  revert j r. induction n as [|n IH]; intros j r Hlen; simpl.
  - reflexivity.
  - destruct (lookup_lt_is_Some_2 s j) as [x Hx]; [lia|].
    rewrite (drop_S _ _ _ Hx). simpl.
    rewrite IH by lia. unfold char_at. rewrite (nth_lookup_Some _ _ _ _ Hx).
    reflexivity.
Qed.

Lemma editorRowCxToRx_foldl row c :
  0 <= c <= isize (chars row) ->
  editorRowCxToRx row c = foldl rx_step 0 (take (Z.to_nat c) (chars row)).
Proof.
  intros Hc. unfold editorRowCxToRx, isize in *.
  rewrite editorRowCxToRx_loop_foldl by lia. by rewrite drop_0.
Qed.

(** The inner loop stops by its own test: the fuel is never what ends it. *)
Lemma pad_to_tab_stop_length fuel out :
  (Z.to_nat ((8 - Z.of_nat (length out) mod 8) mod 8) < fuel)%nat ->
  Z.of_nat (length (pad_to_tab_stop fuel out))
  = Z.of_nat (length out) + (8 - Z.of_nat (length out) mod 8) mod 8.
Proof.
  revert out. induction fuel as [|fuel IH]; intros out Hf; [lia|].
  simpl. unfold KILO_TAB_STOP.
  rewrite Z.rem_mod_nonneg by lia.
  destruct (Z.eqb_spec (Z.of_nat (length out) mod 8) 0) as [H0|H0].
  - rewrite H0. change ((8 - 0) mod 8) with 0. lia.
  - assert (Hlen : Z.of_nat (length (out ++ [SPACE])) = Z.of_nat (length out) + 1)
      by (rewrite length_app; simpl; lia).
    rewrite IH; rewrite Hlen.
    + clear IH Hf Hlen. generalize dependent (Z.of_nat (length out)). intros z Hz.
      Z.to_euclidean_division_equations. lia.
    + clear IH Hlen. generalize dependent (Z.of_nat (length out)). intros z Hf Hz.
      Z.to_euclidean_division_equations. lia.
Qed.

Lemma pad_to_tab_stop_tab out :
  Z.of_nat (length (pad_to_tab_stop (Z.to_nat KILO_TAB_STOP) (out ++ [SPACE])))
  = rx_step (Z.of_nat (length out)) TAB.
Proof.
  rewrite pad_to_tab_stop_length.
  - unfold rx_step, KILO_TAB_STOP. rewrite Ascii.eqb_refl.
    rewrite Z.rem_mod_nonneg by lia.
    rewrite length_app. simpl.
    generalize (length out). intros n.
    Z.to_euclidean_division_equations. lia.
  - unfold KILO_TAB_STOP.
    generalize (length (out ++ [SPACE])). intros n.
    Z.to_euclidean_division_equations. lia.
Qed.

Lemma render_loop_length s out :
  Z.of_nat (length (render_loop s out)) = foldl rx_step (Z.of_nat (length out)) s.
Proof.
  revert out. induction s as [|c s IH]; intros out; cbn [render_loop foldl];
    [reflexivity|].
  destruct (Ascii.eqb c TAB) eqn:Hc.
  - rewrite IH, pad_to_tab_stop_tab.
    apply Ascii.eqb_eq in Hc. by subst c.
  - rewrite IH. f_equal. unfold rx_step. rewrite Hc.
    rewrite length_app. simpl. lia.
Qed.

End RenderMapper.

(** C7: with tab stop 8 the row "a<TAB>b" renders to "a", seven spaces, "b"
    (nine bytes), raw column 1 maps to rendered column 1 and raw column 2 to
    rendered column 8; and for every row, the raw column [len(raw)] maps to
    the length of the rendered text. *)
Theorem tab_expansion_a_tab_b_and_end_column :
  (forall syn r0 h0,
      let row := editorUpdateRow syn (mkRow (lit "a" ++ [TAB] ++ lit "b") r0 h0) in
      render row = lit "a       b"
      /\ length (render row) = 9%nat
      /\ editorRowCxToRx row 1 = 1
      /\ editorRowCxToRx row 2 = 8)
  /\ (forall syn row0,
        let row := editorUpdateRow syn row0 in
        editorRowCxToRx row (isize (chars row)) = isize (render row)).
Proof.
  split.
  - intros syn r0 h0. cbn. repeat split; reflexivity.
  - intros syn row0. cbn.
    rewrite editorRowCxToRx_foldl by (unfold isize; simpl; lia).
    unfold isize, render_of. simpl chars.
    rewrite Nat2Z.id, firstn_all. by rewrite render_loop_length.
Qed.

(** C9: on the raw columns [0 <= raw_col <= len(raw)] of any row,
    [editorRowCxToRx] is monotonically non-decreasing, and it maps raw
    column 0 to rendered column 0. *)
Theorem editorRowCxToRx_monotone_from_zero (row : ERow) :
  (forall a b : Z,
      0 <= a -> a <= b -> b <= isize (chars row) ->
      editorRowCxToRx row a <= editorRowCxToRx row b)
  /\ editorRowCxToRx row 0 = 0.
Proof.
  split; [|reflexivity].
  intros a b Ha Hab Hb.
  rewrite !editorRowCxToRx_foldl by lia.
  assert (Hsplit : take (Z.to_nat b) (chars row)
                   = take (Z.to_nat a) (chars row)
                     ++ drop (Z.to_nat a) (take (Z.to_nat b) (chars row))).
  { rewrite <- (take_drop (Z.to_nat a) (take (Z.to_nat b) (chars row))) at 1.
    rewrite take_take. do 2 f_equal. lia. }
  rewrite Hsplit, foldl_app. apply foldl_rx_step_le.
Qed.

Lemma editorRowCxToRx_monotone_witness :
  editorRowCxToRx (mkRow (lit "a" ++ [TAB] ++ lit "b") [] []) 1
  <= editorRowCxToRx (mkRow (lit "a" ++ [TAB] ++ lit "b") [] []) 3.
Proof.
  apply (proj1 (editorRowCxToRx_monotone_from_zero
                  (mkRow (lit "a" ++ [TAB] ++ lit "b") [] [])) 1 3);
    vm_compute; congruence.
Defined.

(** ** Highlight classifier *)

Section Classifier.

Variable syn : option EditorSyntax.
Variable r : list ascii.

Lemma fill_length {A : Type} lo hi (x : A) v : length (fill lo hi x v) = length v.
Proof. unfold fill. apply length_imap. Qed.

Lemma keyword_loop_inv kws h i h' i' :
  keyword_loop kws r h i = Some (h', i') ->
  length h' = length h /\ (i <= i')%nat /\ (i' <= length r)%nat.
Proof.
  induction kws as [|kw kws IH]; simpl; [discriminate|].
  destruct (keyword_key kw) as [key kw_color].
  destruct (_ && _) eqn:Hguard; [|exact IH].
  intros [= <- <-]. rewrite fill_length.
  apply andb_prop in Hguard as [Hguard _].
  apply andb_prop in Hguard as [Hle _].
  apply Nat.leb_le in Hle. lia.
Qed.

Lemma editorUpdateSyntax_step_inl st h :
  length (s_hl st) = length r ->
  editorUpdateSyntax_step syn r st = inl h ->
  length h = length r.
Proof.
  intros Hlen. unfold editorUpdateSyntax_step.
  repeat (case_match; try discriminate);
    intros [= <-]; rewrite ?fill_length; assumption.
Qed.

Lemma editorUpdateSyntax_step_inr st st' :
  length (s_hl st) = length r ->
  (s_i st <= length r)%nat ->
  editorUpdateSyntax_step syn r st = inr st' ->
  length (s_hl st') = length r
  /\ (s_i st' <= length r)%nat
  /\ (syntax_measure r st' < syntax_measure r st)%nat.
Proof.
  intros Hlen Hi. unfold editorUpdateSyntax_step, syntax_measure.
  destruct (negb (s_i st <? length r)%nat) eqn:Hlt; [discriminate|].
  apply negb_false_iff, Nat.ltb_lt in Hlt.
  repeat (case_match; try discriminate);
    intros [= <-]; simpl; rewrite ?length_insert;
    try (split; [assumption|]);
    try match goal with
      | H : keyword_loop _ _ _ _ = Some _ |- _ =>
          apply keyword_loop_inv in H as (? & ? & ?)
      end;
    try (split; [congruence|]);
    repeat case_match; try discriminate; lia.
Qed.

(** The fuel of [classify] is enough: the loop ends by its own test or by
    the [break] of the comment rule. *)
Lemma editorUpdateSyntax_loop_fuel fuel st :
  length (s_hl st) = length r ->
  (s_i st <= length r)%nat ->
  (syntax_measure r st < fuel)%nat ->
  exists h, editorUpdateSyntax_loop fuel syn r st = Some h /\ length h = length r.
Proof.
  revert st. induction fuel as [|fuel IH]; intros st Hlen Hi Hm; [lia|].
  simpl. destruct (editorUpdateSyntax_step syn r st) as [h|st'] eqn:Hstep.
  - exists h. split; [reflexivity|]. by eapply editorUpdateSyntax_step_inl.
  - destruct (editorUpdateSyntax_step_inr _ _ Hlen Hi Hstep) as (? & ? & ?).
    apply IH; [assumption..|lia].
Qed.

Lemma classify_terminates :
  exists h,
    editorUpdateSyntax_loop (syntax_fuel r) syn r (syntax_init r) = Some h
    /\ classify syn r = h /\ length h = length r.
Proof.
  destruct (editorUpdateSyntax_loop_fuel (syntax_fuel r) (syntax_init r))
    as (h & Hh & Hlen).
  - simpl. apply length_replicate.
  - simpl. lia.
  - unfold syntax_measure, syntax_fuel. simpl. lia.
  - exists h. unfold classify. rewrite Hh. auto.
Qed.

Lemma classify_length : length (classify syn r) = length r.
Proof. destruct classify_terminates as (h & _ & -> & Hlen). exact Hlen. Qed.

End Classifier.

(** C1: with no grammar selected ([E.syntax] null) the classifier still runs
    its number and string rules, which test neither [E.syntax] nor the flags
    [HL_HIGHLIGHT_NUMBERS] and [HL_HIGHLIGHT_STRINGS]: the row "x = 1" gets
    [HL_NUMBER] at its digit and the row "'a'" is all [HL_STRING], so not
    every position is [HL_NORMAL]. *)
Theorem no_grammar_numbers_and_strings_highlighted :
  hl (editorUpdateRow None (mkRow (lit "x = 1") [] []))
  = [HL_NORMAL; HL_NORMAL; HL_NORMAL; HL_NORMAL; HL_NUMBER]
  /\ hl (editorUpdateRow None (mkRow (lit "'a'") [] []))
     = [HL_STRING; HL_STRING; HL_STRING]
  /\ ~ (forall rendered : list ascii,
          Forall (fun h => h = HL_NORMAL) (classify None rendered)).
Proof.
  split; [reflexivity|]. split; [reflexivity|].
  intros Hall. specialize (Hall (lit "1")).
  apply Forall_inv in Hall. discriminate Hall.
Qed.

Section KeywordBoundary.

Variable ft : list ascii.
Variable exts : list (list ascii).
Variable fl : Z.

(** C8: with the keyword "int" flagged primary (no ['|'] suffix), the row
    "integer" gets no [HL_KEYWORD1] at positions 0-2 (it is all
    [HL_NORMAL]), and the row "int x" gets [HL_KEYWORD1] at positions 0, 1
    and 2. *)
Theorem keyword_needs_trailing_separator :
  classify (Some (grammar_int ft exts fl)) (lit "integer") = replicate 7 HL_NORMAL
  /\ classify (Some (grammar_int ft exts fl)) (lit "integer") !! 0%nat <> Some HL_KEYWORD1
  /\ classify (Some (grammar_int ft exts fl)) (lit "integer") !! 1%nat <> Some HL_KEYWORD1
  /\ classify (Some (grammar_int ft exts fl)) (lit "integer") !! 2%nat <> Some HL_KEYWORD1
  /\ classify (Some (grammar_int ft exts fl)) (lit "int x")
     = [HL_KEYWORD1; HL_KEYWORD1; HL_KEYWORD1; HL_NORMAL; HL_NORMAL].
Proof.
  assert (H1 : classify (Some (grammar_int ft exts fl)) (lit "integer") = replicate 7 HL_NORMAL)
    by (vm_compute; reflexivity).
  rewrite !H1. repeat split; try discriminate.
Qed.

End KeywordBoundary.

(** ** Edit operations *)

Section EditOperations.

Lemma editorUpdateRow_ok syn row : row_ok (editorUpdateRow syn row).
Proof. unfold row_ok. simpl. by rewrite classify_length. Qed.

Lemma insert_at_Forall {A : Type} (P : A -> Prop) k x (v : list A) :
  P x -> Forall P v -> Forall P (insert_at k x v).
Proof.
  intros Hx Hv. unfold insert_at. apply Forall_app. split.
  - by apply Forall_take.
  - constructor; [assumption|]. by apply Forall_drop.
Qed.

Lemma editorInsertRow_ok at_ s E : rows_ok E -> rows_ok (editorInsertRow at_ s E).
Proof.
  intros HE. unfold editorInsertRow. case_match; [assumption|].
  unfold rows_ok. simpl. apply insert_at_Forall; [apply editorUpdateRow_ok|assumption].
Qed.

Lemma editorDelRow_ok at_ E : rows_ok E -> rows_ok (editorDelRow at_ E).
Proof.
  intros HE. unfold editorDelRow. case_match; [assumption|].
  unfold rows_ok. simpl. by apply Forall_delete.
Qed.

Lemma set_row_ok idx row E :
  rows_ok E -> row_ok row -> rows_ok (set_dirty true (set_rows (<[idx := row]> (rows E)) E)).
Proof. intros HE Hrow. unfold rows_ok. simpl. by apply Forall_insert. Qed.

Lemma editorRowInsertChar_ok idx at_ c E E' :
  rows_ok E -> editorRowInsertChar idx at_ c E = Some E' -> rows_ok E'.
Proof.
  intros HE. unfold editorRowInsertChar.
  destruct (rows E !! idx) as [row|]; simpl; [|discriminate].
  intros [= <-]. apply set_row_ok; [assumption|apply editorUpdateRow_ok].
Qed.

Lemma editorRowAppendString_ok idx s E E' :
  rows_ok E -> editorRowAppendString idx s E = Some E' -> rows_ok E'.
Proof.
  intros HE. unfold editorRowAppendString.
  destruct (rows E !! idx) as [row|]; simpl; [|discriminate].
  intros [= <-]. apply set_row_ok; [assumption|apply editorUpdateRow_ok].
Qed.

Lemma editorRowDelChar_ok idx at_ E E' :
  rows_ok E -> editorRowDelChar idx at_ E = Some E' -> rows_ok E'.
Proof.
  intros HE. unfold editorRowDelChar.
  destruct (rows E !! idx) as [row|]; simpl; [|discriminate].
  case_match; intros [= <-]; [assumption|].
  apply set_row_ok; [assumption|apply editorUpdateRow_ok].
Qed.

Lemma set_cursor_ok x y E : rows_ok E -> rows_ok (set_cursor x y E).
Proof. trivial. Qed.

Lemma editorInsertChar_ok c E E' :
  rows_ok E -> editorInsertChar c E = Some E' -> rows_ok E'.
Proof.
  intros HE. unfold editorInsertChar.
  set (E1 := if cy E =? isize (rows E) then _ else _).
  assert (HE1 : rows_ok E1).
  { subst E1. case_match; [by apply editorInsertRow_ok|assumption]. }
  destruct (row_index E1 (cy E1)) as [idx|]; simpl; [|discriminate].
  destruct (editorRowInsertChar idx (cx E1) c E1) as [E2|] eqn:H2; simpl;
    [|discriminate].
  intros [= <-]. apply set_cursor_ok. by eapply editorRowInsertChar_ok.
Qed.

Lemma editorInsertNewline_ok E E' :
  rows_ok E -> editorInsertNewline E = Some E' -> rows_ok E'.
Proof.
  intros HE. unfold editorInsertNewline.
  destruct (cx E =? 0).
  - simpl. intros [= <-]. apply set_cursor_ok. by apply editorInsertRow_ok.
  - destruct (row_index E (cy E)) as [idx|]; simpl; [|discriminate].
    destruct (rows E !! idx) as [row|]; simpl; [|discriminate].
    case_match; simpl; [|discriminate].
    intros [= <-]. apply set_cursor_ok, editorInsertRow_ok.
    unfold rows_ok. simpl. apply Forall_insert; [assumption|apply editorUpdateRow_ok].
Qed.

Lemma editorDelChar_ok E E' :
  rows_ok E -> editorDelChar E = Some E' -> rows_ok E'.
Proof.
  intros HE. unfold editorDelChar.
  case_match; [by intros [= <-]|].
  case_match; [by intros [= <-]|].
  destruct (row_index E (cy E)) as [idx|]; simpl; [|discriminate].
  destruct (rows E !! idx) as [row|]; simpl; [|discriminate].
  case_match.
  - destruct (editorRowDelChar idx (cx E - 1) E) as [E1|] eqn:Hdel; simpl;
      [|discriminate].
    intros [= <-]. apply set_cursor_ok. by eapply editorRowDelChar_ok.
  - destruct (row_index E (cy E - 1)) as [pidx|]; simpl; [|discriminate].
    destruct (rows E !! pidx) as [prev|]; simpl; [|discriminate].
    destruct (editorRowAppendString pidx (chars row) _) as [E2|] eqn:Happ; simpl;
      [|discriminate].
    intros [= <-]. apply set_cursor_ok, editorDelRow_ok.
    eapply editorRowAppendString_ok; [|exact Happ]. by apply set_cursor_ok.
Qed.

(** C5: every edit operation (insert-character, insert-newline,
    delete-before-cursor, insert-row, delete-row, append-string-to-row)
    keeps the row invariant: if [len(rendered) = len(highlight)] holds for
    every row before the operation, it holds for every row after it. *)
Theorem edit_operation_keeps_row_invariant (op : EditOp) (E E' : editorConfig) :
  rows_ok E -> run_op op E = Some E' -> rows_ok E'.
Proof.
  intros HE. destruct op as [c| | |at_ s|at_|idx s]; simpl.
  - by apply editorInsertChar_ok.
  - by apply editorInsertNewline_ok.
  - by apply editorDelChar_ok.
  - intros [= <-]. by apply editorInsertRow_ok.
  - intros [= <-]. by apply editorDelRow_ok.
  - by apply editorRowAppendString_ok.
Qed.

Lemma edit_operation_keeps_row_invariant_witness :
  rows_ok (set_dirty true
             (set_cursor 2 1
                (set_rows
                   [editorUpdateRow None (mkRow (lit "ab") [] []);
                    editorUpdateRow None (mkRow (lit "c" ++ [TAB] ++ lit "d") [] [])]
                   (initEditor 24 80)))).
Proof.
  apply (edit_operation_keeps_row_invariant (InsertChar TAB)
           (set_cursor 1 1
              (set_rows
                 [editorUpdateRow None (mkRow (lit "ab") [] []);
                  editorUpdateRow None (mkRow (lit "cd") [] [])]
                 (initEditor 24 80)))).
  - repeat constructor.
  - vm_compute. reflexivity.
Defined.

(** The invariant holds when the editor starts and after a file is loaded. *)
Lemma initEditor_ok r c : rows_ok (initEditor r c).
Proof. constructor. Qed.

Lemma load_loop_ok (f : list ascii -> list ascii) lines E :
  rows_ok E ->
  rows_ok (foldl (fun E2 line => editorInsertRow (isize (rows E2)) (f line) E2) E lines).
Proof.
  revert E. induction lines as [|l lines IH]; intros E HE; simpl; [assumption|].
  apply IH. by apply editorInsertRow_ok.
Qed.

Lemma editorOpen_ok name file_lines r c :
  rows_ok (editorOpen name file_lines (initEditor r c)).
Proof.
  unfold editorOpen. apply (load_loop_ok strip_cr).
  unfold editorSelectSyntaxHighlight. repeat case_match; constructor.
Qed.

(** The operations are defined on the states the key handlers produce: the
    invariant above is not kept by failing. *)
Lemma row_index_Some E k :
  0 <= k < isize (rows E) ->
  row_index E k = Some (Z.to_nat k) /\ is_Some (rows E !! Z.to_nat k).
Proof.
  intros Hk. unfold row_index, isize in *. split.
  - destruct (Z.leb_spec 0 k), (Z.ltb_spec k (Z.of_nat (length (rows E))));
      simpl; try lia; reflexivity.
  - apply lookup_lt_is_Some_2. lia.
Qed.

Lemma insert_at_length {A : Type} k (x : A) v :
  length (insert_at k x v) = S (length v).
Proof.
  unfold insert_at. rewrite length_app. simpl. rewrite length_take, length_drop. lia.
Qed.

Lemma editorInsertChar_defined c E : cursor_ok E -> is_Some (editorInsertChar c E).
Proof.
  intros (Hcy & _ & _). unfold editorInsertChar.
  set (E1 := if cy E =? isize (rows E) then _ else _).
  assert (H1 : cy E1 = cy E /\ 0 <= cy E < isize (rows E1)).
  { subst E1. destruct (Z.eqb_spec (cy E) (isize (rows E))) as [Heq|Hne].
    - unfold editorInsertRow.
      destruct (Z.ltb_spec (isize (rows E)) 0), (Z.gtb_spec (isize (rows E)) (isize (rows E)));
        simpl; unfold isize in *; try lia.
      rewrite insert_at_length. lia.
    - lia. }
  destruct H1 as [Hcy1 Hin]. rewrite <- Hcy1 in Hin.
  destruct (row_index_Some E1 (cy E1) Hin) as [-> [row Hrow]]. simpl.
  unfold editorRowInsertChar. rewrite Hrow. simpl. eauto.
Qed.

Lemma editorInsertNewline_defined E : cursor_ok E -> is_Some (editorInsertNewline E).
Proof.
  intros (Hcy & Hcx & Hrow). unfold editorInsertNewline.
  destruct (Z.eqb_spec (cx E) 0) as [H0|H0]; simpl; [eauto|].
  destruct (Hrow H0) as (row & Hlk & Hle).
  assert (Hin : 0 <= cy E < isize (rows E)).
  { apply lookup_lt_Some in Hlk. unfold isize. lia. }
  destruct (row_index_Some E (cy E) Hin) as [-> _]. simpl.
  rewrite Hlk. simpl.
  destruct (Z.leb_spec 0 (cx E)), (Z.leb_spec (cx E) (isize (chars row)));
    simpl; try lia; eauto.
Qed.

Lemma editorDelChar_defined E : cursor_ok E -> is_Some (editorDelChar E).
Proof.
  intros (Hcy & Hcx & _). unfold editorDelChar.
  destruct (Z.eqb_spec (cy E) (isize (rows E))) as [Hend|Hend]; [eauto|].
  destruct (cx E =? 0) eqn:Hx0, (Z.eqb_spec (cy E) 0) as [Hy0|Hy0]; simpl; eauto.
  all: assert (Hin : 0 <= cy E < isize (rows E)) by lia.
  all: destruct (row_index_Some E (cy E) Hin) as [-> [row Hrow]]; simpl.
  all: rewrite Hrow; simpl.
  all: destruct (Z.gtb_spec (cx E) 0) as [Hpos|Hpos].
  all: try (apply Z.eqb_eq in Hx0; lia).
  all: try (apply Z.eqb_neq in Hx0; lia).
  - assert (Hpin : 0 <= cy E - 1 < isize (rows E)) by lia.
    destruct (row_index_Some E (cy E - 1) Hpin) as [-> [prev Hprev]]. simpl.
    rewrite Hprev. simpl. unfold editorRowAppendString. simpl.
    rewrite Hprev. simpl. eauto.
  - unfold editorRowDelChar. rewrite Hrow. simpl. case_match; simpl; eauto.
  - unfold editorRowDelChar. rewrite Hrow. simpl. case_match; simpl; eauto.
Qed.

(** C10: insert-row with an index outside [0, len(rows)] and delete-row
    with an index outside [0, len(rows)) return with the whole editor state
    (rows, dirty flag and everything else) unchanged; neither reports an
    error. *)
Theorem row_index_out_of_range_is_noop (E : editorConfig) (at_ : Z) (s : list ascii) :
  (at_ < 0 \/ at_ > isize (rows E) -> editorInsertRow at_ s E = E)
  /\ (at_ < 0 \/ at_ >= isize (rows E) -> editorDelRow at_ E = E).
Proof.
  split; intros Hout.
  - unfold editorInsertRow.
    destruct (Z.ltb_spec at_ 0), (Z.gtb_spec at_ (isize (rows E))); simpl;
      try reflexivity; lia.
  - unfold editorDelRow.
    destruct (Z.ltb_spec at_ 0), (Z.geb_spec at_ (isize (rows E))); simpl;
      try reflexivity; lia.
Qed.

Lemma row_index_out_of_range_is_noop_witness :
  editorInsertRow 3 (lit "x") (load_from_lines [lit "ab"; lit "cd"] (initEditor 24 80))
  = load_from_lines [lit "ab"; lit "cd"] (initEditor 24 80)
  /\ editorDelRow 2 (load_from_lines [lit "ab"; lit "cd"] (initEditor 24 80))
     = load_from_lines [lit "ab"; lit "cd"] (initEditor 24 80).
Proof.
  split.
  - apply (proj1 (row_index_out_of_range_is_noop
                    (load_from_lines [lit "ab"; lit "cd"] (initEditor 24 80)) 3 (lit "x"))).
    right. vm_compute. reflexivity.
  - apply (proj2 (row_index_out_of_range_is_noop
                    (load_from_lines [lit "ab"; lit "cd"] (initEditor 24 80)) 2 [])).
    right. vm_compute. discriminate.
Defined.

End EditOperations.

(** ** Load and serialize *)

Section RoundTrip.

Lemma each_line_terminated_cons l ls :
  each_line_terminated (l :: ls) = joined_with_trailing_newline (l :: ls).
Proof.
  unfold each_line_terminated, joined_with_trailing_newline.
  revert l. induction ls as [|l' ls IH]; intros l.
  - simpl. by rewrite app_nil_r.
  - change (join_lines (l :: l' :: ls)) with (l ++ LF :: join_lines (l' :: ls)).
    rewrite <- app_assoc, <- app_comm_cons, <- (IH l').
    cbn [map concat]. by rewrite <- app_assoc.
Qed.

Lemma insert_at_end {A : Type} (x : A) v : insert_at (length v) x v = v ++ [x].
Proof. unfold insert_at. by rewrite take_ge, drop_ge by lia. Qed.

Lemma editorInsertRow_append s E :
  rows (editorInsertRow (isize (rows E)) s E)
  = rows E ++ [editorUpdateRow (syntax E) (mkRow s [] [])]
  /\ syntax (editorInsertRow (isize (rows E)) s E) = syntax E.
Proof.
  unfold editorInsertRow, isize.
  destruct (Z.ltb_spec (Z.of_nat (length (rows E))) 0); [lia|].
  destruct (Z.gtb_spec (Z.of_nat (length (rows E))) (Z.of_nat (length (rows E)))); [lia|].
  simpl. rewrite Nat2Z.id, insert_at_end. auto.
Qed.

Lemma load_loop_rows (f : list ascii -> list ascii) lines E :
  map chars
    (rows (foldl (fun E2 line => editorInsertRow (isize (rows E2)) (f line) E2) E lines))
  = map chars (rows E) ++ map f lines.
Proof.
  revert E. induction lines as [|l lines IH]; intros E; simpl.
  - by rewrite app_nil_r.
  - rewrite IH. destruct (editorInsertRow_append (f l) E) as [-> _].
    rewrite map_app. simpl. by rewrite <- app_assoc.
Qed.

Lemma rows_to_string_foldl (rs : list ERow) out :
  foldl (fun out row => out ++ chars row ++ [LF]) out rs
  = out ++ each_line_terminated (map chars rs).
Proof.
  revert out. induction rs as [|row rs IH]; intros out; simpl.
  - by rewrite app_nil_r.
  - rewrite IH. unfold each_line_terminated. simpl. by rewrite <- !app_assoc.
Qed.

Lemma editorRowsToString_lines E :
  editorRowsToString E = each_line_terminated (map chars (rows E)).
Proof. unfold editorRowsToString. by rewrite rows_to_string_foldl. Qed.

Lemma load_then_serialize lines g r c :
  editorRowsToString (load_from_lines lines (set_syntax g (initEditor r c)))
  = each_line_terminated lines.
Proof.
  rewrite editorRowsToString_lines. unfold load_from_lines. simpl rows.
  rewrite (load_loop_rows id). simpl. by rewrite map_id.
Qed.

(** The same through [editorOpen], which strips one trailing carriage
    return from each line it reads. *)
Lemma editorOpen_then_serialize name file_lines r c :
  editorRowsToString (editorOpen name file_lines (initEditor r c))
  = each_line_terminated (map strip_cr file_lines).
Proof.
  rewrite editorRowsToString_lines. unfold editorOpen. simpl rows.
  rewrite (load_loop_rows strip_cr).
  unfold editorSelectSyntaxHighlight. by repeat case_match.
Qed.

(** C6, as the code has it: loading a sequence of lines into the empty
    document and serializing it gives every line followed by a newline,
    whatever bytes (tabs included) the lines hold. For a non-empty sequence
    that is the lines joined by newlines with one trailing newline; for the
    empty sequence it is the empty text. *)
Theorem load_then_serialize_terminates_each_line (g : option EditorSyntax) (r c : Z) :
  (forall l ls,
      editorRowsToString (load_from_lines (l :: ls) (set_syntax g (initEditor r c)))
      = joined_with_trailing_newline (l :: ls))
  /\ editorRowsToString (load_from_lines [] (set_syntax g (initEditor r c))) = [].
Proof.
  split.
  - intros l ls. by rewrite load_then_serialize, each_line_terminated_cons.
  - reflexivity.
Qed.

(** C6 as stated fails on the empty sequence of lines: the serialized text
    is empty, not the single newline that joining no lines and adding a
    trailing newline gives. *)
Lemma load_then_serialize_empty_counterexample :
  editorRowsToString (load_from_lines [] (initEditor 24 80)) = []
  /\ joined_with_trailing_newline [] = [LF]
  /\ editorRowsToString (load_from_lines [] (initEditor 24 80))
     <> joined_with_trailing_newline [].
Proof. repeat split. discriminate. Qed.

End RoundTrip.

(** ** Search *)

Section Search.

Lemma fill_lookup {A : Type} lo hi (x : A) v k :
  fill lo hi x v !! k
  = (fun y => if ((lo <=? k) && (k <? hi))%nat then x else y) <$> v !! k.
Proof. unfold fill. apply list_lookup_imap. Qed.

(** [string_find] returns a position where the query occurs, inside the
    text. *)
Lemma string_find_from_Some s q p0 pos :
  string_find_from s q p0 = Some pos ->
  (p0 <= pos)%nat
  /\ substr s (pos - p0) (length q) = q
  /\ (pos - p0 + length q <= length s)%nat.
Proof.
  revert p0. induction s as [|c s IH]; intros p0; simpl.
  - case_bool_decide as Hq; [|discriminate]. intros [= <-].
    rewrite Nat.sub_diag. unfold substr. simpl.
    rewrite take_nil in Hq. subst q. simpl. auto.
  - case_bool_decide as Hq.
    + intros [= <-]. rewrite Nat.sub_diag. unfold substr. rewrite drop_0.
      split; [lia|]. split; [assumption|].
      rewrite <- Hq at 1. rewrite length_take. simpl. lia.
    + intros Hrec. apply IH in Hrec as (Hle & Hsub & Hlen).
      replace (pos - p0)%nat with (S (pos - S p0)) by lia.
      unfold substr in *. simpl. split; [lia|]. split; [assumption|lia].
Qed.

Lemma string_find_Some s q pos :
  string_find s q = Some pos ->
  substr s pos (length q) = q /\ (pos + length q <= length s)%nat.
Proof.
  intros H. apply string_find_from_Some in H as (_ & Hsub & Hlen).
  rewrite Nat.sub_0_r in *. auto.
Qed.

Lemma scan_next_in_range rs dir current :
  scan_start_ok rs dir current ->
  0 <= scan_next rs dir current < isize rs.
Proof.
  unfold scan_start_ok, scan_next. cbv zeta.
  intros [Hpos [[-> H]|[-> H]]];
    repeat match goal with
      | |- context [?a =? ?b] => destruct (Z.eqb_spec a b)
      end; lia.
Qed.

Lemma scan_next_ok rs dir current :
  scan_start_ok rs dir current ->
  scan_start_ok rs dir (scan_next rs dir current).
Proof.
  intros H. pose proof (scan_next_in_range _ _ _ H).
  unfold scan_start_ok in *. destruct H as [Hpos [[-> _]|[-> _]]];
    (split; [assumption|]); [left|right]; lia.
Qed.

Lemma find_scan_defined n rs query dir current :
  scan_start_ok rs dir current ->
  exists sc,
    find_scan n rs query dir current = Some sc
    /\ (n <> O -> head (examined sc) = Some (scan_next rs dir current))
    /\ (forall c pos, hit sc = Some (c, pos) ->
          exists row, rs !! Z.to_nat c = Some row
                      /\ 0 <= c < isize rs
                      /\ string_find (chars row) query = Some pos).
Proof.
  revert current. induction n as [|n IH]; intros current Hok; simpl.
  - eexists. split; [reflexivity|]. split; [congruence|]. simpl. discriminate.
  - pose proof (scan_next_in_range _ _ _ Hok) as Hr.
    destruct (Z.leb_spec 0 (scan_next rs dir current)); [|lia].
    destruct (Z.ltb_spec (scan_next rs dir current) (isize rs)); [|lia].
    simpl.
    destruct (lookup_lt_is_Some_2 rs (Z.to_nat (scan_next rs dir current)))
      as [row Hrow]; [unfold isize in *; lia|].
    rewrite Hrow. simpl.
    destruct (string_find (chars row) query) as [pos|] eqn:Hfind.
    + eexists. split; [reflexivity|]. split; [reflexivity|].
      simpl. intros c pos' [= <- <-]. eauto.
    + destruct (IH _ (scan_next_ok _ _ _ Hok)) as (sc & -> & _ & Hhit).
      simpl. eexists. split; [reflexivity|]. split; [reflexivity|]. exact Hhit.
Qed.

(** A forward scan from [-1] examines rows 0, 1, 2, ... in that order. *)
Lemma find_scan_forward_order n rs query current sc :
  -1 <= current ->
  (Z.to_nat (current + 1) + n <= length rs)%nat ->
  find_scan n rs query 1 current = Some sc ->
  forall k c, examined sc !! k = Some c -> c = current + 1 + Z.of_nat k.
Proof.
  revert current sc. induction n as [|n IH]; intros current sc Hc Hn; simpl.
  - intros [= <-] k c. simpl. by destruct k.
  - assert (Hnext : scan_next rs 1 current = current + 1).
    { unfold scan_next, isize.
      destruct (Z.eqb_spec (current + 1) (-1)); [lia|].
      destruct (Z.eqb_spec (current + 1) (Z.of_nat (length rs))); lia. }
    rewrite Hnext. case_match; [|discriminate].
    destruct (rs !! Z.to_nat (current + 1)) as [row|]; simpl; [|discriminate].
    destruct (string_find (chars row) query).
    + intros [= <-] [|k] c; simpl; [intros [= <-]; lia|by destruct k].
    + destruct (find_scan n rs query 1 (current + 1)) as [sc'|] eqn:Hsc; simpl;
        [|discriminate].
      intros [= <-] [|k] c; simpl; [intros [= <-]; lia|].
      intros Hk. eapply IH in Hk; [|..|exact Hsc]; lia.
Qed.

Lemma find_key_saved key fs :
  saved_hl (fst (find_key key fs)) = saved_hl fs.
Proof. unfold find_key. by repeat case_match. Qed.

(** A hit of the scan is a row of the vector whose raw text holds the query
    at the column reported. *)
Lemma find_scan_hit n rs query dir current sc c pos :
  find_scan n rs query dir current = Some sc ->
  hit sc = Some (c, pos) ->
  0 <= c < isize rs
  /\ exists row, rs !! Z.to_nat c = Some row
                 /\ string_find (chars row) query = Some pos.
Proof.
  revert current sc. induction n as [|n IH]; intros current sc; simpl.
  - intros [= <-]. discriminate.
  - destruct (Z.leb_spec 0 (scan_next rs dir current)); [|discriminate].
    destruct (Z.ltb_spec (scan_next rs dir current) (isize rs)); [|discriminate].
    simpl.
    destruct (rs !! Z.to_nat (scan_next rs dir current)) as [row|] eqn:Hrow;
      simpl; [|discriminate].
    destruct (string_find (chars row) query) eqn:Hfind.
    + intros [= <-] [= <- <-]. split; [lia|]. eauto.
    + destruct (find_scan n rs query dir _) as [sc'|] eqn:Hsc; simpl; [|discriminate].
      intros [= <-]. simpl. intros Hh. eapply IH; [exact Hsc|exact Hh].
Qed.

(** The rendered text is at least as long as the raw text, so the span of a
    match, which is measured in raw columns, lies inside the highlight
    sequence of a row whose rendered text is up to date. *)
Lemma render_of_length_ge s : (length s <= length (render_of s))%nat.
Proof.
  unfold render_of.
  assert (H : forall r, r + Z.of_nat (length s) <= foldl rx_step r s).
  { induction s as [|c s IH]; intros r; [simpl; lia|].
    cbn [foldl length]. rewrite Nat2Z.inj_succ.
    pose proof (rx_step_lt r c). specialize (IH (rx_step r c)). lia. }
  pose proof (render_loop_length s []) as Hlen. specialize (H 0).
  change (Z.of_nat (length (@nil ascii))) with 0 in Hlen. lia.
Qed.

Lemma match_span_inside_row syn row0 query pos :
  string_find (chars (editorUpdateRow syn row0)) query = Some pos ->
  (pos + length query <= length (hl (editorUpdateRow syn row0)))%nat.
Proof.
  intros Hfind. apply string_find_Some in Hfind as [_ Hle].
  simpl in *. rewrite classify_length.
  pose proof (render_of_length_ge (chars row0)). lia.
Qed.

Lemma find_restore_spec fs E :
  slot_ok fs E ->
  exists fs1 E1,
    find_restore fs E = Some (fs1, E1)
    /\ fs1 = mkStatics (last_match fs) (direction fs) (saved_hl_line fs) None
    /\ length (rows E1) = length (rows E)
    /\ (forall h, saved_hl fs = Some h ->
          exists row,
            rows E !! Z.to_nat (saved_hl_line fs) = Some row
            /\ rows E1 = <[Z.to_nat (saved_hl_line fs) :=
                             mkRow (chars row) (render row) h]> (rows E))
    /\ (saved_hl fs = None -> E1 = E).
Proof.
  intros Hslot. unfold find_restore, slot_ok in *.
  destruct (saved_hl fs) as [h|] eqn:Hsaved.
  - destruct (row_index_Some E (saved_hl_line fs)) as [-> [row Hrow]];
      [by apply Hslot|].
    simpl. rewrite Hrow. simpl. eexists _, _. split; [reflexivity|].
    split; [reflexivity|]. simpl. rewrite length_insert. split; [reflexivity|].
    split; [|discriminate]. intros h' [= <-]. eauto.
  - destruct fs; simpl in *; subst. eexists _, _. split; [reflexivity|].
    repeat split; auto; discriminate.
Qed.

Lemma find_key_spec key fs :
  key <> 13 -> key <> 27 ->
  exists fs2,
    find_key key fs = (fs2, false)
    /\ saved_hl fs2 = saved_hl fs
    /\ saved_hl_line fs2 = saved_hl_line fs
    /\ ((direction fs2 = 1 /\ (last_match fs2 = last_match fs \/ last_match fs2 = -1))
        \/ ((key = ARROW_LEFT \/ key = ARROW_UP)
            /\ direction fs2 = -1 /\ last_match fs2 = last_match fs))
    /\ (key = ARROW_LEFT \/ key = ARROW_UP ->
        direction fs2 = -1 /\ last_match fs2 = last_match fs).
Proof.
  intros H13 H27. unfold find_key, ARROW_LEFT, ARROW_UP, ARROW_RIGHT, ARROW_DOWN.
  destruct (Z.eqb_spec key 13); [lia|]. destruct (Z.eqb_spec key 27); [lia|].
  simpl.
  destruct (Z.eqb_spec key 1001), (Z.eqb_spec key 1003),
    (Z.eqb_spec key 1000), (Z.eqb_spec key 1002); simpl;
    eexists; (split; [reflexivity|]); simpl; repeat split; auto; try lia;
    intros [?|?]; lia.
Qed.

Lemma find_mark_spec query current pos fs E row :
  rows E !! Z.to_nat current = Some row ->
  find_mark query current pos fs E
  = Some (mkStatics current (direction fs) current (Some (hl row)),
          set_rows
            (<[Z.to_nat current :=
                 mkRow (chars row) (render row) (overlay_hl query pos row)]> (rows E))
            (set_rowoff (isize (rows E)) (set_cursor (Z.of_nat pos) current E))).
Proof. intros Hrow. unfold find_mark. rewrite Hrow. reflexivity. Qed.

Lemma find_search_spec query fs E :
  rows E <> [] ->
  direction fs = 1 \/ direction fs = -1 ->
  -1 <= last_match fs < isize (rows E) ->
  exists sc fs' E',
    find_search query fs E = Some (sc, (fs', E'))
    /\ head (examined sc) = Some (scan_next (rows E) (scan_direction fs) (last_match fs))
    /\ find_scan (length (rows E)) (rows E) query (scan_direction fs) (last_match fs)
       = Some sc
    /\ direction fs' = scan_direction fs
    /\ match hit sc with
       | Some (current, pos) =>
           exists row,
             rows E !! Z.to_nat current = Some row
             /\ string_find (chars row) query = Some pos
             /\ last_match fs' = current
             /\ saved_hl_line fs' = current
             /\ saved_hl fs' = Some (hl row)
             /\ cy E' = current /\ cx E' = Z.of_nat pos
             /\ rows E'
                = <[Z.to_nat current :=
                      mkRow (chars row) (render row) (overlay_hl query pos row)]> (rows E)
       | None =>
           E' = E /\ last_match fs' = last_match fs
           /\ saved_hl fs' = saved_hl fs /\ saved_hl_line fs' = saved_hl_line fs
       end.
Proof.
  intros Hne Hdir Hlast. unfold find_search.
  set (fs1 := if last_match fs =? -1 then _ else fs).
  assert (Hfs1 : last_match fs1 = last_match fs
                 /\ direction fs1 = scan_direction fs
                 /\ saved_hl fs1 = saved_hl fs
                 /\ saved_hl_line fs1 = saved_hl_line fs).
  { subst fs1. unfold scan_direction. by destruct (last_match fs =? -1). }
  destruct Hfs1 as (Hl1 & Hd1 & Hs1 & Hsl1). rewrite Hl1, Hd1.
  assert (Hstart : scan_start_ok (rows E) (scan_direction fs) (last_match fs)).
  { unfold scan_start_ok, scan_direction, isize in *.
    split; [destruct (rows E); [done|simpl; lia]|].
    destruct (Z.eqb_spec (last_match fs) (-1)); [left; lia|].
    destruct Hdir as [-> | ->]; [left|right]; lia. }
  destruct (find_scan_defined (length (rows E)) _ query _ _ Hstart)
    as (sc & Hsc & Hhead & Hhit).
  rewrite Hsc. simpl.
  destruct (hit sc) as [[current pos]|] eqn:Hh.
  - destruct (Hhit _ _ eq_refl) as (row & Hrow & Hrange & Hfind).
    rewrite (find_mark_spec _ _ _ _ _ _ Hrow). simpl.
    eexists _, _, _. split; [reflexivity|]. simpl.
    split; [apply Hhead; destruct (rows E); done|].
    split; [reflexivity|]. split; [assumption|]. rewrite Hh. eauto 10.
  - eexists _, _, _. split; [reflexivity|].
    split; [apply Hhead; destruct (rows E); done|].
    split; [reflexivity|]. split; [assumption|]. rewrite Hh. auto.
Qed.

Lemma overlay_hl_lookup query pos row k :
  (k < length (render row))%nat ->
  overlay_hl query pos row !! k
  = Some (if bool_decide (pos <= k < pos + length query)%nat
          then HL_MATCH else HL_NORMAL).
Proof.
  intros Hk. unfold overlay_hl. rewrite fill_lookup.
  rewrite lookup_replicate_2 by assumption. simpl. f_equal.
  destruct (Nat.leb_spec pos k), (Nat.ltb_spec k (pos + length query));
    simpl; case_bool_decide; try reflexivity; lia.
Qed.

Lemma foldl_rx_step_no_tab (s : list ascii) (r : Z) :
  TAB ∉ s -> foldl rx_step r s = r + Z.of_nat (length s).
Proof.
  revert r. induction s as [|c s IH]; intros r Hs; simpl; [lia|].
  apply not_elem_of_cons in Hs as [Hc Hs]. rewrite IH by assumption.
  unfold rx_step. destruct (Ascii.eqb_spec c TAB); [congruence|lia].
Qed.

(** Where no tab precedes it, a raw column is its own rendered column. *)
Lemma editorRowCxToRx_no_tab (row : ERow) (n : nat) :
  (n <= length (chars row))%nat -> TAB ∉ take n (chars row) ->
  editorRowCxToRx row (Z.of_nat n) = Z.of_nat n.
Proof.
  intros Hn Htab. rewrite editorRowCxToRx_foldl by (unfold isize; lia).
  rewrite Nat2Z.id, foldl_rx_step_no_tab by assumption.
  rewrite length_take. lia.
Qed.

(** C2, as the code has it by design: when a search event records a match
    on a row, it saves that row's current highlight sequence (the one in
    place after the restore step) into the slot, and then resets the whole
    row before it marks the match: the new sequence has the length of the
    rendered text and holds [HL_NORMAL] and [HL_MATCH] only, so no position
    keeps another class it had. The raw and the rendered text of the row
    and all other rows are untouched. Where no tab stands in the raw text
    before the end of the match, the positions marked [HL_MATCH] are those
    the match spans, the rendered columns from that of the first byte of
    the match up to that of the byte behind it, and all others are
    [HL_NORMAL]. Which positions are marked behind a tab is left open
    here. *)
Theorem match_saves_highlight_then_resets_and_marks
    (query : list ascii) (key : Z) (fs fs' : FindStatics) (E E' : editorConfig)
    (sc : Scan) (current : Z) (pos : nat) :
  editorFindCallback_scan query key fs E = Some (sc, (fs', E')) ->
  hit sc = Some (current, pos) ->
  exists fs1 E1 row row',
    find_restore fs E = Some (fs1, E1)
    /\ rows E1 !! Z.to_nat current = Some row
    /\ string_find (chars row) query = Some pos
    /\ last_match fs' = current /\ cy E' = current /\ cx E' = Z.of_nat pos
    /\ saved_hl_line fs' = current
    /\ saved_hl fs' = Some (hl row)
    /\ rows E' = <[Z.to_nat current := row']> (rows E1)
    /\ chars row' = chars row /\ render row' = render row
    /\ length (hl row') = length (render row)
    /\ (forall k h, hl row' !! k = Some h -> h = HL_NORMAL \/ h = HL_MATCH)
    /\ (TAB ∉ take (pos + length query) (chars row) ->
        forall k, (k < length (render row))%nat ->
          hl row' !! k
          = Some (if bool_decide
                       (editorRowCxToRx row (Z.of_nat pos) <= Z.of_nat k
                        < editorRowCxToRx row (Z.of_nat (pos + length query)))
                  then HL_MATCH else HL_NORMAL)).
Proof.
  unfold editorFindCallback_scan. intros Hcall Hhit.
  destruct (find_restore fs E) as [[fs1 E1]|]; simpl in Hcall; [|discriminate].
  destruct (find_key key fs1) as [fs2 returned].
  destruct returned.
  { injection Hcall as <- _ _. discriminate Hhit. }
  unfold find_search in Hcall.
  destruct (find_scan _ _ _ _ _) as [sc'|] eqn:Hscan; simpl in Hcall;
    [|discriminate].
  destruct (hit sc') as [[c p]|] eqn:Hh.
  - destruct (find_scan_hit _ _ _ _ _ _ _ _ Hscan Hh) as (_ & row & Hrow & Hfind).
    rewrite (find_mark_spec _ _ _ _ _ _ Hrow) in Hcall. simpl in Hcall.
    injection Hcall as <- <- <-. rewrite Hh in Hhit. injection Hhit as <- <-.
    exists fs1, E1, row, (mkRow (chars row) (render row) (overlay_hl query p row)).
    simpl. split; [reflexivity|]. split; [assumption|]. split; [assumption|].
    split; [reflexivity|]. split; [reflexivity|]. split; [reflexivity|].
    split; [reflexivity|]. split; [reflexivity|]. split; [reflexivity|].
    split; [reflexivity|]. split; [reflexivity|].
    split; [unfold overlay_hl; by rewrite fill_length, length_replicate|].
    split.
    + intros k h Hk.
      assert (Hlt : (k < length (render row))%nat).
      { apply lookup_lt_Some in Hk. unfold overlay_hl in Hk.
        by rewrite fill_length, length_replicate in Hk. }
      rewrite (overlay_hl_lookup _ _ _ _ Hlt) in Hk. injection Hk as <-.
      case_bool_decide; auto.
    + intros Htab k Hk. rewrite (overlay_hl_lookup _ _ _ _ Hk).
      apply string_find_Some in Hfind as [_ Hle].
      rewrite (editorRowCxToRx_no_tab row (p + length query)) by assumption.
      rewrite (editorRowCxToRx_no_tab row p).
      * f_equal. repeat case_bool_decide; try reflexivity; lia.
      * lia.
      * intros Hin. apply Htab.
        rewrite <- (take_drop p (take (p + length query) (chars row))).
        rewrite take_take, Nat.min_l by lia. apply elem_of_app. by left.
  - injection Hcall as <- _ _. congruence.
Qed.

Lemma match_saves_highlight_then_resets_and_marks_witness :
  exists fs1 E1 row row',
    find_restore find_statics_init doc_int_foo = Some (fs1, E1)
    /\ rows E1 !! Z.to_nat 0 = Some row
    /\ string_find (chars row) (lit "foo") = Some 4%nat
    /\ 0 = 0 /\ 0 = 0 /\ 4 = Z.of_nat 4
    /\ 0 = 0
    /\ Some (replicate 3 HL_KEYWORD2 ++ replicate 4 HL_NORMAL) = Some (hl row)
    /\ [mkRow (lit "int foo") (lit "int foo")
          (replicate 4 HL_NORMAL ++ replicate 3 HL_MATCH)]
       = <[Z.to_nat 0 := row']> (rows E1)
    /\ chars row' = chars row /\ render row' = render row
    /\ length (hl row') = length (render row)
    /\ (forall k h, hl row' !! k = Some h -> h = HL_NORMAL \/ h = HL_MATCH)
    /\ (TAB ∉ take (4 + length (lit "foo")) (chars row) ->
        forall k, (k < length (render row))%nat ->
          hl row' !! k
          = Some (if bool_decide
                       (editorRowCxToRx row (Z.of_nat 4) <= Z.of_nat k
                        < editorRowCxToRx row (Z.of_nat (4 + length (lit "foo"))))
                  then HL_MATCH else HL_NORMAL)).
Proof.
  apply (match_saves_highlight_then_resets_and_marks (lit "foo") 111
           find_statics_init
           (mkStatics 0 1 0 (Some (replicate 3 HL_KEYWORD2 ++ replicate 4 HL_NORMAL)))
           doc_int_foo
           (mkConfig 4 0 0 1 0 24 80 false [] [] (Some HLDB0)
              [mkRow (lit "int foo") (lit "int foo")
                 (replicate 4 HL_NORMAL ++ replicate 3 HL_MATCH)])
           (mkScan [0] (Some (0, 4%nat))) 0 4%nat).
  - vm_compute. reflexivity.
  - reflexivity.
Defined.

(** C2 as stated fails: in the row "int foo" of a C file the keyword
    positions 0-2 are [HL_KEYWORD2]; after the match of "foo" at column 4
    they are [HL_NORMAL], although they lie outside the matched span. *)
Lemma overlay_resets_positions_outside_span_counterexample :
  hl <$> rows doc_int_foo !! 0%nat
  = Some [HL_KEYWORD2; HL_KEYWORD2; HL_KEYWORD2; HL_NORMAL;
          HL_NORMAL; HL_NORMAL; HL_NORMAL]
  /\ exists fs' E',
      editorFindCallback (lit "foo") 111 find_statics_init doc_int_foo
      = Some (fs', E')
      /\ cy E' = 0 /\ cx E' = 4
      /\ hl <$> rows E' !! 0%nat
         = Some [HL_NORMAL; HL_NORMAL; HL_NORMAL; HL_NORMAL;
                 HL_MATCH; HL_MATCH; HL_MATCH]
      /\ ~ (forall k, ~ (4 <= k < 4 + length (lit "foo"))%nat ->
             (rows E' !! 0%nat) ≫= (fun row => hl row !! k)
             = (rows doc_int_foo !! 0%nat) ≫= (fun row => hl row !! k)).
Proof.
  split; [reflexivity|].
  eexists _, _. split; [vm_compute; reflexivity|].
  split; [reflexivity|]. split; [reflexivity|]. split; [reflexivity|].
  intros Hframe. specialize (Hframe 0%nat). simpl in Hframe.
  assert (Hout : ~ (4 <= 0 < 7)%nat) by lia.
  specialize (Hframe Hout). discriminate Hframe.
Qed.

Lemma scan_next_forward_fresh (rs : list ERow) : rs <> [] -> scan_next rs 1 (-1) = 0.
Proof.
  intros Hne. unfold scan_next, isize. simpl.
  destruct rs; [done|]. reflexivity.
Qed.

Lemma scan_next_backward (rs : list ERow) m :
  0 <= m < isize rs ->
  scan_next rs (-1) m = if m =? 0 then isize rs - 1 else m - 1.
Proof.
  intros Hm. unfold scan_next. cbv zeta.
  destruct (Z.eqb_spec (m + -1) (-1)), (Z.eqb_spec m 0); try lia.
  destruct (Z.eqb_spec (m + -1) (isize rs)); lia.
Qed.

(** C3, as the code has it: on a non-empty document, a search event that
    arrives with no prior match recorded scans forward whatever its key is,
    a backward navigation key included ([if (last_match == -1) direction =
    1]): the first row examined is row 0 and the rows are examined in
    increasing order. A backward scan only starts from a recorded match at
    row [m]: its first row is [m - 1], or the last row when [m = 0]. *)
Theorem search_without_prior_match_scans_forward_from_row_0
    (query : list ascii) (key : Z) (fs : FindStatics) (E : editorConfig) :
  rows E <> [] -> slot_ok fs E -> key <> 13 -> key <> 27 ->
  (last_match fs = -1 ->
   exists sc fs' E',
     editorFindCallback_scan query key fs E = Some (sc, (fs', E'))
     /\ direction fs' = 1
     /\ head (examined sc) = Some 0
     /\ (forall k c, examined sc !! k = Some c -> c = Z.of_nat k))
  /\ (0 <= last_match fs < isize (rows E) ->
      key = ARROW_LEFT \/ key = ARROW_UP ->
      exists sc fs' E',
        editorFindCallback_scan query key fs E = Some (sc, (fs', E'))
        /\ direction fs' = -1
        /\ head (examined sc)
           = Some (if last_match fs =? 0 then isize (rows E) - 1
                   else last_match fs - 1)).
Proof.
  intros Hne Hslot H13 H27.
  destruct (find_restore_spec fs E Hslot) as (fs1 & E1 & Hres & Hfs1 & Hlen & _).
  destruct (find_key_spec key fs1 H13 H27) as (fs2 & Hkey & _ & _ & Hcases & Hback).
  assert (Hne1 : rows E1 <> []).
  { intros Hnil. rewrite Hnil in Hlen. destruct (rows E); [done|discriminate]. }
  assert (Hsize : isize (rows E1) = isize (rows E)) by (unfold isize; congruence).
  assert (Hl1 : last_match fs1 = last_match fs) by (subst fs1; reflexivity).
  unfold editorFindCallback_scan. rewrite Hres. simpl. rewrite Hkey.
  split.
  - intros Hfresh.
    assert (Hl2 : last_match fs2 = -1) by (destruct Hcases as [[_ [?|?]]|(_ & _ & ?)]; lia).
    destruct (find_search_spec query fs2 E1 Hne1) as (sc & fs' & E' & -> & Hhead & Hscan & Hdir & _).
    { destruct Hcases as [[? _]|(_ & ? & _)]; auto. }
    { unfold isize. lia. }
    assert (Hsd : scan_direction fs2 = 1) by (unfold scan_direction; by rewrite Hl2).
    rewrite Hsd, Hl2 in *.
    exists sc, fs', E'. split; [reflexivity|]. split; [assumption|].
    split; [by rewrite Hhead, scan_next_forward_fresh|].
    intros k c Hk.
    eapply find_scan_forward_order in Hk; [|..|exact Hscan]; simpl; lia.
  - intros Hm Hk. destruct (Hback Hk) as [Hd2 Hl2].
    destruct (find_search_spec query fs2 E1 Hne1) as (sc & fs' & E' & -> & Hhead & _ & Hdir & _).
    { auto. }
    { lia. }
    assert (Hsd : scan_direction fs2 = -1).
    { unfold scan_direction. destruct (Z.eqb_spec (last_match fs2) (-1)); lia. }
    rewrite Hsd in *. exists sc, fs', E'. split; [reflexivity|]. split; [assumption|].
    rewrite Hhead, Hl2, Hl1, scan_next_backward by lia. by rewrite Hsize.
Qed.

Lemma search_without_prior_match_scans_forward_witness :
  (exists sc fs' E',
      editorFindCallback_scan (lit "foo") ARROW_UP find_statics_init (doc_foo None)
      = Some (sc, (fs', E'))
      /\ direction fs' = 1
      /\ head (examined sc) = Some 0
      /\ (forall k c, examined sc !! k = Some c -> c = Z.of_nat k))
  /\ (exists sc fs' E',
        editorFindCallback_scan (lit "baz") ARROW_UP (mkStatics 0 1 0 None) (doc_foo None)
        = Some (sc, (fs', E'))
        /\ direction fs' = -1
        /\ head (examined sc) = Some 1).
Proof.
  split.
  - apply (proj1 (search_without_prior_match_scans_forward_from_row_0
                    (lit "foo") ARROW_UP find_statics_init (doc_foo None)
                    ltac:(vm_compute; discriminate)
                    ltac:(intros H; exfalso; apply H; reflexivity)
                    ltac:(vm_compute; discriminate)
                    ltac:(vm_compute; discriminate))).
    reflexivity.
  - apply (proj2 (search_without_prior_match_scans_forward_from_row_0
                    (lit "baz") ARROW_UP (mkStatics 0 1 0 None) (doc_foo None)
                    ltac:(vm_compute; discriminate)
                    ltac:(intros H; exfalso; apply H; reflexivity)
                    ltac:(vm_compute; discriminate)
                    ltac:(vm_compute; discriminate))).
    + vm_compute. split; [discriminate|reflexivity].
    + right. reflexivity.
Defined.

(** C3 as stated fails: on the two-row document, with no prior match and a
    backward navigation key, the first (and only) row examined is row 0, not
    the last row, and the match is the one of row 0. *)
Lemma backward_fresh_search_starts_at_row_0_counterexample :
  last_match find_statics_init = -1
  /\ isize (rows (doc_foo None)) - 1 = 1
  /\ exists r,
      editorFindCallback_scan (lit "foo") ARROW_UP find_statics_init (doc_foo None)
      = Some (mkScan [0] (Some (0, 0%nat)), r)
      /\ head (examined (mkScan [0] (Some (0, 0%nat))))
         <> Some (isize (rows (doc_foo None)) - 1).
Proof.
  split; [reflexivity|]. split; [reflexivity|].
  eexists. split; [vm_compute; reflexivity|]. vm_compute. discriminate.
Qed.

Lemma restore_then_search query key fs E h :
  saved_hl fs = Some h ->
  0 <= saved_hl_line fs < isize (rows E) ->
  restores_before_matching query key fs E h.
Proof.
  intros Hsaved Hline. unfold restores_before_matching.
  destruct (find_restore_spec fs E) as (fs1 & E1 & Hres & Hfs1 & Hlen & Hsome & _).
  { intros _. assumption. }
  destruct (Hsome h Hsaved) as (row & Hrow & Hrows).
  assert (Hlt : (Z.to_nat (saved_hl_line fs) < length (rows E))%nat)
    by (unfold isize in Hline; lia).
  assert (Hh : rows E1 !! Z.to_nat (saved_hl_line fs)
               = Some (mkRow (chars row) (render row) h)).
  { rewrite Hrows. by apply list_lookup_insert_eq. }
  assert (Hcall : editorFindCallback_scan query key fs E
                  = (let '(fs2, returned) := find_key key fs1 in
                     if returned then Some (mkScan [] None, (fs2, E1))
                     else find_search query fs2 E1)).
  { unfold editorFindCallback_scan. rewrite Hres. reflexivity. }
  exists fs1, E1, row. split; [assumption|]. split; [by subst fs1|].
  split; [assumption|]. split; [assumption|]. split; [by rewrite Hh|].
  split; [assumption|].
  intros sc fs' E'. rewrite Hcall.
  pose proof (find_key_saved key fs1) as Hks.
  destruct (find_key key fs1) as [fs2 returned]. simpl in Hks.
  assert (Hs2 : saved_hl fs2 = None) by (rewrite Hks; by subst fs1).
  destruct returned.
  { intros [= <- <- <-]. simpl. by rewrite Hh. }
  unfold find_search.
  set (fs3 := if last_match fs2 =? -1 then _ else fs2).
  assert (Hs3 : saved_hl fs3 = None) by (subst fs3; by case_match).
  destruct (find_scan _ _ _ _ _) as [sc'|] eqn:Hscan; simpl; [|discriminate].
  destruct (hit sc') as [[c p]|] eqn:Hhit.
  - destruct (find_scan_hit _ _ _ _ _ _ _ _ Hscan Hhit) as [Hc _].
    unfold find_mark.
    destruct (rows E1 !! Z.to_nat c) as [row'|] eqn:Hrow'; simpl; [|discriminate].
    intros [= <- <- <-]. rewrite Hhit.
    destruct (Z.eqb_spec c (saved_hl_line fs)) as [->|Hne]; simpl.
    + rewrite Hh in Hrow'. by injection Hrow' as <-.
    + rewrite list_lookup_insert_ne by lia. by rewrite Hh.
  - intros [= <- <- <-]. rewrite Hhit, Hh. auto.
Qed.

(** C4: on every search event with a saved overlay, the saved highlight
    sequence is put back into its row, unchanged, and the slot is freed
    before the key is looked at and the scan is made. On the rows "foo bar"
    and "baz foo" with query "foo", whatever the grammar: the first search
    matches row 0 at column 0 (and marks it), and the forward navigation
    event after it matches row 1 at column 4 and leaves row 0 as it was
    before the overlay. *)
Theorem search_event_restores_saved_overlay_first :
  (forall query key fs E h,
      saved_hl fs = Some h ->
      0 <= saved_hl_line fs < isize (rows E) ->
      restores_before_matching query key fs E h)
  /\ (forall g,
        exists fs1 E1 fs2 E2,
          editorFindCallback (lit "foo") 111 find_statics_init (doc_foo g)
          = Some (fs1, E1)
          /\ last_match fs1 = 0 /\ cy E1 = 0 /\ cx E1 = 0
          /\ hl <$> rows E1 !! 0%nat
             = Some (replicate 3 HL_MATCH ++ replicate 4 HL_NORMAL)
          /\ saved_hl fs1 = hl <$> rows (doc_foo g) !! 0%nat
          /\ editorFindCallback (lit "foo") ARROW_RIGHT fs1 E1 = Some (fs2, E2)
          /\ last_match fs2 = 1 /\ cy E2 = 1 /\ cx E2 = 4
          /\ rows E2 !! 0%nat = rows (doc_foo g) !! 0%nat).
Proof.
  split; [exact restore_then_search|].
  intros g. eexists _, _, _, _.
  split; [reflexivity|]. split; [reflexivity|]. split; [reflexivity|].
  split; [reflexivity|]. split; [reflexivity|]. split; [reflexivity|].
  split; [reflexivity|]. split; [reflexivity|]. split; [reflexivity|].
  split; reflexivity.
Qed.

Lemma search_event_restores_saved_overlay_first_witness :
  restores_before_matching (lit "foo") ARROW_RIGHT
    (mkStatics 0 1 0 (Some (replicate 7 HL_NORMAL)))
    (set_cursor 0 0
       (set_rowoff 2
          (set_rows
             [mkRow (lit "foo bar") (lit "foo bar")
                (replicate 3 HL_MATCH ++ replicate 4 HL_NORMAL);
              mkRow (lit "baz foo") (lit "baz foo") (replicate 7 HL_NORMAL)]
             (initEditor 24 80))))
    (replicate 7 HL_NORMAL).
Proof.
  apply (proj1 search_event_restores_saved_overlay_first).
  - reflexivity.
  - vm_compute. split; [discriminate|reflexivity].
Defined.

End Search.

(** * Further properties of the code *)

(** ** Render mapper: columns and rendered bytes *)

Section RenderColumns.

Lemma foldl_rx_step_lt s r : s <> [] -> r < foldl rx_step r s.
Proof.
  destruct s as [|c s]; [done|]. intros _. simpl.
  pose proof (rx_step_lt r c). pose proof (foldl_rx_step_le s (rx_step r c)). lia.
Qed.

Lemma foldl_rx_step_nonneg s r : 0 <= r -> 0 <= foldl rx_step r s.
Proof. intros Hr. pose proof (foldl_rx_step_le s r). lia. Qed.

Lemma editorRowCxToRx_succ row j c :
  chars row !! j = Some c ->
  editorRowCxToRx row (Z.of_nat (S j))
  = rx_step (editorRowCxToRx row (Z.of_nat j)) c.
Proof.
  intros Hc. pose proof (lookup_lt_Some _ _ _ Hc) as Hlt.
  rewrite !editorRowCxToRx_foldl by (unfold isize; lia).
  rewrite !Nat2Z.id, (take_S_r _ _ _ Hc), foldl_app. reflexivity.
Qed.

Lemma editorRowCxToRx_nonneg row j :
  (j <= length (chars row))%nat -> 0 <= editorRowCxToRx row (Z.of_nat j).
Proof.
  intros Hj. rewrite editorRowCxToRx_foldl by (unfold isize; lia).
  by apply foldl_rx_step_nonneg.
Qed.

(** Distinct raw columns of a row never share a rendered column. *)
Theorem editorRowCxToRx_strictly_increasing (row : ERow) (a b : Z) :
  0 <= a -> a < b -> b <= isize (chars row) ->
  editorRowCxToRx row a < editorRowCxToRx row b.
Proof.
  intros Ha Hab Hb.
  rewrite !editorRowCxToRx_foldl by lia.
  assert (Hsplit : take (Z.to_nat b) (chars row)
                   = take (Z.to_nat a) (chars row)
                     ++ drop (Z.to_nat a) (take (Z.to_nat b) (chars row))).
  { rewrite <- (take_drop (Z.to_nat a) (take (Z.to_nat b) (chars row))) at 1.
    rewrite take_take. do 2 f_equal. lia. }
  rewrite Hsplit, foldl_app. apply foldl_rx_step_lt.
  intros Hnil. apply (f_equal length) in Hnil.
  rewrite length_drop, length_take in Hnil. unfold isize in Hb. simpl in Hnil. lia.
Qed.

Lemma editorRowCxToRx_strictly_increasing_witness :
  editorRowCxToRx (mkRow [TAB; TAB] [] []) 1 < editorRowCxToRx (mkRow [TAB; TAB] [] []) 2.
Proof.
  apply (editorRowCxToRx_strictly_increasing (mkRow [TAB; TAB] [] []) 1 2);
    vm_compute; congruence.
Defined.

(** A tab moves the rendered column to the next multiple of the tab stop,
    by one to eight columns; every other byte moves it by one. *)
Theorem editorRowCxToRx_step (row : ERow) (j : nat) (c : ascii) :
  chars row !! j = Some c ->
  let r0 := editorRowCxToRx row (Z.of_nat j) in
  let r1 := editorRowCxToRx row (Z.of_nat (S j)) in
  if Ascii.eqb c TAB
  then r1 mod KILO_TAB_STOP = 0 /\ r0 < r1 <= r0 + KILO_TAB_STOP
  else r1 = r0 + 1.
Proof.
  intros Hc. cbv zeta. rewrite (editorRowCxToRx_succ _ _ _ Hc).
  pose proof (editorRowCxToRx_nonneg row j
                ltac:(apply lookup_lt_Some in Hc; lia)) as H0.
  unfold rx_step, KILO_TAB_STOP.
  destruct (Ascii.eqb c TAB); [|reflexivity].
  rewrite Z.rem_mod_nonneg by lia.
  generalize dependent (editorRowCxToRx row (Z.of_nat j)). intros z Hz.
  Z.to_euclidean_division_equations. lia.
Qed.

Lemma editorRowCxToRx_step_witness :
  editorRowCxToRx (mkRow (lit "ab" ++ [TAB]) [] []) 3 mod KILO_TAB_STOP = 0
  /\ editorRowCxToRx (mkRow (lit "ab" ++ [TAB]) [] []) 2
     < editorRowCxToRx (mkRow (lit "ab" ++ [TAB]) [] []) 3
     <= editorRowCxToRx (mkRow (lit "ab" ++ [TAB]) [] []) 2 + KILO_TAB_STOP.
Proof.
  apply (editorRowCxToRx_step (mkRow (lit "ab" ++ [TAB]) [] []) 2 TAB).
  reflexivity.
Defined.

Lemma pad_to_tab_stop_spaces fuel out :
  exists n, pad_to_tab_stop fuel out = out ++ replicate n SPACE.
Proof.
  revert out. induction fuel as [|fuel IH]; intros out; simpl.
  - exists 0%nat. by rewrite app_nil_r.
  - case_match.
    + exists 0%nat. by rewrite app_nil_r.
    + destruct (IH (out ++ [SPACE])) as [n ->]. exists (S n).
      by rewrite <- app_assoc.
Qed.

Lemma render_loop_app s1 s2 out :
  render_loop (s1 ++ s2) out = render_loop s2 (render_loop s1 out).
Proof.
  revert out. induction s1 as [|c s1 IH]; intros out; [reflexivity|].
  cbn [app render_loop]. by destruct (Ascii.eqb c TAB).
Qed.

Lemma render_loop_prefix s out : exists suffix, render_loop s out = out ++ suffix.
Proof.
  revert out. induction s as [|c s IH]; intros out; cbn [render_loop].
  - exists []. by rewrite app_nil_r.
  - destruct (Ascii.eqb c TAB).
    + destruct (pad_to_tab_stop_spaces (Z.to_nat KILO_TAB_STOP) (out ++ [SPACE]))
        as [n ->].
      destruct (IH ((out ++ [SPACE]) ++ replicate n SPACE)) as [suffix ->].
      eexists. by rewrite <- !app_assoc.
    + destruct (IH (out ++ [c])) as [suffix ->].
      eexists. by rewrite <- !app_assoc.
Qed.

Lemma render_take_length (s : list ascii) (j : nat) :
  (j <= length s)%nat ->
  Z.of_nat (length (render_loop (take j s) []))
  = editorRowCxToRx (mkRow s [] []) (Z.of_nat j).
Proof.
  intros Hj. rewrite render_loop_length.
  rewrite editorRowCxToRx_foldl by (unfold isize; simpl; lia).
  by rewrite Nat2Z.id.
Qed.

(** The rendered column of a raw column is where its byte is drawn: the
    rendered text holds the byte itself there, or, for a tab, spaces from
    there up to the rendered column of the next raw column. *)
Theorem rendered_column_holds_the_byte (syn : option EditorSyntax) (row0 : ERow)
    (j : nat) (c : ascii) :
  chars row0 !! j = Some c ->
  let row := editorUpdateRow syn row0 in
  if Ascii.eqb c TAB
  then forall k : nat,
      editorRowCxToRx row (Z.of_nat j) <= Z.of_nat k
      < editorRowCxToRx row (Z.of_nat (S j)) ->
      render row !! k = Some SPACE
  else render row !! Z.to_nat (editorRowCxToRx row (Z.of_nat j)) = Some c.
Proof.
  intros Hc. cbv zeta. pose proof (lookup_lt_Some _ _ _ Hc) as Hlt.
  assert (Hrx : forall n, editorRowCxToRx (editorUpdateRow syn row0) n
                          = editorRowCxToRx (mkRow (chars row0) [] []) n)
    by reflexivity.
  rewrite !Hrx. simpl render.
  set (pre := render_loop (take j (chars row0)) []).
  assert (Hrender : render_of (chars row0)
                    = render_loop (drop (S j) (chars row0)) (render_loop [c] pre)).
  { unfold render_of.
    transitivity
      (render_loop (take j (chars row0) ++ [c] ++ drop (S j) (chars row0)) []).
    - simpl. by rewrite take_drop_middle.
    - by rewrite !render_loop_app. }
  rewrite Hrender. cbn [render_loop].
  assert (Hpre : Z.of_nat (length pre)
                 = editorRowCxToRx (mkRow (chars row0) [] []) (Z.of_nat j))
    by (apply render_take_length; lia).
  destruct (Ascii.eqb c TAB) eqn:Htab.
  - intros k Hk.
    assert (Hnext : Z.of_nat (length (pad_to_tab_stop (Z.to_nat KILO_TAB_STOP)
                                        (pre ++ [SPACE])))
                    = editorRowCxToRx (mkRow (chars row0) [] []) (Z.of_nat (S j))).
    { rewrite pad_to_tab_stop_tab, Hpre.
      rewrite (editorRowCxToRx_succ (mkRow (chars row0) [] []) j c Hc).
      apply Ascii.eqb_eq in Htab. by subst c. }
    destruct (pad_to_tab_stop_spaces (Z.to_nat KILO_TAB_STOP) (pre ++ [SPACE]))
      as [n Hpad].
    rewrite Hpad in *.
    destruct (render_loop_prefix (drop (S j) (chars row0))
                ((pre ++ [SPACE]) ++ replicate n SPACE)) as [suffix ->].
    rewrite <- !app_assoc.
    rewrite lookup_app_r by lia.
    change ([SPACE] ++ replicate n SPACE ++ suffix)
      with (replicate (S n) SPACE ++ suffix).
    rewrite !length_app, length_replicate in Hnext. simpl in Hnext.
    rewrite lookup_app_l by (rewrite length_replicate; lia).
    apply lookup_replicate_2. lia.
  - destruct (render_loop_prefix (drop (S j) (chars row0)) (pre ++ [c]))
      as [suffix ->].
    rewrite <- Hpre, Nat2Z.id, <- app_assoc.
    rewrite lookup_app_r by lia. by rewrite Nat.sub_diag.
Qed.

Lemma rendered_column_holds_the_byte_witness :
  render (editorUpdateRow None (mkRow ([TAB] ++ lit "x") [] []))
    !! Z.to_nat (editorRowCxToRx
                   (editorUpdateRow None (mkRow ([TAB] ++ lit "x") [] []))
                   (Z.of_nat 1))
  = Some "x"%char.
Proof.
  apply (rendered_column_holds_the_byte None (mkRow ([TAB] ++ lit "x") [] [])
           1 "x"%char).
  reflexivity.
Defined.

Lemma pad_to_tab_stop_no_tab fuel out :
  TAB ∉ out -> TAB ∉ pad_to_tab_stop fuel out.
Proof.
  intros Hout. destruct (pad_to_tab_stop_spaces fuel out) as [n ->].
  rewrite elem_of_app. intros [H|H]; [done|].
  apply elem_of_replicate in H as [H _]. discriminate H.
Qed.

Lemma render_loop_no_tab s out : TAB ∉ out -> TAB ∉ render_loop s out.
Proof.
  revert out. induction s as [|c s IH]; intros out Hout; cbn [render_loop];
    [assumption|].
  destruct (Ascii.eqb c TAB) eqn:Hc; apply IH.
  - apply pad_to_tab_stop_no_tab. rewrite elem_of_app, list_elem_of_singleton.
    intros [H|H]; [done|discriminate H].
  - rewrite elem_of_app, list_elem_of_singleton. intros [H|H]; [done|].
    subst c. by rewrite Ascii.eqb_refl in Hc.
Qed.

Lemma render_loop_tab_free s out : TAB ∉ s -> render_loop s out = out ++ s.
Proof.
  revert out. induction s as [|c s IH]; intros out Hs; cbn [render_loop].
  - by rewrite app_nil_r.
  - apply not_elem_of_cons in Hs as [Hc Hs].
    destruct (Ascii.eqb_spec c TAB) as [->|_]; [done|].
    rewrite IH by assumption. by rewrite <- app_assoc.
Qed.

(** The rendered text of a row never holds a tab, and a raw text without
    tabs is rendered as it is. *)
Theorem render_has_no_tab (syn : option EditorSyntax) (row0 : ERow) :
  (TAB ∉ render (editorUpdateRow syn row0))
  /\ ((TAB ∉ chars row0) -> render (editorUpdateRow syn row0) = chars row0).
Proof.
  split.
  - simpl. apply render_loop_no_tab. apply not_elem_of_nil.
  - intros Hfree. simpl. unfold render_of. by rewrite render_loop_tab_free.
Qed.

Lemma render_has_no_tab_witness :
  render (editorUpdateRow None (mkRow (lit "no tabs") [] [])) = lit "no tabs".
Proof.
  apply (proj2 (render_has_no_tab None (mkRow (lit "no tabs") [] []))).
  vm_compute. intros H. repeat (apply elem_of_cons in H as [H|H]; [discriminate H|]).
  by apply elem_of_nil in H.
Defined.

End RenderColumns.

(** ** Highlight classifier: which classes it can produce *)

Section ClassifierClasses.

Variable syn : option EditorSyntax.
Variable r : list ascii.

(** A property of the loop's locals that holds at the entry and is kept by
    every iteration holds of the highlight the loop leaves. *)
Lemma classify_invariant (I : SyntaxLocals -> Prop)
    (Q : list editorHighlight -> Prop) :
  I (syntax_init r) ->
  (forall st st',
      I st -> length (s_hl st) = length r -> (s_i st <= length r)%nat ->
      editorUpdateSyntax_step syn r st = inr st' -> I st') ->
  (forall st h,
      I st -> length (s_hl st) = length r -> (s_i st <= length r)%nat ->
      editorUpdateSyntax_step syn r st = inl h -> Q h) ->
  Q (classify syn r).
Proof.
  intros Hinit Hstep Hexit.
  destruct (classify_terminates syn r) as (h & Hloop & -> & _).
  assert (Hgen : forall fuel st,
             I st -> length (s_hl st) = length r -> (s_i st <= length r)%nat ->
             editorUpdateSyntax_loop fuel syn r st = Some h -> Q h).
  { induction fuel as [|fuel IH]; intros st HI Hlen Hi; simpl; [discriminate|].
    destruct (editorUpdateSyntax_step syn r st) as [h'|st'] eqn:Hs.
    - intros [= <-]. by eapply Hexit.
    - destruct (editorUpdateSyntax_step_inr _ _ _ _ Hlen Hi Hs) as (? & ? & _).
      apply IH; [by eapply Hstep|assumption..]. }
  eapply Hgen; [exact Hinit| | |exact Hloop]; simpl;
    [apply length_replicate|lia].
Qed.

Lemma fill_Forall {A : Type} (P : A -> Prop) lo hi x v :
  P x -> Forall P v -> Forall P (fill lo hi x v).
Proof.
  intros Hx Hv. apply Forall_lookup. intros k y. rewrite fill_lookup.
  destruct (v !! k) as [z|] eqn:Hz; simpl; [|discriminate].
  intros [= <-]. case_match; [assumption|].
  by eapply Forall_lookup_1.
Qed.

Lemma keyword_key_color kw :
  snd (keyword_key kw) = HL_KEYWORD1 \/ snd (keyword_key kw) = HL_KEYWORD2.
Proof. unfold keyword_key. repeat case_match; simpl; auto. Qed.

Lemma keyword_loop_Forall (P : editorHighlight -> Prop) kws h i h' i' :
  P HL_KEYWORD1 -> P HL_KEYWORD2 -> Forall P h ->
  keyword_loop kws r h i = Some (h', i') -> Forall P h'.
Proof.
  intros H1 H2 Hh. induction kws as [|kw kws IH]; simpl; [discriminate|].
  pose proof (keyword_key_color kw) as Hcol.
  destruct (keyword_key kw) as [key kw_color]. simpl in Hcol.
  case_match; [|exact IH].
  intros [= <- <-]. apply fill_Forall; [|assumption].
  by destruct Hcol as [-> | ->].
Qed.

(** The classes an iteration writes: [HL_STRING] and [HL_NUMBER] always,
    [HL_COMMENT] and the keyword classes only under a grammar. *)
Lemma editorUpdateSyntax_step_Forall (P : editorHighlight -> Prop) st :
  P HL_STRING -> P HL_NUMBER ->
  (syn <> None -> P HL_COMMENT /\ P HL_KEYWORD1 /\ P HL_KEYWORD2) ->
  Forall P (s_hl st) ->
  match editorUpdateSyntax_step syn r st with
  | inl h => Forall P h
  | inr st' => Forall P (s_hl st')
  end.
Proof.
  intros Hs Hn Hg Hh. unfold editorUpdateSyntax_step.
  destruct syn as [g|].
  - destruct Hg as (Hc & H1 & H2); [done|].
    repeat case_match; simplify_eq; simpl;
      try assumption;
      try (apply fill_Forall; assumption);
      try (apply Forall_insert; assumption);
      try (eapply keyword_loop_Forall; eassumption).
  - repeat case_match; simplify_eq; simpl;
      try assumption;
      try (apply Forall_insert; assumption).
Qed.

Lemma classify_Forall (P : editorHighlight -> Prop) :
  P HL_NORMAL -> P HL_STRING -> P HL_NUMBER ->
  (syn <> None -> P HL_COMMENT /\ P HL_KEYWORD1 /\ P HL_KEYWORD2) ->
  Forall P (classify syn r).
Proof.
  intros H0 Hs Hn Hg.
  apply (classify_invariant (fun st => Forall P (s_hl st)) (Forall P)).
  - simpl. by apply Forall_replicate.
  - intros st st' HI _ _ Hstep.
    pose proof (editorUpdateSyntax_step_Forall P st Hs Hn Hg HI) as H.
    by rewrite Hstep in H.
  - intros st h HI _ _ Hstep.
    pose proof (editorUpdateSyntax_step_Forall P st Hs Hn Hg HI) as H.
    by rewrite Hstep in H.
Qed.

End ClassifierClasses.

(** The classifier never produces [HL_MATCH], under any grammar; and with
    no grammar it produces no comment and no keyword class: only
    [HL_NORMAL], [HL_STRING] and [HL_NUMBER]. *)
Theorem classifier_classes (rendered : list ascii) :
  (forall syn, Forall (fun h => h <> HL_MATCH) (classify syn rendered))
  /\ Forall (fun h => h = HL_NORMAL \/ h = HL_STRING \/ h = HL_NUMBER)
       (classify None rendered).
Proof.
  split.
  - intros syn. apply classify_Forall; try discriminate.
    intros _. repeat split; discriminate.
  - apply classify_Forall; auto. intros H. by destruct H.
Qed.

(** With no grammar, a rendered text without digits and quotes is all
    [HL_NORMAL]. *)
Theorem no_grammar_plain_text_is_normal (rendered : list ascii) :
  (forall c, c ∈ rendered -> isdigit c = false /\ c <> DQUOTE /\ c <> SQUOTE) ->
  classify None rendered = replicate (length rendered) HL_NORMAL.
Proof.
  intros Hplain.
  apply (classify_invariant None rendered
           (fun st => s_in_string st = 0
                      /\ s_hl st = replicate (length rendered) HL_NORMAL)
           (fun h => h = replicate (length rendered) HL_NORMAL)).
  - split; reflexivity.
  - intros st st' [Hin Hh] _ _. unfold editorUpdateSyntax_step.
    destruct (negb (s_i st <? length rendered)%nat) eqn:Hlt; [discriminate|].
    apply negb_false_iff, Nat.ltb_lt in Hlt.
    rewrite Hin. simpl.
    destruct (Hplain (char_at rendered (s_i st))) as (Hd & Hdq & Hsq).
    { unfold char_at. apply list_elem_of_lookup. exists (s_i st).
      destruct (lookup_lt_is_Some_2 rendered (s_i st) Hlt) as [x Hx].
      by rewrite (nth_lookup_Some _ _ _ _ Hx). }
    destruct (Ascii.eqb_spec (char_at rendered (s_i st)) DQUOTE); [done|].
    destruct (Ascii.eqb_spec (char_at rendered (s_i st)) SQUOTE); [done|].
    rewrite Hd. simpl.
    assert (Hprev : match s_i st with
                    | O => HL_NORMAL
                    | S i' => nth i' (s_hl st) HL_NORMAL
                    end = HL_NORMAL).
    { destruct (s_i st) as [|i']; [reflexivity|].
      rewrite Hh. destruct (lookup_lt_is_Some_2
                              (replicate (length rendered) HL_NORMAL) i') as [x Hx].
      { rewrite length_replicate. lia. }
      rewrite (nth_lookup_Some _ _ _ _ Hx).
      by apply lookup_replicate in Hx as [-> _]. }
    rewrite Hprev. rewrite andb_false_r. simpl.
    destruct (s_prev_sep st); simpl; intros [= <-]; simpl; auto.
  - intros st h [Hin Hh] _ _. unfold editorUpdateSyntax_step.
    case_match; [by intros [= <-]|]. simpl. rewrite Hin. simpl.
    repeat case_match; discriminate.
Qed.

Lemma no_grammar_plain_text_is_normal_witness :
  classify None (lit "plain text") = replicate (length (lit "plain text")) HL_NORMAL.
Proof.
  apply (no_grammar_plain_text_is_normal (lit "plain text")).
  apply Forall_forall. cbv [lit String.list_ascii_of_string].
  repeat (apply Forall_cons_2;
          [split; [reflexivity|split; intros H; vm_compute in H; discriminate H]|]).
  apply Forall_nil_2.
Defined.

(** ** Highlight classifier: comments *)

Section CommentRule.

Lemma keyword_loop_Some kws r h i h' i' :
  keyword_loop kws r h i = Some (h', i') ->
  exists kw,
    kw ∈ kws
    /\ i' = (i + length (fst (keyword_key kw)))%nat
    /\ substr r i (length (fst (keyword_key kw))) = fst (keyword_key kw)
    /\ (i' <= length r)%nat
    /\ h' = fill i i' (snd (keyword_key kw)) h.
Proof.
  induction kws as [|kw kws IH]; simpl; [discriminate|].
  destruct (keyword_key kw) as [key kw_color] eqn:Hkey.
  destruct (_ && _) eqn:Hguard.
  - intros [= <- <-]. exists kw. rewrite Hkey. simpl.
    apply andb_prop in Hguard as [Hguard _].
    apply andb_prop in Hguard as [Hle Hsub].
    apply Nat.leb_le in Hle. apply bool_decide_eq_true in Hsub.
    repeat split; auto. apply list_elem_of_here.
  - intros Hrec. destruct (IH Hrec) as (kw' & Hin & Hrest).
    exists kw'. split; [by apply list_elem_of_further|exact Hrest].
Qed.

Variable g : EditorSyntax.
Variables pre rest marker_tail : list ascii.
Variable c0 : ascii.

Hypothesis marker_eq : singleline_comment_start g = c0 :: marker_tail.
Hypothesis pre_no_quote : forall c, c ∈ pre -> c <> DQUOTE /\ c <> SQUOTE.
Hypothesis keys_without_c0 :
  forall kw, kw ∈ keywords g -> c0 ∉ fst (keyword_key kw).

Let r : list ascii := pre ++ (c0 :: marker_tail) ++ rest.

Lemma comment_guard_at_marker :
  substr r (length pre) (length (c0 :: marker_tail)) = c0 :: marker_tail.
Proof.
  unfold substr, r. rewrite drop_app_length. by rewrite take_app_length.
Qed.

Lemma comment_step_keeps_position st st' :
  s_in_string st = 0 -> (s_i st <= length pre)%nat ->
  editorUpdateSyntax_step (Some g) r st = inr st' ->
  s_in_string st' = 0 /\ (s_i st' <= length pre)%nat.
Proof.
  intros Hin Hi. unfold editorUpdateSyntax_step.
  assert (Hlen : (length pre + length (c0 :: marker_tail) <= length r)%nat).
  { unfold r. rewrite !length_app. lia. }
  destruct (negb (s_i st <? length r)%nat) eqn:Hlt; [discriminate|].
  rewrite marker_eq, Hin. cbn [Z.eqb negb andb].
  destruct (decide (s_i st = length pre)) as [Heq|Hne].
  { rewrite Heq, comment_guard_at_marker.
    destruct (Nat.leb_spec (length pre + length (c0 :: marker_tail)) (length r));
      [|lia].
    rewrite (bool_decide_eq_false_2 (c0 :: marker_tail = [])) by discriminate.
    rewrite bool_decide_eq_true_2 by reflexivity. simpl. discriminate. }
  assert (Hlt' : (s_i st < length pre)%nat) by lia.
  case_match; [discriminate|].
  destruct (lookup_lt_is_Some_2 pre (s_i st) Hlt') as [c Hc].
  assert (Hchar : char_at r (s_i st) = c).
  { unfold char_at, r. apply nth_lookup_Some. by rewrite lookup_app_l. }
  rewrite Hchar.
  destruct (pre_no_quote c) as [Hdq Hsq]; [by eapply list_elem_of_lookup_2|].
  destruct (Ascii.eqb_spec c DQUOTE); [done|].
  destruct (Ascii.eqb_spec c SQUOTE); [done|]. simpl.
  case_match.
  { intros [= <-]. simpl. split; [reflexivity|lia]. }
  destruct (s_prev_sep st).
  - destruct (keyword_loop (keywords g) r (s_hl st) (s_i st))
      as [[h' i']|] eqn:Hkw.
    + intros [= <-]. simpl. split; [reflexivity|].
      destruct (keyword_loop_Some _ _ _ _ _ _ Hkw) as (kw & Hin' & -> & Hsub & _ & _).
      destruct (Nat.le_gt_cases (s_i st + length (fst (keyword_key kw)))
                  (length pre)) as [Hok|Hover]; [assumption|].
      exfalso. apply (keys_without_c0 kw Hin').
      rewrite <- Hsub. apply list_elem_of_lookup.
      exists (length pre - s_i st)%nat. unfold substr.
      rewrite lookup_take_lt by lia. rewrite lookup_drop. unfold r.
      replace (s_i st + (length pre - s_i st))%nat with (length pre + 0)%nat by lia.
      by rewrite lookup_app_r, Nat.add_0_r, Nat.sub_diag by lia.
    + intros [= <-]. simpl. split; [reflexivity|lia].
  - intros [= <-]. simpl. split; [reflexivity|lia].
Qed.

(** In a row where the comment marker follows a text without quotes,
    everything from the marker on is [HL_COMMENT], provided no keyword of
    the grammar holds the first byte of the marker (as in the C grammar of
    [HLDB]). *)
Theorem comment_marker_comments_out_the_rest (k : nat) :
  (length pre <= k < length r)%nat ->
  classify (Some g) r !! k = Some HL_COMMENT.
Proof.
  intros Hk.
  apply (classify_invariant (Some g) r
           (fun st => s_in_string st = 0 /\ (s_i st <= length pre)%nat)
           (fun h => h !! k = Some HL_COMMENT)).
  - simpl. split; [reflexivity|lia].
  - intros st st' [Hin Hi] _ _ Hstep. by eapply comment_step_keeps_position.
  - intros st h [Hin Hi] Hlen _. unfold editorUpdateSyntax_step.
    destruct (Nat.ltb_spec (s_i st) (length r)) as [Hlt|Hge]; [|lia]. simpl.
    destruct (_ && _).
    + intros [= <-]. rewrite fill_lookup.
      destruct (lookup_lt_is_Some_2 (s_hl st) k) as [y ->]; [lia|]. simpl.
      destruct (Nat.leb_spec (s_i st) k); [|lia].
      destruct (Nat.ltb_spec k (length (s_hl st))); [|lia]. reflexivity.
    + repeat case_match; discriminate.
Qed.

End CommentRule.

Lemma comment_marker_comments_out_the_rest_witness :
  classify (Some HLDB0) (lit "int x; " ++ lit "//" ++ lit " 'a' 12") !! 9%nat
  = Some HL_COMMENT.
Proof.
  apply (comment_marker_comments_out_the_rest HLDB0 (lit "int x; ")
           (lit " 'a' 12") (lit "/") "/"%char).
  - reflexivity.
  - apply Forall_forall. cbv [lit String.list_ascii_of_string].
    repeat (apply Forall_cons_2;
            [split; intros H; vm_compute in H; discriminate H|]).
    apply Forall_nil_2.
  - apply Forall_forall. vm_compute keywords.
    repeat (apply Forall_cons_2;
            [vm_compute; intros H;
             repeat (apply elem_of_cons in H as [H|H]; [discriminate H|]);
             by apply elem_of_nil in H|]).
    apply Forall_nil_2.
  - vm_compute. split; apply Nat.leb_le; reflexivity.
Defined.

(** ** Edit operations as edits of the serialized text *)

Section TextEdits.

Lemma text_of_app rs1 rs2 : text_of (rs1 ++ rs2) = text_of rs1 ++ text_of rs2.
Proof.
  unfold text_of, each_line_terminated. by rewrite !map_app, concat_app.
Qed.

Lemma text_of_cons row rs : text_of (row :: rs) = chars row ++ LF :: text_of rs.
Proof.
  unfold text_of, each_line_terminated. simpl. by rewrite <- app_assoc.
Qed.

Lemma editorRowsToString_text E : editorRowsToString E = text_of (rows E).
Proof. apply editorRowsToString_lines. Qed.

Lemma insert_at_app_r {A : Type} (a b : list A) j x :
  insert_at (length a + j) x (a ++ b) = a ++ insert_at j x b.
Proof.
  unfold insert_at. rewrite take_app_add, drop_app_add. by rewrite <- app_assoc.
Qed.

Lemma insert_at_app_l {A : Type} (a b : list A) j x :
  (j <= length a)%nat -> insert_at j x (a ++ b) = insert_at j x a ++ b.
Proof.
  intros Hj. unfold insert_at.
  rewrite take_app_le, drop_app_le by assumption.
  by rewrite <- app_assoc.
Qed.

Lemma delete_app_r {A : Type} (a b : list A) j :
  delete (length a + j)%nat (a ++ b) = a ++ delete j b.
Proof.
  rewrite !delete_take_drop, take_app_add.
  replace (S (length a + j)) with (length a + S j)%nat by lia.
  rewrite drop_app_add. by rewrite <- app_assoc.
Qed.

Lemma delete_app_l {A : Type} (a b : list A) j :
  (j < length a)%nat -> delete j (a ++ b) = delete j a ++ b.
Proof.
  intros Hj. rewrite !delete_take_drop.
  rewrite take_app_le, drop_app_le by lia. by rewrite <- app_assoc.
Qed.

Lemma delete_insert_at {A : Type} (v : list A) j x :
  (j <= length v)%nat -> delete j (insert_at j x v) = v.
Proof.
  intros Hj. unfold insert_at.
  replace j with (length (take j v) + 0)%nat at 1
    by (rewrite length_take; lia).
  rewrite delete_app_r. simpl. apply take_drop.
Qed.

Lemma rows_split (rs : list ERow) n row :
  rs !! n = Some row ->
  rs = take n rs ++ row :: drop (S n) rs /\ length (take n rs) = n.
Proof.
  intros H. split; [by rewrite take_drop_middle|].
  rewrite length_take. apply lookup_lt_Some in H. lia.
Qed.

(** The rows after [E.rows[n] = row1]. *)
Lemma text_of_insert (rs : list ERow) n row row1 :
  rs !! n = Some row ->
  text_of (<[n := row1]> rs)
  = text_of (take n rs) ++ chars row1 ++ LF :: text_of (drop (S n) rs).
Proof.
  intros H. rewrite insert_take_drop by (by eapply lookup_lt_Some).
  by rewrite text_of_app, text_of_cons.
Qed.

Lemma text_of_lookup (rs : list ERow) n row :
  rs !! n = Some row ->
  text_of rs = text_of (take n rs) ++ chars row ++ LF :: text_of (drop (S n) rs).
Proof.
  intros H. rewrite <- (take_drop_middle _ _ _ H) at 1.
  by rewrite text_of_app, text_of_cons.
Qed.

Lemma editorInsertRow_fields at_ s E :
  cx (editorInsertRow at_ s E) = cx E
  /\ cy (editorInsertRow at_ s E) = cy E
  /\ syntax (editorInsertRow at_ s E) = syntax E.
Proof. unfold editorInsertRow. by case_match. Qed.

(** What the operations compute on a cursor that is on a row. *)
Lemma editorInsertChar_on_row c E row :
  0 <= cy E -> rows E !! Z.to_nat (cy E) = Some row ->
  0 <= cx E <= isize (chars row) ->
  editorInsertChar c E
  = Some (set_cursor (cx E + 1) (cy E)
            (set_dirty true
               (set_rows
                  (<[Z.to_nat (cy E) :=
                       editorUpdateRow (syntax E)
                         (mkRow (insert_at (Z.to_nat (cx E)) c (chars row))
                            (render row) (hl row))]> (rows E)) E))).
Proof.
  intros Hcy Hrow Hcx. pose proof (lookup_lt_Some _ _ _ Hrow) as Hlt.
  unfold editorInsertChar.
  destruct (Z.eqb_spec (cy E) (isize (rows E))) as [Heq|_];
    [unfold isize in Heq; lia|].
  destruct (row_index_Some E (cy E)) as [-> _]; [unfold isize; lia|].
  simpl. unfold editorRowInsertChar. rewrite Hrow. simpl.
  destruct (Z.ltb_spec (cx E) 0); [lia|].
  destruct (Z.gtb_spec (cx E) (isize (chars row))); [lia|]. reflexivity.
Qed.

Lemma editorInsertNewline_split E row :
  0 <= cy E -> rows E !! Z.to_nat (cy E) = Some row ->
  0 < cx E <= isize (chars row) ->
  editorInsertNewline E
  = Some (set_cursor 0 (cy E + 1)
            (editorInsertRow (cy E + 1) (drop (Z.to_nat (cx E)) (chars row))
               (set_rows
                  (<[Z.to_nat (cy E) :=
                       editorUpdateRow (syntax E)
                         (mkRow (take (Z.to_nat (cx E)) (chars row))
                            (render row) (hl row))]> (rows E)) E))).
Proof.
  intros Hcy Hrow Hcx. pose proof (lookup_lt_Some _ _ _ Hrow) as Hlt.
  unfold editorInsertNewline.
  destruct (Z.eqb_spec (cx E) 0); [lia|].
  destruct (row_index_Some E (cy E)) as [-> _]; [unfold isize; lia|].
  simpl. rewrite Hrow. simpl.
  destruct (Z.leb_spec 0 (cx E)); [|lia].
  destruct (Z.leb_spec (cx E) (isize (chars row))); [|lia]. simpl.
  by destruct (editorInsertRow_fields (cy E + 1)
                 (drop (Z.to_nat (cx E)) (chars row))
                 (set_rows
                    (<[Z.to_nat (cy E) :=
                         editorUpdateRow (syntax E)
                           (mkRow (take (Z.to_nat (cx E)) (chars row))
                              (render row) (hl row))]> (rows E)) E))
    as (_ & -> & _).
Qed.

Lemma editorDelChar_byte E row :
  0 <= cy E -> rows E !! Z.to_nat (cy E) = Some row ->
  0 < cx E <= isize (chars row) ->
  editorDelChar E
  = Some (set_cursor (cx E - 1) (cy E)
            (set_dirty true
               (set_rows
                  (<[Z.to_nat (cy E) :=
                       editorUpdateRow (syntax E)
                         (mkRow (delete (Z.to_nat (cx E - 1)) (chars row))
                            (render row) (hl row))]> (rows E)) E))).
Proof.
  intros Hcy Hrow Hcx. pose proof (lookup_lt_Some _ _ _ Hrow) as Hlt.
  unfold editorDelChar.
  destruct (Z.eqb_spec (cy E) (isize (rows E))) as [Heq|_];
    [unfold isize in Heq; lia|].
  destruct (Z.eqb_spec (cx E) 0); [lia|]. simpl.
  destruct (row_index_Some E (cy E)) as [-> _]; [unfold isize; lia|].
  simpl. rewrite Hrow. simpl.
  destruct (Z.gtb_spec (cx E) 0); [|lia].
  unfold editorRowDelChar. rewrite Hrow. simpl.
  destruct (Z.ltb_spec (cx E - 1) 0); [lia|].
  destruct (Z.geb_spec (cx E - 1) (isize (chars row))); [lia|]. reflexivity.
Qed.

Lemma editorDelChar_merge E row prev :
  0 < cy E -> cx E = 0 ->
  rows E !! Z.to_nat (cy E) = Some row ->
  rows E !! Z.to_nat (cy E - 1) = Some prev ->
  editorDelChar E
  = Some (set_cursor (isize (chars prev)) (cy E - 1)
            (set_dirty true
               (set_rows
                  (delete (Z.to_nat (cy E))
                     (<[Z.to_nat (cy E - 1) :=
                          editorUpdateRow (syntax E)
                            (mkRow (chars prev ++ chars row)
                               (render prev) (hl prev))]> (rows E))) E))).
Proof.
  intros Hcy Hcx Hrow Hprev. pose proof (lookup_lt_Some _ _ _ Hrow) as Hlt.
  unfold editorDelChar.
  destruct (Z.eqb_spec (cy E) (isize (rows E))) as [Heq|_];
    [unfold isize in Heq; lia|].
  destruct (Z.eqb_spec (cy E) 0); [lia|]. rewrite andb_false_r.
  destruct (row_index_Some E (cy E)) as [-> _]; [unfold isize; lia|].
  simpl. rewrite Hrow. simpl.
  destruct (Z.gtb_spec (cx E) 0); [lia|].
  destruct (row_index_Some E (cy E - 1)) as [-> _]; [unfold isize; lia|].
  simpl. rewrite Hprev. simpl.
  unfold editorRowAppendString. simpl. rewrite Hprev. simpl.
  unfold editorDelRow. simpl. unfold isize. rewrite length_insert.
  destruct (Z.ltb_spec (cy E) 0); [lia|].
  destruct (Z.geb_spec (cy E) (Z.of_nat (length (rows E)))); [lia|].
  reflexivity.
Qed.

Lemma cursor_ok_cases E :
  cursor_ok E ->
  (cy E < isize (rows E) /\ cursor_on_row E)
  \/ (cy E = isize (rows E) /\ cx E = 0).
Proof.
  intros ((Hcy0 & Hcy1) & Hcx & Hrow). unfold cursor_on_row, isize in *.
  destruct (Z.eq_dec (cy E) (Z.of_nat (length (rows E)))) as [Heq|Hne].
  - right. split; [assumption|].
    destruct (Z.eq_dec (cx E) 0) as [|Hx]; [assumption|].
    destruct (Hrow Hx) as (row & Hlk & _). apply lookup_lt_Some in Hlk. lia.
  - left. split; [lia|]. split; [assumption|].
    destruct (Z.eq_dec (cx E) 0) as [Hx|Hx].
    + destruct (lookup_lt_is_Some_2 (rows E) (Z.to_nat (cy E))) as [row Hlk];
        [lia|].
      exists row. split; [assumption|]. lia.
    + destruct (Hrow Hx) as (row & Hlk & Hle). exists row. split; [assumption|lia].
Qed.

Lemma cursor_on_row_ok E : cursor_on_row E -> cursor_ok E.
Proof.
  intros (Hcy & row & Hlk & Hcx). pose proof (lookup_lt_Some _ _ _ Hlk).
  unfold cursor_ok, isize in *. split; [lia|]. split; [lia|].
  intros _. exists row. split; [assumption|lia].
Qed.

Lemma insert_at_length' {A : Type} k (x : A) v :
  length (insert_at k x v) = S (length v).
Proof.
  unfold insert_at. rewrite length_app. simpl. rewrite length_take, length_drop. lia.
Qed.

Lemma insert_last {A : Type} (l : list A) x y :
  <[length l := x]> (l ++ [y]) = l ++ [x].
Proof.
  replace (length l) with (length l + 0)%nat at 1 by lia.
  by rewrite insert_app_r.
Qed.

Lemma editorInsertChar_virtual c E :
  cy E = isize (rows E) ->
  editorInsertChar c E = editorInsertChar c (editorInsertRow (isize (rows E)) [] E).
Proof.
  intros Hcy.
  destruct (editorInsertRow_append [] E) as [Hrows _].
  destruct (editorInsertRow_fields (isize (rows E)) [] E) as (_ & Hcy' & _).
  unfold editorInsertChar.
  rewrite (proj2 (Z.eqb_eq (cy E) (isize (rows E))) Hcy).
  set (E1 := editorInsertRow (isize (rows E)) [] E) in *.
  assert (Hne : (cy E1 =? isize (rows E1)) = false).
  { apply Z.eqb_neq. rewrite Hcy', Hrows, Hcy. unfold isize.
    rewrite length_app. simpl. lia. }
  by rewrite Hne.
Qed.

(** [editorInsertChar] on the serialized text, with the cursor it leaves. *)
Lemma editorInsertChar_text (c : ascii) (E : editorConfig) :
  cursor_ok E ->
  exists E',
    editorInsertChar c E = Some E'
    /\ editorRowsToString E'
       = (if cy E <? isize (rows E)
          then insert_at (cursor_offset E) c (editorRowsToString E)
          else editorRowsToString E ++ [c; LF])
    /\ cursor_offset E' = S (cursor_offset E)
    /\ cursor_on_row E'
    /\ cx E' = cx E + 1 /\ cy E' = cy E.
Proof.
  intros Hok. destruct (cursor_ok_cases E Hok) as [[Hlt Hon]|[Hend Hcx]].
  - destruct Hon as (Hcy & row & Hrow & Hcx).
    rewrite (editorInsertChar_on_row c E row Hcy Hrow Hcx).
    eexists. split; [reflexivity|].
    destruct (Z.ltb_spec (cy E) (isize (rows E))); [|lia].
    rewrite !editorRowsToString_text. unfold cursor_offset. simpl.
    pose proof (lookup_lt_Some _ _ _ Hrow) as Hn.
    split; [|split].
    + rewrite (text_of_insert _ _ row _ Hrow), (text_of_lookup _ _ _ Hrow).
      simpl. rewrite insert_at_app_r, insert_at_app_l; [reflexivity|].
      unfold isize in Hcx. lia.
    + rewrite take_insert_ge by lia. lia.
    + split; [|split; reflexivity].
      split; [assumption|]. eexists. split; [by apply list_lookup_insert_eq|].
      simpl. unfold isize in *. rewrite insert_at_length'. lia.
  - rewrite (editorInsertChar_virtual c E Hend).
    destruct (editorInsertRow_append [] E) as [Hrows _].
    destruct (editorInsertRow_fields (isize (rows E)) [] E) as (Hcx' & Hcy' & Hsyn').
    set (E1 := editorInsertRow (isize (rows E)) [] E) in *.
    assert (Hrow1 : rows E1 !! Z.to_nat (cy E1)
                    = Some (editorUpdateRow (syntax E) (mkRow [] [] []))).
    { rewrite Hrows, Hcy', Hend. unfold isize. rewrite Nat2Z.id.
      by rewrite lookup_app_r, Nat.sub_diag by lia. }
    rewrite (editorInsertChar_on_row c E1 _ ltac:(unfold isize in *; lia) Hrow1)
      by (rewrite Hcx', Hcx; simpl; unfold isize; simpl; lia).
    eexists. split; [reflexivity|].
    destruct (Z.ltb_spec (cy E) (isize (rows E))); [lia|].
    rewrite !editorRowsToString_text. unfold cursor_offset. simpl.
    rewrite Hcy', Hcx', Hrows, Hend, Hcx. unfold isize. rewrite Nat2Z.id.
    rewrite insert_last.
    split; [|split].
    + rewrite text_of_app, text_of_cons. reflexivity.
    + rewrite !take_app_length, firstn_all. simpl. lia.
    + split; [|split; reflexivity].
      unfold cursor_on_row. simpl. rewrite Nat2Z.id. split; [lia|]. eexists.
      split; [by rewrite lookup_app_r, Nat.sub_diag by lia|].
      simpl. unfold isize. simpl. lia.
Qed.

(** Typing a byte inserts it into the serialized text at the cursor and
    moves the cursor behind it; on the virtual row past the end, a new last
    line holding the byte is added instead. *)
Theorem editorInsertChar_edits_text (c : ascii) (E : editorConfig) :
  cursor_ok E ->
  exists E',
    editorInsertChar c E = Some E'
    /\ editorRowsToString E'
       = (if cy E <? isize (rows E)
          then insert_at (cursor_offset E) c (editorRowsToString E)
          else editorRowsToString E ++ [c; LF])
    /\ cursor_offset E' = S (cursor_offset E)
    /\ cursor_on_row E'.
Proof.
  intros Hok.
  destruct (editorInsertChar_text c E Hok) as (E' & Hins & Htext & Hoff & Hon & _).
  exists E'. auto.
Qed.

Lemma editorInsertChar_edits_text_witness :
  exists E',
    editorInsertChar "x"%char (set_cursor 1 1 (doc_foo None)) = Some E'
    /\ editorRowsToString E'
       = (if cy (set_cursor 1 1 (doc_foo None))
             <? isize (rows (set_cursor 1 1 (doc_foo None)))
          then insert_at (cursor_offset (set_cursor 1 1 (doc_foo None))) "x"%char
                 (editorRowsToString (set_cursor 1 1 (doc_foo None)))
          else editorRowsToString (set_cursor 1 1 (doc_foo None)) ++ ["x"%char; LF])
    /\ cursor_offset E' = S (cursor_offset (set_cursor 1 1 (doc_foo None)))
    /\ cursor_on_row E'.
Proof.
  apply (editorInsertChar_edits_text "x"%char (set_cursor 1 1 (doc_foo None))).
  split; [vm_compute; split; discriminate|].
  split; [vm_compute; discriminate|].
  intros _. eexists. split; [reflexivity|]. vm_compute. discriminate.
Defined.

Lemma editorInsertRow_in_range at_ s E :
  0 <= at_ <= isize (rows E) ->
  editorInsertRow at_ s E
  = set_dirty true
      (set_rows
         (insert_at (Z.to_nat at_) (editorUpdateRow (syntax E) (mkRow s [] []))
            (rows E)) E).
Proof.
  intros Hat. unfold editorInsertRow.
  destruct (Z.ltb_spec at_ 0); [lia|].
  destruct (Z.gtb_spec at_ (isize (rows E))); [lia|]. reflexivity.
Qed.

Lemma text_of_insert_at (rs : list ERow) n row :
  text_of (insert_at n row rs)
  = text_of (take n rs) ++ chars row ++ LF :: text_of (drop n rs).
Proof. unfold insert_at. by rewrite text_of_app, text_of_cons. Qed.

Lemma take_insert_at_S {A : Type} (v : list A) n x :
  (n <= length v)%nat -> take (S n) (insert_at n x v) = take n v ++ [x].
Proof.
  intros Hn. unfold insert_at.
  replace (S n) with (length (take n v) + 1)%nat by (rewrite length_take; lia).
  by rewrite take_app_add.
Qed.

Lemma take_insert_at_same {A : Type} (v : list A) n x :
  (n <= length v)%nat -> take n (insert_at n x v) = take n v.
Proof.
  intros Hn. unfold insert_at.
  rewrite take_app_le by (rewrite length_take; lia).
  rewrite take_take. f_equal. lia.
Qed.

Lemma length_text_of_app_one rs row :
  length (text_of (rs ++ [row])) = (length (text_of rs) + length (chars row) + 1)%nat.
Proof.
  rewrite text_of_app, text_of_cons. change (text_of []) with (@nil ascii).
  rewrite !length_app. simpl. lia.
Qed.

(** [editorInsertNewline] on the serialized text, with the cursor it
    leaves. *)
Lemma editorInsertNewline_text (E : editorConfig) :
  cursor_ok E ->
  exists E',
    editorInsertNewline E = Some E'
    /\ editorRowsToString E'
       = insert_at (cursor_offset E) LF (editorRowsToString E)
    /\ cursor_offset E' = S (cursor_offset E)
    /\ cx E' = 0 /\ cy E' = cy E + 1
    /\ length (rows E') = S (length (rows E))
    /\ cursor_ok E'.
Proof.
  intros Hok. pose proof Hok as ((Hcy0 & Hcy1) & Hcx0 & Hrow).
  destruct (Z.eq_dec (cx E) 0) as [Hx|Hx].
  - unfold editorInsertNewline. rewrite Hx. simpl.
    rewrite editorInsertRow_in_range by lia. simpl.
    eexists. split; [reflexivity|].
    rewrite !editorRowsToString_text. unfold cursor_offset. simpl.
    assert (Hn : (Z.to_nat (cy E) <= length (rows E))%nat)
      by (unfold isize in *; lia).
    rewrite Hx. simpl. rewrite !Nat.add_0_r.
    split; [|split; [|split; [|split; [|split]]]]; try reflexivity.
    + rewrite text_of_insert_at. simpl.
      rewrite <- (take_drop (Z.to_nat (cy E)) (rows E)) at 4.
      rewrite text_of_app.
      replace (length (text_of (take (Z.to_nat (cy E)) (rows E))))
        with (length (text_of (take (Z.to_nat (cy E)) (rows E))) + 0)%nat by lia.
      by rewrite insert_at_app_r.
    + replace (Z.to_nat (cy E + 1)) with (S (Z.to_nat (cy E))) by lia.
      rewrite take_insert_at_S by assumption.
      rewrite length_text_of_app_one. simpl. lia.
    + apply insert_at_length'.
    + unfold cursor_ok, isize. simpl. rewrite insert_at_length'.
      unfold isize in *. split; [lia|]. split; [lia|]. intros H. by destruct H.
  - destruct (Hrow Hx) as (row & Hlk & Hle).
    pose proof (lookup_lt_Some _ _ _ Hlk) as Hn.
    rewrite (editorInsertNewline_split E row) by (assumption || lia).
    rewrite editorInsertRow_in_range
      by (simpl; unfold isize; rewrite length_insert; lia).
    simpl. eexists. split; [reflexivity|].
    rewrite !editorRowsToString_text. unfold cursor_offset. simpl.
    replace (Z.to_nat (cy E + 1)) with (S (Z.to_nat (cy E))) by lia.
    set (n := Z.to_nat (cy E)) in *.
    set (k := Z.to_nat (cx E)).
    assert (Hk : (k <= length (chars row))%nat) by (unfold isize in Hle; lia).
    set (r1 := editorUpdateRow (syntax E)
                 (mkRow (take k (chars row)) (render row) (hl row))).
    set (r2 := editorUpdateRow (syntax E) (mkRow (drop k (chars row)) [] [])).
    assert (Htake : take (S n) (<[n := r1]> (rows E)) = take n (rows E) ++ [r1]).
    { rewrite insert_take_drop by assumption.
      replace (S n) with (length (take n (rows E)) + 1)%nat
        by (rewrite length_take; lia).
      by rewrite take_app_add. }
    assert (Hdrop : drop (S n) (<[n := r1]> (rows E)) = drop (S n) (rows E))
      by (by rewrite drop_insert_lt by lia).
    split; [|split; [|split; [|split; [|split]]]]; try reflexivity.
    + rewrite text_of_insert_at, Htake, Hdrop, text_of_app.
      rewrite (text_of_lookup _ _ _ Hlk). fold n.
      rewrite insert_at_app_r, insert_at_app_l by assumption.
      unfold insert_at at 1. unfold text_of at 2, each_line_terminated. simpl.
      rewrite app_nil_r. repeat (rewrite <- app_assoc; simpl). reflexivity.
    + rewrite take_insert_at_same by (rewrite length_insert; lia).
      rewrite Htake, length_text_of_app_one. simpl.
      rewrite length_take. lia.
    + rewrite insert_at_length', length_insert. reflexivity.
    + unfold cursor_ok, isize. simpl. rewrite insert_at_length', length_insert.
      split; [lia|]. split; [lia|]. intros H. by destruct H.
Qed.

(** Enter inserts one newline into the serialized text at the cursor and
    moves the cursor behind it, to the start of the next row; the document
    gains one row. *)
Theorem editorInsertNewline_edits_text (E : editorConfig) :
  cursor_ok E ->
  exists E',
    editorInsertNewline E = Some E'
    /\ editorRowsToString E'
       = insert_at (cursor_offset E) LF (editorRowsToString E)
    /\ cursor_offset E' = S (cursor_offset E)
    /\ cx E' = 0 /\ cy E' = cy E + 1
    /\ length (rows E') = S (length (rows E))
    /\ cursor_ok E'.
Proof.
  intros Hok. exact (editorInsertNewline_text E Hok).
Qed.

Lemma editorInsertNewline_edits_text_witness :
  exists E',
    editorInsertNewline (set_cursor 3 0 (doc_foo None)) = Some E'
    /\ editorRowsToString E'
       = insert_at (cursor_offset (set_cursor 3 0 (doc_foo None))) LF
           (editorRowsToString (set_cursor 3 0 (doc_foo None)))
    /\ cursor_offset E' = S (cursor_offset (set_cursor 3 0 (doc_foo None)))
    /\ cx E' = 0 /\ cy E' = cy (set_cursor 3 0 (doc_foo None)) + 1
    /\ length (rows E') = S (length (rows (set_cursor 3 0 (doc_foo None))))
    /\ cursor_ok E'.
Proof.
  apply (editorInsertNewline_edits_text (set_cursor 3 0 (doc_foo None))).
  split; [vm_compute; split; discriminate|].
  split; [vm_compute; discriminate|].
  intros _. eexists. split; [reflexivity|]. vm_compute. discriminate.
Defined.

Lemma rows_split2 (rs : list ERow) m prev row :
  rs !! m = Some prev -> rs !! S m = Some row ->
  rs = take m rs ++ prev :: row :: drop (S (S m)) rs.
Proof.
  intros Hp Hr. rewrite <- (take_drop_middle _ _ _ Hp) at 1. do 2 f_equal.
  by apply drop_S.
Qed.

(** The rows after a merge of row [S m] into row [m]. *)
Lemma merge_rows (rs : list ERow) m prev row p1 :
  rs !! m = Some prev -> rs !! S m = Some row ->
  delete (S m) (<[m := p1]> rs) = take m rs ++ p1 :: drop (S (S m)) rs.
Proof.
  intros Hp Hr. pose proof (lookup_lt_Some _ _ _ Hp) as Hm.
  rewrite (rows_split2 rs m prev row Hp Hr) at 1.
  replace m with (length (take m rs) + 0)%nat at 1 2
    by (rewrite length_take; lia).
  rewrite insert_app_r. simpl.
  replace (S (length (take m rs) + 0)) with (length (take m rs) + 1)%nat by lia.
  by rewrite delete_app_r.
Qed.

(** [editorDelChar] on the serialized text, with the cursor it leaves. *)
Lemma editorDelChar_text (E : editorConfig) :
  cursor_ok E ->
  exists E',
    editorDelChar E = Some E'
    /\ if (cy E <? isize (rows E)) && negb ((cx E =? 0) && (cy E =? 0))
       then editorRowsToString E'
            = delete (cursor_offset E - 1)%nat (editorRowsToString E)
            /\ cursor_offset E' = (cursor_offset E - 1)%nat
            /\ cursor_on_row E'
       else E' = E.
Proof.
  intros Hok. destruct (cursor_ok_cases E Hok) as [[Hlt Hon]|[Hend Hcx]].
  2:{ exists E. unfold editorDelChar. rewrite Hend, Z.eqb_refl, Z.ltb_irrefl.
      simpl. auto. }
  destruct Hon as (Hcy & row & Hrow & Hcx).
  pose proof (lookup_lt_Some _ _ _ Hrow) as Hn.
  destruct (Z.ltb_spec (cy E) (isize (rows E))); [|lia]. simpl.
  destruct (Z.eq_dec (cx E) 0) as [Hx0|Hx0].
  - destruct (Z.eq_dec (cy E) 0) as [Hy0|Hy0].
    + exists E. unfold editorDelChar. rewrite Hx0, Hy0. simpl.
      split; [|reflexivity]. by case_match.
    + rewrite Hx0. rewrite (proj2 (Z.eqb_neq (cy E) 0) Hy0). simpl.
      destruct (lookup_lt_is_Some_2 (rows E) (Z.to_nat (cy E - 1))) as [prev Hprev];
        [lia|].
      rewrite (editorDelChar_merge E row prev) by (assumption || lia).
      eexists. split; [reflexivity|].
      rewrite !editorRowsToString_text. unfold cursor_offset, cursor_on_row. simpl.
      rewrite Hx0. simpl. rewrite Nat.add_0_r.
      set (m := Z.to_nat (cy E - 1)) in *.
      assert (Hm : Z.to_nat (cy E) = S m) by (subst m; lia).
      rewrite Hm in *.
      set (p1 := editorUpdateRow (syntax E)
                   (mkRow (chars prev ++ chars row) (render prev) (hl prev))).
      rewrite (merge_rows _ _ _ _ p1 Hprev Hrow).
      assert (Hlen : length (take m (rows E)) = m) by (rewrite length_take; lia).
      assert (Htext : text_of (take (S m) (rows E))
                      = text_of (take m (rows E)) ++ chars prev ++ [LF]).
      { rewrite (take_S_r _ _ _ Hprev), text_of_app, text_of_cons. reflexivity. }
      split; [|split].
      * rewrite text_of_app, text_of_cons.
        rewrite (rows_split2 _ _ _ _ Hprev Hrow) at 4.
        rewrite text_of_app, !text_of_cons, Htext.
        replace (length (text_of (take m (rows E)) ++ chars prev ++ [LF]) - 1)%nat
          with (length (text_of (take m (rows E))) + length (chars prev))%nat
          by (rewrite !length_app; simpl; lia).
        rewrite delete_app_r, delete_middle. simpl. by rewrite <- app_assoc.
      * replace (Z.to_nat (cy E - 1)) with m by reflexivity.
        rewrite take_app_length' by done.
        rewrite Htext, !length_app. unfold isize. simpl. lia.
      * split; [lia|]. exists p1.
        split; [apply list_lookup_middle; by rewrite Hlen|].
        simpl. unfold isize. rewrite length_app. lia.
  - assert (Hx : 0 < cx E <= isize (chars row)) by lia.
    rewrite (proj2 (Z.eqb_neq (cx E) 0) Hx0). simpl.
    rewrite (editorDelChar_byte E row Hcy Hrow Hx).
    eexists. split; [reflexivity|].
    rewrite !editorRowsToString_text. unfold cursor_offset, cursor_on_row. simpl.
    set (n := Z.to_nat (cy E)) in *.
    assert (Hk : (Z.to_nat (cx E - 1) < length (chars row))%nat)
      by (unfold isize in Hx; lia).
    split; [|split].
    + rewrite (text_of_insert _ _ row _ Hrow), (text_of_lookup _ _ _ Hrow). simpl.
      replace (length (text_of (take n (rows E))) + Z.to_nat (cx E) - 1)%nat
        with (length (text_of (take n (rows E))) + Z.to_nat (cx E - 1))%nat by lia.
      rewrite delete_app_r, delete_app_l by assumption. reflexivity.
    + rewrite take_insert_ge by lia. lia.
    + split; [assumption|]. eexists.
      split; [by apply list_lookup_insert_eq|]. simpl.
      unfold isize in *. rewrite length_delete by (apply lookup_lt_is_Some_2; lia).
      lia.
Qed.

(** Backspace removes from the serialized text the byte before the cursor
    (the newline of the row above when the cursor is at the start of a row)
    and moves the cursor back by one; at the start of the document and on
    the virtual row past the end it changes nothing. *)
Theorem editorDelChar_edits_text (E : editorConfig) :
  cursor_ok E ->
  exists E',
    editorDelChar E = Some E'
    /\ if (cy E <? isize (rows E)) && negb ((cx E =? 0) && (cy E =? 0))
       then editorRowsToString E'
            = delete (cursor_offset E - 1)%nat (editorRowsToString E)
            /\ cursor_offset E' = (cursor_offset E - 1)%nat
            /\ cursor_on_row E'
       else E' = E.
Proof.
  intros Hok. exact (editorDelChar_text E Hok).
Qed.

Lemma editorDelChar_edits_text_witness :
  exists E',
    editorDelChar (set_cursor 0 1 (doc_foo None)) = Some E'
    /\ if (cy (set_cursor 0 1 (doc_foo None))
           <? isize (rows (set_cursor 0 1 (doc_foo None))))
          && negb ((cx (set_cursor 0 1 (doc_foo None)) =? 0)
                   && (cy (set_cursor 0 1 (doc_foo None)) =? 0))
       then editorRowsToString E'
            = delete (cursor_offset (set_cursor 0 1 (doc_foo None)) - 1)%nat
                (editorRowsToString (set_cursor 0 1 (doc_foo None)))
            /\ cursor_offset E'
               = (cursor_offset (set_cursor 0 1 (doc_foo None)) - 1)%nat
            /\ cursor_on_row E'
       else E' = set_cursor 0 1 (doc_foo None).
Proof.
  apply (editorDelChar_edits_text (set_cursor 0 1 (doc_foo None))).
  split; [vm_compute; split; discriminate|].
  split; [vm_compute; discriminate|].
  intros H. by destruct H.
Defined.

Lemma config_ext (E E' : editorConfig) :
  cx E = cx E' -> cy E = cy E' -> rx E = rx E' -> rowoff E = rowoff E' ->
  coloff E = coloff E' -> screenrows E = screenrows E' ->
  screencols E = screencols E' -> dirty E = dirty E' ->
  filename E = filename E' -> statusmsg E = statusmsg E' ->
  syntax E = syntax E' -> rows E = rows E' -> E = E'.
Proof. destruct E, E'. simpl. intros. by subst. Qed.

Lemma synced_row E n row :
  rows_synced E -> rows E !! n = Some row ->
  forall r0 h0, editorUpdateRow (syntax E) (mkRow (chars row) r0 h0) = row.
Proof.
  intros Hs Hrow r0 h0. eapply Forall_lookup_1 in Hs; [|exact Hrow].
  simpl in Hs. transitivity (editorUpdateRow (syntax E) row); [reflexivity|exact Hs].
Qed.

(** Typing a byte and then pressing backspace gives back the document and
    the cursor; only the dirty flag stays set. *)
Theorem type_then_backspace_restores (c : ascii) (E : editorConfig) :
  cursor_on_row E -> rows_synced E ->
  exists E1,
    editorInsertChar c E = Some E1
    /\ editorDelChar E1 = Some (set_dirty true E).
Proof.
  intros (Hcy & row & Hrow & Hcx) Hsync.
  pose proof (lookup_lt_Some _ _ _ Hrow) as Hn.
  rewrite (editorInsertChar_on_row c E row Hcy Hrow Hcx).
  eexists. split; [reflexivity|].
  set (row1 := editorUpdateRow (syntax E)
                 (mkRow (insert_at (Z.to_nat (cx E)) c (chars row))
                    (render row) (hl row))).
  rewrite (editorDelChar_byte _ row1); simpl.
  - f_equal. apply config_ext; simpl; try reflexivity; [lia|].
    rewrite list_insert_insert_eq.
    replace (Z.to_nat (cx E + 1 - 1)) with (Z.to_nat (cx E)) by lia.
    rewrite delete_insert_at by (unfold isize in Hcx; lia).
    rewrite (synced_row E _ row Hsync Hrow). by apply list_insert_id.
  - assumption.
  - by apply list_lookup_insert_eq.
  - unfold isize in *. rewrite insert_at_length'. lia.
Qed.

Lemma type_then_backspace_restores_witness :
  exists E1,
    editorInsertChar "x"%char
      (set_cursor 1 0 (load_from_lines [lit "ab"] (initEditor 24 80))) = Some E1
    /\ editorDelChar E1
       = Some (set_dirty true
                 (set_cursor 1 0 (load_from_lines [lit "ab"] (initEditor 24 80)))).
Proof.
  apply (type_then_backspace_restores "x"%char
           (set_cursor 1 0 (load_from_lines [lit "ab"] (initEditor 24 80)))).
  - split; [vm_compute; discriminate|]. eexists. split; [reflexivity|].
    vm_compute. split; discriminate.
  - repeat constructor.
Defined.

(** Enter and then backspace give back the document and the cursor: the
    row that was split is merged again (only the dirty flag stays set). *)
Theorem newline_then_backspace_restores (E : editorConfig) :
  cursor_on_row E -> rows_synced E ->
  exists E1,
    editorInsertNewline E = Some E1
    /\ editorDelChar E1 = Some (set_dirty true E).
Proof.
  intros (Hcy & row & Hrow & Hcx) Hsync.
  pose proof (lookup_lt_Some _ _ _ Hrow) as Hn.
  set (n := Z.to_nat (cy E)) in *.
  destruct (Z.eq_dec (cx E) 0) as [Hx|Hx].
  - unfold editorInsertNewline. rewrite Hx. simpl.
    rewrite editorInsertRow_in_range by (unfold isize; lia).
    eexists. split; [reflexivity|]. fold n.
    set (er := editorUpdateRow (syntax E) (mkRow [] [] [])).
    assert (Hprev : insert_at n er (rows E) !! n = Some er).
    { unfold insert_at. apply list_lookup_middle. rewrite length_take. lia. }
    assert (Hcur : insert_at n er (rows E) !! S n = Some row).
    { unfold insert_at. rewrite lookup_app_r by (rewrite length_take; lia).
      rewrite length_take, Nat.min_l by lia.
      replace (S n - n)%nat with 1%nat by lia. simpl.
      rewrite lookup_drop, Nat.add_0_r. assumption. }
    rewrite (editorDelChar_merge _ row er); simpl.
    + f_equal. apply config_ext; simpl; try reflexivity;
        [unfold isize; simpl; lia|lia|].
      replace (Z.to_nat (cy E + 1 - 1)) with n by (subst n; lia).
      replace (Z.to_nat (cy E + 1)) with (S n) by (subst n; lia).
      rewrite (merge_rows _ _ _ _ _ Hprev Hcur).
      rewrite (synced_row E _ row Hsync Hrow).
      unfold insert_at. rewrite take_app_length' by (rewrite length_take; lia).
      replace (S (S n)) with (length (take n (rows E)) + 2)%nat
        by (rewrite length_take; lia).
      rewrite drop_app_add. simpl. rewrite drop_drop.
      replace (n + 1)%nat with (S n) by lia.
      by apply take_drop_middle.
    + lia.
    + reflexivity.
    + replace (Z.to_nat (cy E + 1)) with (S n) by (subst n; lia). exact Hcur.
    + replace (Z.to_nat (cy E + 1 - 1)) with n by (subst n; lia). exact Hprev.
  - assert (Hx' : 0 < cx E <= isize (chars row)) by lia.
    rewrite (editorInsertNewline_split E row Hcy Hrow Hx').
    rewrite editorInsertRow_in_range
      by (simpl; unfold isize; rewrite length_insert; lia).
    eexists. split; [reflexivity|]. simpl. fold n.
    set (k := Z.to_nat (cx E)).
    assert (Hk : (k <= length (chars row))%nat) by (unfold isize in Hcx; lia).
    set (r1 := editorUpdateRow (syntax E)
                 (mkRow (take k (chars row)) (render row) (hl row))).
    set (r2 := editorUpdateRow (syntax E) (mkRow (drop k (chars row)) [] [])).
    replace (Z.to_nat (cy E + 1)) with (S n) by (subst n; lia).
    assert (Hlen1 : length (<[n := r1]> (rows E)) = length (rows E))
      by apply length_insert.
    assert (Htake : take (S n) (<[n := r1]> (rows E)) = take n (rows E) ++ [r1]).
    { rewrite insert_take_drop by assumption.
      replace (S n) with (length (take n (rows E)) + 1)%nat
        by (rewrite length_take; lia).
      by rewrite take_app_add. }
    assert (Hdrop : drop (S n) (<[n := r1]> (rows E)) = drop (S n) (rows E))
      by (by rewrite drop_insert_lt by lia).
    assert (Hrows1 : insert_at (S n) r2 (<[n := r1]> (rows E))
                     = take n (rows E) ++ r1 :: r2 :: drop (S n) (rows E)).
    { unfold insert_at. rewrite Htake, Hdrop. by rewrite <- app_assoc. }
    assert (Hlt : length (take n (rows E)) = n) by (rewrite length_take; lia).
    assert (Hprev : insert_at (S n) r2 (<[n := r1]> (rows E)) !! n = Some r1).
    { rewrite Hrows1. by apply list_lookup_middle. }
    assert (Hcur : insert_at (S n) r2 (<[n := r1]> (rows E)) !! S n = Some r2).
    { rewrite Hrows1. rewrite lookup_app_r by lia. rewrite Hlt.
      replace (S n - n)%nat with 1%nat by lia. reflexivity. }
    rewrite (editorDelChar_merge _ r2 r1); simpl.
    + f_equal. apply config_ext; simpl; try reflexivity.
      * unfold isize. rewrite length_take. lia.
      * lia.
      * replace (Z.to_nat (cy E + 1 - 1)) with n by (subst n; lia).
        replace (Z.to_nat (cy E + 1)) with (S n) by (subst n; lia).
        rewrite (merge_rows _ _ _ _ _ Hprev Hcur). simpl.
        rewrite take_drop, (synced_row E _ row Hsync Hrow).
        rewrite Hrows1, take_app_length' by done.
        replace (S (S n)) with (length (take n (rows E)) + 2)%nat by lia.
        rewrite drop_app_add. simpl.
        by apply take_drop_middle.
    + lia.
    + reflexivity.
    + replace (Z.to_nat (cy E + 1)) with (S n) by (subst n; lia). exact Hcur.
    + replace (Z.to_nat (cy E + 1 - 1)) with n by (subst n; lia). exact Hprev.
Qed.

Lemma newline_then_backspace_restores_witness :
  exists E1,
    editorInsertNewline
      (set_cursor 1 0 (load_from_lines [lit "ab"] (initEditor 24 80))) = Some E1
    /\ editorDelChar E1
       = Some (set_dirty true
                 (set_cursor 1 0 (load_from_lines [lit "ab"] (initEditor 24 80)))).
Proof.
  apply (newline_then_backspace_restores
           (set_cursor 1 0 (load_from_lines [lit "ab"] (initEditor 24 80)))).
  - split; [vm_compute; discriminate|]. eexists. split; [reflexivity|].
    vm_compute. split; discriminate.
  - repeat constructor.
Defined.

End TextEdits.


(** ** Edit operations: derived fields and the dirty flag *)

Section DerivedFields.

Variable syn : option EditorSyntax.
Variable P : ERow -> Prop.
Hypothesis P_update : forall row, P (editorUpdateRow syn row).

Lemma keeps_insert_row at_ s E : keeps syn P E -> keeps syn P (editorInsertRow at_ s E).
Proof.
  intros [Hsyn HP]. unfold editorInsertRow. case_match; [by split|].
  split; [assumption|]. simpl. apply insert_at_Forall; [|assumption].
  rewrite Hsyn. apply P_update.
Qed.

Lemma keeps_del_row at_ E : keeps syn P E -> keeps syn P (editorDelRow at_ E).
Proof.
  intros [Hsyn HP]. unfold editorDelRow. case_match; [by split|].
  split; [assumption|]. simpl. by apply Forall_delete.
Qed.

Lemma keeps_set_row idx row0 E d :
  keeps syn P E ->
  keeps syn P (set_dirty d (set_rows (<[idx := editorUpdateRow (syntax E) row0]> (rows E)) E)).
Proof.
  intros [Hsyn HP]. split; [assumption|]. simpl.
  apply Forall_insert; [assumption|]. rewrite Hsyn. apply P_update.
Qed.

Lemma keeps_set_cursor x y E : keeps syn P E -> keeps syn P (set_cursor x y E).
Proof. trivial. Qed.

Lemma keeps_run_op op E E' : keeps syn P E -> run_op op E = Some E' -> keeps syn P E'.
Proof.
  intros HE. destruct op as [c| | |at_ s|at_|idx s]; simpl.
  - unfold editorInsertChar.
    set (E1 := if cy E =? isize (rows E) then _ else _).
    assert (HE1 : keeps syn P E1) by (subst E1; case_match; [by apply keeps_insert_row|done]).
    destruct (row_index E1 (cy E1)) as [idx|]; simpl; [|discriminate].
    unfold editorRowInsertChar.
    destruct (rows E1 !! idx) as [row|]; simpl; [|discriminate].
    intros [= <-]. apply keeps_set_cursor. by apply keeps_set_row.
  - unfold editorInsertNewline. destruct (cx E =? 0).
    + simpl. intros [= <-]. by apply keeps_set_cursor, keeps_insert_row.
    + destruct (row_index E (cy E)) as [idx|]; simpl; [|discriminate].
      destruct (rows E !! idx) as [row|]; simpl; [|discriminate].
      case_match; simpl; [|discriminate].
      intros [= <-]. apply keeps_set_cursor, keeps_insert_row.
      destruct HE as [Hsyn HP]. split; [assumption|]. simpl.
      apply Forall_insert; [assumption|]. rewrite Hsyn. apply P_update.
  - unfold editorDelChar.
    case_match; [by intros [= <-]|]. case_match; [by intros [= <-]|].
    destruct (row_index E (cy E)) as [idx|]; simpl; [|discriminate].
    destruct (rows E !! idx) as [row|] eqn:Hrow; simpl; [|discriminate].
    case_match.
    + unfold editorRowDelChar. rewrite Hrow. simpl.
      case_match; simpl; intros [= <-]; apply keeps_set_cursor;
        [assumption|by apply keeps_set_row].
    + destruct (row_index E (cy E - 1)) as [pidx|]; simpl; [|discriminate].
      destruct (rows E !! pidx) as [prev|] eqn:Hprev; simpl; [|discriminate].
      unfold editorRowAppendString. simpl. rewrite Hprev. simpl.
      intros [= <-]. apply keeps_set_cursor, keeps_del_row.
      by apply (keeps_set_row pidx _ (set_cursor _ _ E)).
  - intros [= <-]. by apply keeps_insert_row.
  - intros [= <-]. by apply keeps_del_row.
  - unfold editorRowAppendString.
    destruct (rows E !! idx) as [row|]; simpl; [|discriminate].
    intros [= <-]. by apply keeps_set_row.
Qed.

End DerivedFields.

(** Every edit operation leaves the rendered text and the highlight of
    every row equal to what [editorUpdateRow] computes from the row's raw
    text, and leaves the grammar as it is. *)
Theorem edit_operation_keeps_rows_synced (op : EditOp) (E E' : editorConfig) :
  rows_synced E -> run_op op E = Some E' ->
  rows_synced E' /\ syntax E' = syntax E.
Proof.
  intros Hs Hrun.
  destruct (keeps_run_op (syntax E)
              (fun row => editorUpdateRow (syntax E) row = row)
              ltac:(reflexivity) op E E' ltac:(by split) Hrun) as [Hsyn HP].
  split; [|assumption]. unfold rows_synced. by rewrite Hsyn.
Qed.

Lemma edit_operation_keeps_rows_synced_witness :
  rows_synced (set_cursor 0 1
                 (set_dirty true
                    (set_rows
                       [editorUpdateRow (Some HLDB0) (mkRow (lit "int") [] []);
                        editorUpdateRow (Some HLDB0) (mkRow (lit " x;") [] [])]
                       (set_syntax (Some HLDB0) (initEditor 24 80)))))
  /\ Some HLDB0 = Some HLDB0.
Proof.
  apply (edit_operation_keeps_rows_synced InsertNewline
           (set_cursor 3 0
              (load_from_lines [lit "int x;"]
                 (set_syntax (Some HLDB0) (initEditor 24 80))))).
  - repeat constructor.
  - vm_compute. reflexivity.
Defined.

(** An edit operation never clears the dirty flag, and sets it whenever it
    changes a row. *)
Theorem edit_operation_sets_dirty (op : EditOp) (E E' : editorConfig) :
  run_op op E = Some E' ->
  dirty E' = true \/ (rows E' = rows E /\ dirty E' = dirty E).
Proof.
  destruct op as [c| | |at_ s|at_|idx s]; simpl.
  - unfold editorInsertChar.
    destruct (row_index _ _) as [idx|]; simpl; [|discriminate].
    unfold editorRowInsertChar.
    destruct (_ !! idx) as [row|]; simpl; [|discriminate].
    intros [= <-]. by left.
  - unfold editorInsertNewline. destruct (cx E =? 0).
    + simpl. intros [= <-]. simpl. unfold editorInsertRow.
      case_match; simpl; auto.
    + destruct (row_index E (cy E)) as [idx|] eqn:Hidx; simpl; [|discriminate].
      destruct (rows E !! idx) as [row|]; simpl; [|discriminate].
      case_match; simpl; [|discriminate].
      intros [= <-]. left. simpl.
      unfold row_index in Hidx.
      destruct (Z.leb_spec 0 (cy E)), (Z.ltb_spec (cy E) (isize (rows E)));
        simpl in Hidx; try discriminate.
      rewrite editorInsertRow_in_range; [reflexivity|].
      simpl. unfold isize in *. rewrite length_insert. lia.
  - unfold editorDelChar.
    case_match; [intros [= <-]; auto|]. case_match; [intros [= <-]; auto|].
    destruct (row_index E (cy E)) as [idx|]; simpl; [|discriminate].
    destruct (rows E !! idx) as [row|] eqn:Hrow; simpl; [|discriminate].
    case_match.
    + unfold editorRowDelChar. rewrite Hrow. simpl.
      case_match; simpl; intros [= <-]; simpl; auto.
    + destruct (row_index E (cy E - 1)) as [pidx|]; simpl; [|discriminate].
      destruct (rows E !! pidx) as [prev|] eqn:Hprev; simpl; [|discriminate].
      unfold editorRowAppendString. simpl. rewrite Hprev. simpl.
      intros [= <-]. left. simpl. unfold editorDelRow. by case_match.
  - intros [= <-]. unfold editorInsertRow. case_match; simpl; auto.
  - intros [= <-]. unfold editorDelRow. case_match; simpl; auto.
  - unfold editorRowAppendString.
    destruct (rows E !! idx) as [row|]; simpl; [|discriminate].
    intros [= <-]. by left.
Qed.

Lemma edit_operation_sets_dirty_witness :
  dirty (set_cursor 1 0 (set_dirty true (set_rows
           [editorUpdateRow None (mkRow (lit "x") [] [])] (initEditor 24 80)))) = true
  \/ (rows (set_cursor 1 0 (set_dirty true (set_rows
              [editorUpdateRow None (mkRow (lit "x") [] [])] (initEditor 24 80))))
      = rows (initEditor 24 80)
      /\ dirty (set_cursor 1 0 (set_dirty true (set_rows
                  [editorUpdateRow None (mkRow (lit "x") [] [])] (initEditor 24 80))))
         = dirty (initEditor 24 80)).
Proof.
  apply (edit_operation_sets_dirty (InsertChar "x"%char) (initEditor 24 80)).
  reflexivity.
Defined.

(** ** Scrolling and cursor keys *)

Section ScrollAndMove.

(** The first statement of [editorScroll] sets [E.rx] to a value that
    depends on the cursor and the rows only. *)
Lemma editorScroll_rx E :
  0 <= cy E ->
  exists r,
    forall E2,
      cx E2 = cx E -> cy E2 = cy E -> rows E2 = rows E ->
      (if cy E2 <? isize (rows E2) then
         idx ← row_index E2 (cy E2);
         row ← rows E2 !! idx;
         Some (set_rx (editorRowCxToRx row (cx E2)) E2)
       else Some (set_rx 0 E2)) = Some (set_rx r E2).
Proof.
  intros Hcy. destruct (Z.ltb_spec (cy E) (isize (rows E))) as [Hlt|Hge].
  - destruct (row_index_Some E (cy E)) as [_ [row Hrow]]; [lia|].
    exists (editorRowCxToRx row (cx E)). intros E2 Hx Hy Hr.
    destruct (row_index_Some E2 (cy E2)) as [Hidx _]; [rewrite Hy, Hr; lia|].
    rewrite Hidx, Hx, Hy, Hr.
    destruct (Z.ltb_spec (cy E) (isize (rows E))); [|lia].
    simpl. rewrite Hrow. reflexivity.
  - exists 0. intros E2 Hx Hy Hr. rewrite Hy, Hr.
    destruct (Z.ltb_spec (cy E) (isize (rows E))); [lia|]. reflexivity.
Qed.


Lemma scroll_offset_nonneg off pos size :
  0 <= off -> 0 <= pos -> 0 <= scroll_offset off pos size.
Proof.
  intros Hoff Hpos. unfold scroll_offset. cbv zeta.
  destruct (Z.ltb_spec pos off);
    [destruct (Z.geb_spec pos (pos + size))|destruct (Z.geb_spec pos (off + size))];
    lia.
Qed.

(** [editorScroll] on a cursor with [E.cy >= 0]: the rendered column [r] of
    the cursor goes to [E.rx], and each offset is adjusted on its axis. *)
Lemma editorScroll_form E :
  0 <= cy E ->
  exists r,
    forall E0,
      cx E0 = cx E -> cy E0 = cy E -> rows E0 = rows E ->
      editorScroll E0
      = Some (set_coloff (scroll_offset (coloff E0) r (screencols E0))
                (set_rowoff (scroll_offset (rowoff E0) (cy E0) (screenrows E0))
                   (set_rx r E0))).
Proof.
  intros Hcy. destruct (editorScroll_rx E Hcy) as [r Hr]. exists r.
  intros E0 Hx Hy Hrs. unfold editorScroll. rewrite (Hr E0 Hx Hy Hrs).
  cbn [mbind option_bind]. f_equal. clear.
  destruct E0 as [x y r0 ro co sr sc d f m g rs].
  unfold scroll_offset, set_coloff, set_rowoff, set_rx. simpl.
  destruct (y <? ro); simpl;
    destruct (y >=? _ + sr); simpl;
    destruct (r <? co); simpl;
    destruct (r >=? _ + sc); simpl; reflexivity.
Qed.

Lemma editorRowCxToRx_loop_ge n : forall s j r,
  0 <= r -> r <= editorRowCxToRx_loop n s j r.
Proof.
  induction n as [|n IH]; intros s j r Hr; simpl; [lia|].
  pose proof (Z.rem_bound_pos r KILO_TAB_STOP Hr ltac:(unfold KILO_TAB_STOP; lia))
    as Hrem.
  unfold KILO_TAB_STOP in *.
  destruct (Ascii.eqb (char_at s j) TAB);
    (etransitivity; [|apply IH]); lia.
Qed.

(** The value [editorScroll] leaves in [E.rx]. *)
Lemma editorScroll_cursor_rx E E' :
  0 <= cy E -> editorScroll E = Some E' -> rx E' = cursor_rx E /\ 0 <= rx E'.
Proof.
  intros Hcy. destruct (editorScroll_form E Hcy) as [r Hform].
  pose proof (Hform E eq_refl eq_refl eq_refl) as Hscroll.
  intros HE'. rewrite Hscroll in HE'. injection HE' as <-. simpl.
  assert (Hr : r = cursor_rx E).
  { revert Hscroll. unfold editorScroll, cursor_rx.
    destruct (Z.ltb_spec (cy E) (isize (rows E))) as [Hlt|Hge].
    - destruct (row_index_Some E (cy E)) as [-> [row Hrow]]; [lia|].
      cbn [mbind option_bind]. rewrite Hrow. cbn [mbind option_bind].
      cbv zeta. intros [= H]. apply (f_equal rx) in H.
      repeat match type of H with
             | context [if ?b then _ else _] => destruct b
             end; simpl in H; congruence.
    - rewrite lookup_ge_None_2 by (unfold isize in Hge; lia).
      cbn [mbind option_bind]. cbv zeta. intros [= H]. apply (f_equal rx) in H.
      repeat match type of H with
             | context [if ?b then _ else _] => destruct b
             end; simpl in H; congruence. }
  split; [exact Hr|]. rewrite Hr. unfold cursor_rx.
  destruct (rows E !! Z.to_nat (cy E)) as [row|]; [|lia].
  apply editorRowCxToRx_loop_ge. lia.
Qed.



Lemma row_len_Some E k :
  0 <= k < isize (rows E) ->
  exists row, rows E !! Z.to_nat k = Some row /\ row_len E k = Some (isize (chars row)).
Proof.
  intros Hk. unfold row_len.
  destruct (row_index_Some E k Hk) as [-> [row Hrow]]. simpl.
  rewrite Hrow. eauto.
Qed.

Lemma match_nonempty {A B : Type} (l : list A) (x y : B) :
  l <> [] -> match l with [] => x | _ :: _ => y end = y.
Proof. by destruct l. Qed.

Lemma set_cursor_self E : set_cursor (cx E) (cy E) E = E.
Proof. by destruct E. Qed.

(** The last two statements of [editorMoveCursor], for a cursor on a row. *)
Lemma move_clamp E E1 :
  E1 = set_cursor (cx E1) (cy E1) E ->
  0 <= cx E1 -> 0 <= cy E1 < isize (rows E) ->
  exists E',
    (rowlen ← row_len E1 (cy E1);
     Some (if cx E1 >? rowlen then set_cursor rowlen (cy E1) E1 else E1)) = Some E'
    /\ E' = set_cursor (cx E') (cy E') E
    /\ cy E' = cy E1
    /\ cursor_on_row E'
    /\ (forall row, rows E !! Z.to_nat (cy E1) = Some row ->
        cx E1 <= isize (chars row) -> E' = E1).
Proof.
  intros HE1 Hx Hy.
  assert (Hrows : rows E1 = rows E) by (rewrite HE1; reflexivity).
  destruct (row_len_Some E1 (cy E1)) as (row & Hrow & ->); [by rewrite Hrows|].
  simpl. eexists. split; [reflexivity|].
  destruct (Z.gtb_spec (cx E1) (isize (chars row))) as [Hgt|Hle].
  - rewrite HE1 at 1 2 3. simpl. split; [reflexivity|]. split; [reflexivity|].
    split.
    + split; [simpl; lia|]. exists row. simpl. split; [assumption|].
      unfold isize. lia.
    + intros row' Hrow'. rewrite Hrows in Hrow. rewrite Hrow in Hrow'.
      injection Hrow' as <-. lia.
  - split; [assumption|]. split; [reflexivity|]. split; [|reflexivity].
    split; [lia|]. exists row. split; [assumption|lia].
Qed.

Lemma editorMoveCursor_on_row (key : Z) (E : editorConfig) :
  cursor_on_row E ->
  exists E',
    editorMoveCursor key E = Some E'
    /\ cursor_on_row E'
    /\ E' = set_cursor (cx E') (cy E') E.
Proof.
  intros (Hcy & row & Hrow & Hcx).
  pose proof (lookup_lt_Some _ _ _ Hrow) as Hn.
  assert (Hmove : forall E1,
             E1 = set_cursor (cx E1) (cy E1) E ->
             0 <= cx E1 -> 0 <= cy E1 < isize (rows E) ->
             exists E',
               (Some E1 ≫= fun E1 =>
                  rowlen ← row_len E1 (cy E1);
                  Some (if cx E1 >? rowlen then set_cursor rowlen (cy E1) E1 else E1))
               = Some E'
               /\ cursor_on_row E' /\ E' = set_cursor (cx E') (cy E') E).
  { intros E1 H1 H2 H3. destruct (move_clamp E E1 H1 H2 H3) as (E' & ? & ? & ? & ? & _).
    exists E'. simpl. auto. }
  unfold editorMoveCursor. rewrite match_nonempty by (intros Hnil; by rewrite Hnil in Hrow).
  assert (HE : E = set_cursor (cx E) (cy E) E) by (symmetry; apply set_cursor_self).
  unfold isize in *.
  destruct (key =? ARROW_LEFT).
  { destruct (Z.gtb_spec (cx E) 0).
    - apply Hmove; simpl; [reflexivity|lia|unfold isize; lia].
    - destruct (Z.gtb_spec (cy E) 0).
      + destruct (row_len_Some E (cy E - 1)) as (prev & _ & ->); [unfold isize; lia|].
        simpl. apply Hmove; simpl; [reflexivity|unfold isize; lia..].
      + apply Hmove; [assumption|lia|unfold isize; lia]. }
  destruct (key =? ARROW_RIGHT).
  { destruct (row_len_Some E (cy E)) as (row' & _ & ->); [unfold isize; lia|].
    simpl. destruct (_ <? _).
    - apply Hmove; simpl; [reflexivity|lia|unfold isize; lia].
    - destruct (Z.ltb_spec (cy E) (Z.of_nat (length (rows E)) - 1)).
      + apply Hmove; simpl; [reflexivity|lia|unfold isize; lia].
      + apply Hmove; [assumption|lia|unfold isize; lia]. }
  destruct (key =? ARROW_UP).
  { destruct (Z.gtb_spec (cy E) 0).
    - apply Hmove; simpl; [reflexivity|lia|unfold isize; lia].
    - apply Hmove; [assumption|lia|unfold isize; lia]. }
  destruct (key =? ARROW_DOWN).
  { destruct (Z.ltb_spec (cy E) (Z.of_nat (length (rows E)) - 1)).
    - apply Hmove; simpl; [reflexivity|lia|unfold isize; lia].
    - apply Hmove; [assumption|lia|unfold isize; lia]. }
  apply Hmove; [assumption|lia|unfold isize; lia].
Qed.

(** On a cursor that is on a row, every key leaves the cursor on a row and
    inside its raw text, and changes nothing but the cursor. *)
Theorem editorMoveCursor_keeps_cursor_on_row (key : Z) (E : editorConfig) :
  cursor_on_row E ->
  exists E',
    editorMoveCursor key E = Some E'
    /\ cursor_on_row E'
    /\ E' = set_cursor (cx E') (cy E') E.
Proof.
  intros Hon. exact (editorMoveCursor_on_row key E Hon).
Qed.

Lemma editorMoveCursor_keeps_cursor_on_row_witness :
  exists E',
    editorMoveCursor ARROW_DOWN
      (set_cursor 2 0 (load_from_lines [lit "abc"; lit "d"] (initEditor 24 80)))
    = Some E'
    /\ cursor_on_row E'
    /\ E' = set_cursor (cx E') (cy E')
              (set_cursor 2 0 (load_from_lines [lit "abc"; lit "d"] (initEditor 24 80))).
Proof.
  apply (editorMoveCursor_keeps_cursor_on_row ARROW_DOWN
           (set_cursor 2 0 (load_from_lines [lit "abc"; lit "d"] (initEditor 24 80)))).
  split; [vm_compute; discriminate|]. eexists. split; [reflexivity|].
  vm_compute. split; discriminate.
Defined.

Lemma row_len_out_of_range E k : isize (rows E) <= k -> row_len E k = None.
Proof.
  intros Hk. unfold row_len, row_index.
  destruct (Z.ltb_spec k (isize (rows E))); [lia|]. by rewrite andb_false_r.
Qed.

Lemma editorMoveCursor_virtual key E :
  rows E <> [] -> cy E = isize (rows E) ->
  key <> ARROW_LEFT -> key <> ARROW_UP ->
  editorMoveCursor key E = None.
Proof.
  intros Hne Hcy Hl Hu. unfold editorMoveCursor.
  rewrite match_nonempty by assumption.
  pose proof (row_len_out_of_range E (cy E) ltac:(lia)) as Hlen.
  destruct (Z.eqb_spec key ARROW_LEFT); [done|].
  destruct (Z.eqb_spec key ARROW_RIGHT); [by rewrite Hlen|].
  destruct (Z.eqb_spec key ARROW_UP); [done|].
  destruct (Z.eqb_spec key ARROW_DOWN).
  - destruct (Z.ltb_spec (cy E) (isize (rows E) - 1)); [lia|].
    simpl. by rewrite Hlen.
  - simpl. by rewrite Hlen.
Qed.

(** On the virtual row past the end of a non-empty document, every key but
    left and up makes [editorMoveCursor] read [E.rows[E.cy]] with
    [E.cy == E.rows.size()], outside the vector. Enter in the empty
    document leads to such a state. *)
Theorem editorMoveCursor_on_virtual_row :
  (forall key E,
      rows E <> [] -> cy E = isize (rows E) ->
      key <> ARROW_LEFT -> key <> ARROW_UP ->
      editorMoveCursor key E = None)
  /\ (forall r c,
        exists E1,
          editorInsertNewline (initEditor r c) = Some E1
          /\ rows E1 <> [] /\ cy E1 = isize (rows E1)).
Proof.
  split.
  - apply editorMoveCursor_virtual.
  - intros r c. eexists. split; [reflexivity|]. split; [discriminate|reflexivity].
Qed.

Lemma editorMoveCursor_on_virtual_row_witness :
  editorMoveCursor ARROW_DOWN
    (set_cursor 0 1 (load_from_lines [lit "ab"] (initEditor 24 80))) = None.
Proof.
  apply (proj1 editorMoveCursor_on_virtual_row ARROW_DOWN
           (set_cursor 0 1 (load_from_lines [lit "ab"] (initEditor 24 80))));
    vm_compute; congruence.
Defined.

(** Right and then left brings the cursor back, wherever right can move:
    inside a row, and from the end of a row that is not the last. *)
Theorem right_then_left_returns (E : editorConfig) (row : ERow) :
  0 <= cy E -> rows E !! Z.to_nat (cy E) = Some row ->
  0 <= cx E <= isize (chars row) ->
  cx E < isize (chars row) \/ cy E < isize (rows E) - 1 ->
  exists E1,
    editorMoveCursor ARROW_RIGHT E = Some E1
    /\ (cx E1, cy E1) <> (cx E, cy E)
    /\ editorMoveCursor ARROW_LEFT E1 = Some E.
Proof.
  intros Hcy Hrow Hcx Hmove.
  pose proof (lookup_lt_Some _ _ _ Hrow) as Hn.
  assert (Hne : rows E <> []) by (intros Hnil; by rewrite Hnil in Hrow).
  assert (Hlen : row_len E (cy E) = Some (isize (chars row))).
  { destruct (row_len_Some E (cy E)) as (row' & Hrow' & ->); [unfold isize; lia|].
    rewrite Hrow in Hrow'. by injection Hrow' as <-. }
  assert (Hclamp : forall E1,
             E1 = set_cursor (cx E1) (cy E1) E ->
             0 <= cx E1 -> 0 <= cy E1 < isize (rows E) ->
             (forall row1, rows E !! Z.to_nat (cy E1) = Some row1 ->
                           cx E1 <= isize (chars row1)) ->
             (rowlen ← row_len E1 (cy E1);
              Some (if cx E1 >? rowlen then set_cursor rowlen (cy E1) E1 else E1))
             = Some E1).
  { intros E1 H1 H2 H3 H4.
    destruct (move_clamp E E1 H1 H2 H3) as (E' & -> & _ & _ & _ & Hsame).
    destruct (lookup_lt_is_Some_2 (rows E) (Z.to_nat (cy E1))) as [row1 Hrow1];
      [unfold isize in H3; lia|].
    f_equal. eapply Hsame; [exact Hrow1|]. by apply H4. }
  unfold editorMoveCursor at 1. rewrite match_nonempty by assumption.
  change (ARROW_RIGHT =? ARROW_LEFT) with false.
  change (ARROW_RIGHT =? ARROW_RIGHT) with true. cbv iota.
  rewrite Hlen. cbn [mbind option_bind].
  destruct (Z.ltb_spec (cx E) (isize (chars row))) as [Hin|Hend].
  - cbn [mbind option_bind].
    rewrite (Hclamp (set_cursor (cx E + 1) (cy E) E)); simpl;
      [|reflexivity|lia|unfold isize; lia|].
    2:{ intros row1 Hrow1. rewrite Hrow in Hrow1. injection Hrow1 as <-. lia. }
    eexists. split; [reflexivity|]. simpl. split; [intros [= ?]; lia|].
    unfold editorMoveCursor. simpl rows. rewrite match_nonempty by assumption.
    change (ARROW_LEFT =? ARROW_LEFT) with true. cbv iota. simpl cx. simpl cy.
    destruct (Z.gtb_spec (cx E + 1) 0); [|lia]. cbn [mbind option_bind].
    rewrite (Hclamp (set_cursor (cx E + 1 - 1) (cy E)
                       (set_cursor (cx E + 1) (cy E) E))); simpl;
      [|reflexivity|lia|unfold isize; lia|].
    2:{ intros row1 Hrow1. rewrite Hrow in Hrow1. injection Hrow1 as <-. lia. }
    f_equal. apply config_ext; simpl; try reflexivity. lia.
  - assert (Hlast : cy E < isize (rows E) - 1) by lia.
    destruct (Z.ltb_spec (cy E) (isize (rows E) - 1)); [|lia].
    cbn [mbind option_bind].
    rewrite (Hclamp (set_cursor 0 (cy E + 1) E)); simpl;
      [|reflexivity|lia|unfold isize in *; lia|].
    2:{ intros row1 _. unfold isize. lia. }
    eexists. split; [reflexivity|]. simpl. split; [intros [= ? ?]; lia|].
    unfold editorMoveCursor. simpl rows. rewrite match_nonempty by assumption.
    change (ARROW_LEFT =? ARROW_LEFT) with true. cbv iota. simpl cx. simpl cy.
    change (0 >? 0) with false. cbv iota.
    destruct (Z.gtb_spec (cy E + 1) 0); [|lia].
    assert (Hlen1 : row_len (set_cursor 0 (cy E + 1) E) (cy E + 1 - 1)
                    = Some (isize (chars row))).
    { replace (cy E + 1 - 1) with (cy E) by lia. exact Hlen. }
    rewrite Hlen1. cbn [mbind option_bind].
    rewrite (Hclamp (set_cursor (isize (chars row)) (cy E + 1 - 1)
                       (set_cursor 0 (cy E + 1) E))); simpl;
      [|reflexivity|unfold isize; lia|unfold isize in *; lia|].
    2:{ intros row1 Hrow1. replace (cy E + 1 - 1) with (cy E) in Hrow1 by lia.
        rewrite Hrow in Hrow1. injection Hrow1 as <-. lia. }
    f_equal. apply config_ext; simpl; try reflexivity; lia.
Qed.

Lemma right_then_left_returns_witness :
  exists E1,
    editorMoveCursor ARROW_RIGHT
      (set_cursor 3 0 (load_from_lines [lit "abc"; lit "d"] (initEditor 24 80)))
    = Some E1
    /\ (cx E1, cy E1)
       <> (cx (set_cursor 3 0 (load_from_lines [lit "abc"; lit "d"] (initEditor 24 80))),
           cy (set_cursor 3 0 (load_from_lines [lit "abc"; lit "d"] (initEditor 24 80))))
    /\ editorMoveCursor ARROW_LEFT E1
       = Some (set_cursor 3 0 (load_from_lines [lit "abc"; lit "d"] (initEditor 24 80))).
Proof.
  apply (right_then_left_returns
           (set_cursor 3 0 (load_from_lines [lit "abc"; lit "d"] (initEditor 24 80)))
           (editorUpdateRow None (mkRow (lit "abc") [] []))).
  - vm_compute. discriminate.
  - reflexivity.
  - vm_compute. split; discriminate.
  - right. vm_compute. reflexivity.
Defined.

End ScrollAndMove.

(** ** Drawing: when a refresh returns *)

Section Refresh.

Lemma draw_cells_defined row off n : forall j cur,
  0 <= off + j ->
  (Z.to_nat (off + j) + n <= length (render row))%nat ->
  row_ok row ->
  is_Some (draw_cells row off n j cur).
Proof.
  induction n as [|n IH]; intros j cur Hj Hn Hlen; [by eexists|].
  cbn [draw_cells]. destruct (Z.leb_spec 0 (off + j)); [|lia].
  cbn [mbind option_bind]. unfold row_ok in Hlen.
  destruct (lookup_lt_is_Some_2 (render row) (Z.to_nat (off + j))) as [c ->];
    [lia|].
  destruct (lookup_lt_is_Some_2 (hl row) (Z.to_nat (off + j))) as [h ->];
    [lia|].
  cbn [mbind option_bind].
  assert (Hrest : forall cur', is_Some (draw_cells row off n (j + 1) cur')).
  { intros cur'. apply IH; [lia| |exact Hlen].
    replace (Z.to_nat (off + (j + 1))) with (S (Z.to_nat (off + j))) by lia. lia. }
  destruct h;
    match goal with
    | |- context [draw_cells row off n (j + 1) ?c] =>
        destruct (Hrest c) as [rest ->]
    end; by eexists.
Qed.

Lemma draw_text_row_defined E row :
  0 <= coloff E -> row_ok row -> is_Some (draw_text_row E row).
Proof.
  intros Hoff Hlen. unfold draw_text_row. cbv zeta.
  set (len := if (if isize (render row) - coloff E <? 0 then 0
                  else isize (render row) - coloff E) >? screencols E
              then screencols E
              else if isize (render row) - coloff E <? 0 then 0
                   else isize (render row) - coloff E).
  assert (Hn : Z.to_nat len = 0%nat
               \/ (Z.to_nat (coloff E) + Z.to_nat len <= length (render row))%nat).
  { subst len. unfold isize.
    destruct (Z.ltb_spec (Z.of_nat (length (render row)) - coloff E) 0);
      [destruct (Z.gtb_spec 0 (screencols E))
      |destruct (Z.gtb_spec (Z.of_nat (length (render row)) - coloff E)
                  (screencols E))]; lia. }
  destruct Hn as [-> | Hn]; [by eexists|].
  destruct (draw_cells_defined row (coloff E) (Z.to_nat len) 0 (-1)) as [cells ->];
    [lia| |assumption|by eexists].
  rewrite Z.add_0_r. exact Hn.
Qed.

Lemma draw_filler_defined E y : 0 <= screencols E -> is_Some (draw_filler E y).
Proof.
  intros Hsc. unfold draw_filler. destruct (_ && _); [|eauto].
  destruct (_ >? _); [|simpl; eauto].
  destruct (Z.ltb_spec (screencols E) 0); [lia|]. simpl. eauto.
Qed.

Lemma draw_line_defined E y :
  drawable E -> 0 <= y -> is_Some (draw_line E y).
Proof.
  intros (Hrows & Hro & Hco & (Hsc & _) & _) Hy. unfold draw_line. cbv zeta.
  destruct (Z.geb_spec (y + rowoff E) (isize (rows E))) as [Hpast|Hin].
  - destruct (draw_filler_defined E y Hsc) as [s ->]. by eexists.
  - destruct (Z.leb_spec 0 (y + rowoff E)); [|lia].
    destruct (lookup_lt_is_Some_2 (rows E) (Z.to_nat (y + rowoff E))) as [row Hrow];
      [unfold isize in Hin; lia|].
    rewrite Hrow. cbn [mbind option_bind].
    destruct (draw_text_row_defined E row Hco) as [body ->]; [|by eexists].
    eapply Forall_lookup_1 in Hrows; [|exact Hrow]. exact Hrows.
Qed.

Lemma draw_lines_defined E n : forall y,
  drawable E -> 0 <= y -> is_Some (draw_lines E n y).
Proof.
  induction n as [|n IH]; intros y Hd Hy; [by eexists|].
  cbn [draw_lines]. destruct (draw_line_defined E y Hd Hy) as [line ->].
  destruct (IH (y + 1) Hd ltac:(lia)) as [rest ->]. by eexists.
Qed.

Lemma editorDrawStatusBar_defined E ab :
  0 <= screencols E -> is_Some (editorDrawStatusBar E ab).
Proof.
  intros Hsc. unfold editorDrawStatusBar.
  destruct (_ >? _); [|by eexists].
  destruct (Z.ltb_spec (screencols E) 0); [lia|]. by eexists.
Qed.

Lemma editorDrawMessageBar_defined recent E ab :
  0 <= screencols E -> is_Some (editorDrawMessageBar recent E ab).
Proof.
  intros Hsc. unfold editorDrawMessageBar. cbv zeta.
  destruct (statusmsg E) as [|a m] eqn:Hm; [by eexists|].
  destruct recent; [|by eexists].
  match goal with |- context [?x <? 0] => destruct (Z.ltb_spec x 0) as [Hneg|] end;
    [|by eexists].
  exfalso. revert Hneg. unfold isize.
  destruct (_ >? _); lia.
Qed.



(** On a drawable state the drawing of a refresh returns. *)
Lemma drawable_draws recent E :
  drawable E -> exists out, editorRefreshScreen_draw recent E = Some out.
Proof.
  intros Hd. unfold editorRefreshScreen_draw, editorDrawRows.
  destruct (draw_lines_defined E (Z.to_nat (screenrows E)) 0 Hd ltac:(lia))
    as [out ->].
  cbn [mbind option_bind].
  destruct Hd as (_ & _ & _ & (Hsc & _) & _).
  destruct (editorDrawStatusBar_defined E
              ((ESC :: lit "[?25l" ++ ESC :: lit "[H") ++ out) Hsc) as [ab2 ->].
  cbn [mbind option_bind].
  destruct (editorDrawMessageBar_defined recent E ab2 Hsc) as [ab3 ->].
  cbn [mbind option_bind]. by eexists.
Qed.

(** [editorScroll] keeps a drawable state drawable. *)
Lemma editorScroll_drawable E E1 :
  0 <= cy E -> editorScroll E = Some E1 -> drawable E -> drawable E1.
Proof.
  intros Hcy Hscroll (Hrows & Hro & Hco & Hsc & Hsr).
  destruct (editorScroll_cursor_rx E E1 Hcy Hscroll) as [_ Hrx].
  destruct (editorScroll_form E Hcy) as [r Hform].
  rewrite (Hform E eq_refl eq_refl eq_refl) in Hscroll.
  injection Hscroll as <-. simpl in Hrx. unfold drawable. simpl.
  split; [exact Hrows|].
  split; [by apply scroll_offset_nonneg|].
  split; [by apply scroll_offset_nonneg|]. by split.
Qed.

Lemma drawable_frame E E' :
  rows E' = rows E -> rowoff E' = rowoff E -> coloff E' = coloff E ->
  screencols E' = screencols E -> screenrows E' = screenrows E ->
  drawable E -> drawable E'.
Proof.
  unfold drawable, rows_ok. intros -> -> -> -> ->. tauto.
Qed.

Lemma rows_synced_ok E : rows_synced E -> rows_ok E.
Proof.
  unfold rows_synced, rows_ok. intros H. eapply Forall_impl; [exact H|].
  intros row <-. apply editorUpdateRow_ok.
Qed.



End Refresh.

(** ** Search: what a search event finds and what it leaves alone *)

Section SearchResults.

Lemma string_find_from_least s q p0 :
  match string_find_from s q p0 with
  | Some pos =>
      (p0 <= pos)%nat /\ occurs_at s q (pos - p0)
      /\ forall p, (p < pos - p0)%nat -> ~ occurs_at s q p
  | None => forall p, ~ occurs_at s q p
  end.
Proof.
  revert p0. induction s as [|c s IH]; intros p0; simpl.
  - case_bool_decide as Hq.
    + rewrite Nat.sub_diag. split; [lia|]. split; [|lia].
      unfold occurs_at, substr. by rewrite drop_0.
    + intros p. unfold occurs_at, substr. rewrite drop_nil. exact Hq.
  - case_bool_decide as Hq.
    + rewrite Nat.sub_diag. split; [lia|]. split; [|lia].
      unfold occurs_at, substr. by rewrite drop_0.
    + specialize (IH (S p0)).
      destruct (string_find_from s q (S p0)) as [pos|].
      * destruct IH as (Hle & Hocc & Hleast). split; [lia|].
        replace (pos - p0)%nat with (S (pos - S p0)) by lia.
        split; [exact Hocc|].
        intros [|p] Hp; [unfold occurs_at, substr; by rewrite drop_0|].
        apply Hleast. lia.
      * intros [|p]; [unfold occurs_at, substr; by rewrite drop_0|]. apply IH.
Qed.

Lemma string_find_least s q :
  match string_find s q with
  | Some pos => occurs_at s q pos /\ forall p, (p < pos)%nat -> ~ occurs_at s q p
  | None => forall p, ~ occurs_at s q p
  end.
Proof.
  unfold string_find. pose proof (string_find_from_least s q 0) as H.
  destruct (string_find_from s q 0) as [pos|]; [|exact H].
  rewrite Nat.sub_0_r in H. tauto.
Qed.

(** A forward scan stops at the first row after [current] that holds the
    query; without a hit, none of the rows it went through holds it. *)
Lemma find_scan_forward_first n rs query current sc :
  -1 <= current ->
  (Z.to_nat (current + 1) + n <= length rs)%nat ->
  find_scan n rs query 1 current = Some sc ->
  match hit sc with
  | Some (c, pos) =>
      current < c
      /\ forall k row, current < k < c -> rs !! Z.to_nat k = Some row ->
                       string_find (chars row) query = None
  | None =>
      forall k row, current < k <= current + Z.of_nat n ->
                    rs !! Z.to_nat k = Some row ->
                    string_find (chars row) query = None
  end.
Proof.
  revert current sc. induction n as [|n IH]; intros current sc Hc Hn; simpl.
  - intros [= <-]. simpl. intros k row Hk. lia.
  - assert (Hnext : scan_next rs 1 current = current + 1).
    { unfold scan_next, isize.
      destruct (Z.eqb_spec (current + 1) (-1)); [lia|].
      destruct (Z.eqb_spec (current + 1) (Z.of_nat (length rs))); lia. }
    rewrite Hnext. case_match; [|discriminate].
    destruct (rs !! Z.to_nat (current + 1)) as [row|] eqn:Hrow; simpl; [|discriminate].
    destruct (string_find (chars row) query) as [pos|] eqn:Hfind.
    + intros [= <-]. simpl. split; [lia|]. intros k row' Hk. lia.
    + destruct (find_scan n rs query 1 (current + 1)) as [sc'|] eqn:Hsc; simpl;
        [|discriminate].
      intros [= <-]. simpl.
      specialize (IH (current + 1) sc' ltac:(lia) ltac:(lia) Hsc).
      destruct (hit sc') as [[c pos]|].
      * destruct IH as [Hlt Hnone]. split; [lia|].
        intros k row' Hk Hrow'.
        destruct (Z.eq_dec k (current + 1)) as [->|Hne].
        -- rewrite Hrow in Hrow'. by injection Hrow' as <-.
        -- eapply Hnone; [|exact Hrow']. lia.
      * intros k row' Hk Hrow'.
        destruct (Z.eq_dec k (current + 1)) as [->|Hne].
        -- rewrite Hrow in Hrow'. by injection Hrow' as <-.
        -- eapply IH; [|exact Hrow']. lia.
Qed.

Lemma map_insert_same {A B : Type} (f : A -> B) (l : list A) i x x' :
  l !! i = Some x -> f x' = f x -> map f (<[i := x']> l) = map f l.
Proof.
  intros Hl Hf. change (map f) with (fmap (M:=list) f).
  rewrite list_fmap_insert, Hf. apply list_insert_id.
  by rewrite list_lookup_fmap, Hl.
Qed.

Lemma find_restore_frame fs E fs1 E1 :
  find_restore fs E = Some (fs1, E1) ->
  map chars (rows E1) = map chars (rows E)
  /\ map render (rows E1) = map render (rows E)
  /\ E1 = set_rows (rows E1) E.
Proof.
  unfold find_restore. destruct (saved_hl fs) as [h|].
  - destruct (row_index E (saved_hl_line fs)) as [idx|]; simpl; [|discriminate].
    destruct (rows E !! idx) as [row|] eqn:Hrow; simpl; [|discriminate].
    intros [= <- <-]. simpl.
    rewrite !(map_insert_same _ _ _ _ _ Hrow) by reflexivity. auto.
  - intros [= <- <-]. repeat split. by destruct E.
Qed.

(** A search event never touches the raw or the rendered text of a row,
    the number of rows, the dirty flag, the grammar, the file name, the
    status message or the size of the window: it changes the highlight, the
    cursor and [rowoff] only. *)
Theorem search_event_leaves_text_alone
    (query : list ascii) (key : Z) (fs fs' : FindStatics) (E E' : editorConfig) :
  editorFindCallback query key fs E = Some (fs', E') ->
  map chars (rows E') = map chars (rows E)
  /\ map render (rows E') = map render (rows E)
  /\ E' = set_rows (rows E')
            (set_rowoff (rowoff E') (set_cursor (cx E') (cy E') E)).
Proof.
  unfold editorFindCallback, editorFindCallback_scan.
  destruct (find_restore fs E) as [[fs1 E1]|] eqn:Hres; simpl; [|discriminate].
  destruct (find_restore_frame _ _ _ _ Hres) as (Hc1 & Hr1 & HE1).
  destruct (find_key key fs1) as [fs2 returned].
  destruct returned.
  { simpl. intros [= <- <-]. split; [assumption|]. split; [assumption|].
    apply config_ext; simpl; try reflexivity; by rewrite HE1. }
  unfold find_search.
  destruct (find_scan _ _ _ _ _) as [sc|]; simpl; [|discriminate].
  destruct (hit sc) as [[c p]|].
  - unfold find_mark.
    destruct (rows E1 !! Z.to_nat c) as [row|] eqn:Hrow; simpl; [|discriminate].
    intros [= <- <-]. simpl.
    rewrite !(map_insert_same _ _ _ _ _ Hrow) by reflexivity.
    split; [assumption|]. split; [assumption|].
    apply config_ext; simpl; try reflexivity; by rewrite HE1.
  - simpl. intros [= <- <-]. split; [assumption|]. split; [assumption|].
    apply config_ext; simpl; try reflexivity; by rewrite HE1.
Qed.

Lemma search_event_leaves_text_alone_witness :
  map chars (rows (mkConfig 4 0 0 1 0 24 80 false [] [] (Some HLDB0)
                     [mkRow (lit "int foo") (lit "int foo")
                        (replicate 4 HL_NORMAL ++ replicate 3 HL_MATCH)]))
  = map chars (rows doc_int_foo)
  /\ map render (rows (mkConfig 4 0 0 1 0 24 80 false [] [] (Some HLDB0)
                         [mkRow (lit "int foo") (lit "int foo")
                            (replicate 4 HL_NORMAL ++ replicate 3 HL_MATCH)]))
     = map render (rows doc_int_foo)
  /\ mkConfig 4 0 0 1 0 24 80 false [] [] (Some HLDB0)
       [mkRow (lit "int foo") (lit "int foo")
          (replicate 4 HL_NORMAL ++ replicate 3 HL_MATCH)]
     = set_rows
         (rows (mkConfig 4 0 0 1 0 24 80 false [] [] (Some HLDB0)
                  [mkRow (lit "int foo") (lit "int foo")
                     (replicate 4 HL_NORMAL ++ replicate 3 HL_MATCH)]))
         (set_rowoff 1 (set_cursor 4 0 doc_int_foo)).
Proof.
  apply (search_event_leaves_text_alone (lit "foo") 111 find_statics_init
           (mkStatics 0 1 0 (Some (replicate 3 HL_KEYWORD2 ++ replicate 4 HL_NORMAL)))
           doc_int_foo).
  vm_compute. reflexivity.
Defined.

Lemma find_key_fresh key fs :
  key <> 13 -> key <> 27 ->
  last_match fs = -1
  \/ (key <> ARROW_RIGHT /\ key <> ARROW_DOWN /\ key <> ARROW_LEFT /\ key <> ARROW_UP) ->
  exists fs2,
    find_key key fs = (fs2, false)
    /\ last_match fs2 = -1
    /\ saved_hl fs2 = saved_hl fs
    /\ (direction fs2 = 1 \/ direction fs2 = -1).
Proof.
  intros H13 H27 Hfresh.
  unfold find_key, ARROW_LEFT, ARROW_UP, ARROW_RIGHT, ARROW_DOWN in *.
  destruct (Z.eqb_spec key 13); [lia|]. destruct (Z.eqb_spec key 27); [lia|].
  simpl.
  destruct (Z.eqb_spec key 1001), (Z.eqb_spec key 1003),
    (Z.eqb_spec key 1000), (Z.eqb_spec key 1002); simpl;
    eexists; (split; [reflexivity|]); simpl; repeat split; auto; lia.
Qed.

Lemma lookup_chars (rs : list ERow) (k : nat) (s : list ascii) :
  map chars rs !! k = Some s <-> exists row, rs !! k = Some row /\ chars row = s.
Proof.
  change (map chars) with (fmap (M:=list) chars). rewrite list_lookup_fmap.
  destruct (rs !! k) as [row|]; simpl; split.
  - intros [= <-]. eauto.
  - by intros (row' & [= <-] & <-).
  - discriminate.
  - by intros (row' & [=] & _).
Qed.

(** A search that starts afresh (no match before it, or a key that is not
    an arrow, which forgets the last match) goes through the rows from the
    top: it puts the cursor on the first row that holds the query, at the
    least column at which the query stands in that row; when no row holds
    the query the cursor stays where it was. *)
Theorem fresh_search_finds_first_occurrence
    (query : list ascii) (key : Z) (fs : FindStatics) (E : editorConfig) :
  slot_ok fs E ->
  key <> 13 -> key <> 27 ->
  last_match fs = -1
  \/ (key <> ARROW_RIGHT /\ key <> ARROW_DOWN /\ key <> ARROW_LEFT /\ key <> ARROW_UP) ->
  exists sc fs' E',
    editorFindCallback_scan query key fs E = Some (sc, (fs', E'))
    /\ match hit sc with
       | Some (c, pos) =>
           0 <= c /\ cy E' = c /\ cx E' = Z.of_nat pos /\ last_match fs' = c
           /\ (exists s,
                 map chars (rows E) !! Z.to_nat c = Some s
                 /\ occurs_at s query pos
                 /\ forall p, (p < pos)%nat -> ~ occurs_at s query p)
           /\ (forall k s,
                 (k < Z.to_nat c)%nat -> map chars (rows E) !! k = Some s ->
                 forall p, ~ occurs_at s query p)
       | None =>
           (forall s, s ∈ map chars (rows E) -> forall p, ~ occurs_at s query p)
           /\ cx E' = cx E /\ cy E' = cy E /\ last_match fs' = -1
       end.
Proof.
  intros Hslot H13 H27 Hfresh.
  destruct (find_restore_spec fs E Hslot) as (fs1 & E1 & Hres & Hfs1 & Hlen & _ & _).
  destruct (find_restore_frame _ _ _ _ Hres) as (Hc1 & _ & HE1).
  assert (Hfresh1 : last_match fs1 = -1
                    \/ (key <> ARROW_RIGHT /\ key <> ARROW_DOWN
                        /\ key <> ARROW_LEFT /\ key <> ARROW_UP)).
  { subst fs1. exact Hfresh. }
  destruct (find_key_fresh key fs1 H13 H27 Hfresh1) as (fs2 & Hkey & Hlm2 & _ & Hdir2).
  unfold editorFindCallback_scan. rewrite Hres. simpl. rewrite Hkey.
  assert (Hcur : cx E1 = cx E /\ cy E1 = cy E) by (rewrite HE1; auto).
  rewrite <- Hc1.
  destruct (rows E1) as [|row0 rs0] eqn:Hrs.
  { unfold find_search. rewrite Hrs, Hlm2. simpl.
    eexists _, _, _. split; [reflexivity|]. simpl.
    split; [intros s Hs; by apply elem_of_nil in Hs|]. tauto. }
  rewrite <- Hrs.
  destruct (find_search_spec query fs2 E1)
    as (sc & fs' & E' & Hsearch & _ & Hscan & _ & Hhit).
  { by rewrite Hrs. }
  { exact Hdir2. }
  { rewrite Hlm2. unfold isize. rewrite Hrs. cbn [length]. lia. }
  exists sc, fs', E'. split; [exact Hsearch|].
  assert (Hsd : scan_direction fs2 = 1) by (unfold scan_direction; by rewrite Hlm2).
  rewrite Hsd, Hlm2 in Hscan.
  pose proof (find_scan_forward_first (length (rows E1)) (rows E1) query (-1) sc
                ltac:(lia) ltac:(simpl; lia) Hscan)
    as Hfirst.
  destruct (hit sc) as [[c pos]|] eqn:Hh.
  - destruct Hhit as (row & Hrow & Hfind & Hl & _ & _ & Hy & Hx & _).
    destruct Hfirst as [Hlt Hnone].
    pose proof (string_find_least (chars row) query) as Hleast.
    rewrite Hfind in Hleast. destruct Hleast as [Hocc Hmin].
    split; [lia|]. split; [assumption|]. split; [assumption|].
    split; [assumption|]. split.
    + exists (chars row). split; [|auto]. apply lookup_chars. eauto.
    + intros k s Hk Hs p. apply lookup_chars in Hs as (row' & Hrow' & <-).
      specialize (Hnone (Z.of_nat k) row' ltac:(lia)).
      rewrite Nat2Z.id in Hnone. specialize (Hnone Hrow').
      pose proof (string_find_least (chars row') query) as Hl'.
      rewrite Hnone in Hl'. apply Hl'.
  - destruct Hhit as (-> & Hl & _). split.
    + intros s Hs p. apply list_elem_of_lookup in Hs as [k Hs].
      apply lookup_chars in Hs as (row' & Hrow' & <-).
      pose proof (lookup_lt_Some _ _ _ Hrow') as Hk.
      specialize (Hfirst (Z.of_nat k) row' ltac:(lia)).
      rewrite Nat2Z.id in Hfirst. specialize (Hfirst Hrow').
      pose proof (string_find_least (chars row') query) as Hl'.
      rewrite Hfirst in Hl'. apply Hl'.
    + rewrite Hl. tauto.
Qed.

Lemma fresh_search_finds_first_occurrence_witness :
  exists sc fs' E',
    editorFindCallback_scan (lit "ba") 97 find_statics_init (doc_foo None)
    = Some (sc, (fs', E'))
    /\ match hit sc with
       | Some (c, pos) =>
           0 <= c /\ cy E' = c /\ cx E' = Z.of_nat pos /\ last_match fs' = c
           /\ (exists s,
                 map chars (rows (doc_foo None)) !! Z.to_nat c = Some s
                 /\ occurs_at s (lit "ba") pos
                 /\ forall p, (p < pos)%nat -> ~ occurs_at s (lit "ba") p)
           /\ (forall k s,
                 (k < Z.to_nat c)%nat ->
                 map chars (rows (doc_foo None)) !! k = Some s ->
                 forall p, ~ occurs_at s (lit "ba") p)
       | None =>
           (forall s, s ∈ map chars (rows (doc_foo None)) ->
                      forall p, ~ occurs_at s (lit "ba") p)
           /\ cx E' = cx (doc_foo None) /\ cy E' = cy (doc_foo None)
           /\ last_match fs' = -1
       end.
Proof.
  apply (fresh_search_finds_first_occurrence (lit "ba") 97 find_statics_init
           (doc_foo None)).
  - intros H. exfalso. apply H. reflexivity.
  - lia.
  - lia.
  - left. reflexivity.
Defined.

(** Behind a tab the raw column of a match is not its rendered column, and
    the callback marks [hl], which has one class for each rendered byte,
    from the raw column on. In the row of a tab and "foo" the match of
    "foo" is at raw column 1, which is rendered column 8; the positions
    marked are 1 to 3, inside the padding of the tab, and the rendered
    columns 8 to 10, where "foo" is shown, stay [HL_NORMAL]. *)
Lemma match_behind_tab_marks_raw_columns :
  exists fs' E' row',
    editorFindCallback (lit "foo") 111 find_statics_init
      (load_from_lines [TAB :: lit "foo"] (initEditor 24 80))
    = Some (fs', E')
    /\ rows E' = [row']
    /\ cx E' = 1
    /\ editorRowCxToRx row' 1 = 8
    /\ render row' = replicate 8 " "%char ++ lit "foo"
    /\ hl row' = HL_NORMAL :: replicate 3 HL_MATCH ++ replicate 7 HL_NORMAL.
Proof.
  eexists _, _, _. split; [vm_compute; reflexivity|].
  split; [reflexivity|]. by repeat split.
Qed.

End SearchResults.

(** ** Search: a whole session of [editorFind] *)

Section SearchSession.

Lemma find_restore_statics fs E fs1 E1 :
  find_restore fs E = Some (fs1, E1) ->
  saved_hl fs1 = None /\ last_match fs1 = last_match fs
  /\ length (rows E1) = length (rows E).
Proof.
  unfold find_restore. destruct (saved_hl fs) as [h|] eqn:Hs.
  - destruct (row_index E (saved_hl_line fs)) as [idx|]; simpl; [|discriminate].
    destruct (rows E !! idx) as [row|]; simpl; [|discriminate].
    intros [= <- <-]. simpl. by rewrite length_insert.
  - intros [= <- <-]. auto.
Qed.

(** The restore step reads and writes the rows only. *)
Lemma find_restore_rows fs E fs1 E1 E2 :
  find_restore fs E = Some (fs1, E1) ->
  rows E2 = rows E ->
  find_restore fs E2 = Some (fs1, set_rows (rows E1) E2).
Proof.
  unfold find_restore, row_index. intros H Hrows. rewrite Hrows.
  destruct (saved_hl fs) as [h|].
  - destruct ((0 <=? saved_hl_line fs) && (saved_hl_line fs <? isize (rows E)));
      simpl in *; [|discriminate].
    destruct (rows E !! Z.to_nat (saved_hl_line fs)) as [row|]; simpl in *;
      [|discriminate].
    injection H as <- <-. reflexivity.
  - injection H as <- <-. rewrite <- Hrows. by destruct E2.
Qed.

Lemma same_settings_refl E : same_settings E E.
Proof. by repeat split. Qed.

Lemma same_settings_trans E0 E1 E2 :
  same_settings E0 E1 -> same_settings E1 E2 -> same_settings E0 E2.
Proof.
  unfold same_settings. intros (? & ? & ? & ? & ?) (? & ? & ? & ? & ?).
  repeat split; congruence.
Qed.

(** Whether the cursor is in the text depends on the cursor and the raw
    texts only. *)
Lemma cursor_ok_chars E E2 :
  cx E2 = cx E -> cy E2 = cy E -> map chars (rows E2) = map chars (rows E) ->
  cursor_ok E -> cursor_ok E2.
Proof.
  intros Hx Hy Hc (Hcy & Hcx & Hrow). unfold cursor_ok, isize in *.
  rewrite Hx, Hy.
  assert (Hlen : length (rows E2) = length (rows E)).
  { by rewrite <- (length_map chars (rows E2)), Hc, length_map. }
  rewrite Hlen. split; [assumption|]. split; [assumption|].
  intros Hne. destruct (Hrow Hne) as (row & Hl & Hle).
  assert (Hl2 : map chars (rows E2) !! Z.to_nat (cy E) = Some (chars row)).
  { rewrite Hc. apply lookup_chars. eauto. }
  apply lookup_chars in Hl2 as (row2 & Hrow2 & Hch). exists row2.
  split; [assumption|]. by rewrite Hch.
Qed.

Lemma search_state_ok_frame E0 fs E E2 :
  search_state_ok E0 fs E ->
  rows E2 = rows E -> cx E2 = cx E -> cy E2 = cy E ->
  (0 <= rowoff E -> 0 <= rowoff E2) ->
  (drawable E -> drawable E2) ->
  same_settings E E2 ->
  search_state_ok E0 fs E2.
Proof.
  intros (Hcy & Hlm & Hset & Hcur & Hoff & Hdraw & fs1 & E1 & Hres & Hrows)
    Hr Hx Hy Ho Hd Hs.
  split; [lia|]. split; [assumption|].
  split; [by eapply same_settings_trans|].
  split; [intros H0; apply (cursor_ok_chars E); auto; by rewrite Hr|].
  split; [auto|]. split; [auto|].
  eexists _, _. split; [by eapply find_restore_rows|]. assumption.
Qed.

(** The top of the loop of [editorPrompt]: the status message is set and
    the window scrolled. *)
Lemma prompt_refresh E0 fs E m :
  search_state_ok E0 fs E ->
  exists E1,
    editorRefreshScreen (editorSetStatusMessage m E) = Some E1
    /\ search_state_ok E0 fs E1
    /\ statusmsg E1 = take 79 m.
Proof.
  intros Hok. pose proof Hok as (Hcy & _).
  destruct (editorScroll_form (editorSetStatusMessage m E) Hcy) as [r Hform].
  pose proof (Hform _ eq_refl eq_refl eq_refl) as Hscroll.
  unfold editorRefreshScreen. rewrite Hscroll.
  eexists. split; [reflexivity|]. split; [|reflexivity].
  eapply search_state_ok_frame; [exact Hok| | | | | |]; try reflexivity.
  - simpl. intros Ho. by apply scroll_offset_nonneg.
  - intros Hd.
    apply (editorScroll_drawable (editorSetStatusMessage m E) _ Hcy Hscroll).
    by apply (drawable_frame E).
  - by repeat split.
Qed.

Lemma find_search_frame query fs E sc fs' E' :
  find_search query fs E = Some (sc, (fs', E')) ->
  same_settings E E' /\ statusmsg E' = statusmsg E
  /\ (0 <= rowoff E -> 0 <= rowoff E')
  /\ coloff E' = coloff E.
Proof.
  unfold find_search.
  destruct (find_scan _ _ _ _ _) as [sc0|]; simpl; [|discriminate].
  destruct (hit sc0) as [[c p]|].
  - unfold find_mark.
    destruct (rows E !! Z.to_nat c) as [row|]; simpl; [|discriminate].
    intros [= <- <- <-]. simpl.
    split; [by repeat split|]. split; [reflexivity|].
    split; [intros _; unfold isize; lia|]. reflexivity.
  - intros [= <- <- <-].
    split; [by repeat split|]. split; [reflexivity|]. split; [auto|].
    reflexivity.
Qed.

(** One call of the callback inside a session. *)
Lemma search_callback_step E0 query key fs E :
  search_state_ok E0 fs E ->
  exists fs' E',
    editorFindCallback query key fs E = Some (fs', E')
    /\ search_state_ok E0 fs' E'
    /\ statusmsg E' = statusmsg E
    /\ (key = 13 \/ key = 27 ->
        rows E' = rows E0 /\ saved_hl fs' = None
        /\ last_match fs' = -1 /\ direction fs' = 1).
Proof.
  intros (Hcy & Hlm & Hset & Hcur & Hoff & Hdraw & fs1 & E1 & Hres & Hrows).
  destruct (find_restore_statics _ _ _ _ Hres) as (Hs1 & Hl1 & Hlen1).
  destruct (find_restore_frame _ _ _ _ Hres) as (Hch1 & _ & HE1).
  assert (Hset1 : same_settings E0 E1 /\ cx E1 = cx E /\ cy E1 = cy E
                  /\ statusmsg E1 = statusmsg E /\ rowoff E1 = rowoff E
                  /\ coloff E1 = coloff E /\ screencols E1 = screencols E
                  /\ screenrows E1 = screenrows E).
  { rewrite HE1. unfold same_settings in *. simpl. tauto. }
  destruct Hset1 as (Hset1 & Hx1 & Hy1 & Hm1 & Ho1 & Hco1 & Hsc1 & Hsr1).
  assert (Hcur1 : cursor_ok E0 -> cursor_ok E1).
  { intros H0. apply (cursor_ok_chars E); auto. }
  assert (Hdraw1 : drawable E0 -> drawable E1).
  { intros H0. pose proof H0 as (Hr0 & _).
    destruct (Hdraw H0) as (_ & ? & ? & ? & ?).
    unfold drawable, rows_ok. rewrite Hrows, Ho1, Hco1, Hsc1, Hsr1. auto. }
  unfold editorFindCallback, editorFindCallback_scan. rewrite Hres. simpl.
  destruct (decide (key = 13 \/ key = 27)) as [Hret|Hret].
  { assert (Hkey : find_key key fs1
                   = (mkStatics (-1) 1 (saved_hl_line fs1) (saved_hl fs1), true)).
    { unfold find_key. destruct Hret as [-> | ->]; reflexivity. }
    rewrite Hkey. simpl. eexists _, _. split; [reflexivity|].
    split; [|split; [assumption|intros _; simpl; auto]].
    split; [lia|]. split; [simpl; unfold isize; lia|]. split; [assumption|].
    split; [assumption|]. split; [lia|]. split; [assumption|].
    unfold find_restore. simpl. rewrite Hs1. eauto. }
  destruct (find_key_spec key fs1) as (fs2 & Hkey & Hs2 & _ & Hd2 & _); [tauto..|].
  rewrite Hkey.
  assert (Hl2 : -1 <= last_match fs2 < isize (rows E1)).
  { rewrite Hrows. unfold isize in *. destruct Hd2 as [(_ & [->| ->])|(_ & _ & ->)]; lia. }
  assert (Hdir2 : direction fs2 = 1 \/ direction fs2 = -1) by tauto.
  rewrite Hs1 in Hs2.
  destruct (rows E1) as [|row0 rs0] eqn:Hrs.
  { unfold find_search. rewrite Hrs. simpl.
    eexists _, _. split; [reflexivity|].
    split; [|split; [assumption|tauto]].
    split; [lia|]. split.
    { rewrite <- Hrows. destruct (last_match fs2 =? -1); simpl; unfold isize in *; lia. }
    split; [assumption|]. split; [assumption|]. split; [lia|].
    split; [assumption|].
    unfold find_restore.
    replace (saved_hl (if last_match fs2 =? -1 then _ else fs2))
      with (@None (list editorHighlight))
      by (by destruct (last_match fs2 =? -1)).
    eexists _, _. split; [reflexivity|]. by rewrite Hrs. }
  rewrite <- Hrs in *.
  destruct (find_search_spec query fs2 E1)
    as (sc & fs' & E' & Hsearch & _ & Hscan & _ & Hhit);
    [by rewrite Hrs|assumption|assumption|].
  rewrite Hsearch. simpl. exists fs', E'. split; [reflexivity|].
  destruct (find_search_frame _ _ _ _ _ _ Hsearch) as (Hset' & Hm' & Ho' & Hco').
  split; [|split; [congruence|tauto]].
  destruct (hit sc) as [[c pos]|] eqn:Hh.
  - destruct (find_scan_hit _ _ _ _ _ _ _ _ Hscan Hh) as (Hc & _).
    destruct Hhit as (row & Hrow & Hfind & Hl' & Hsl' & Hsv' & Hy' & Hx' & Hrows').
    assert (Hlt : (Z.to_nat c < length (rows E1))%nat) by (unfold isize in Hc; lia).
    split; [lia|]. split; [rewrite Hl', <- Hrows; lia|].
    split; [by eapply same_settings_trans|].
    split.
    { intros _. unfold cursor_ok, isize in *. rewrite Hy', Hx', Hrows', length_insert.
      split; [lia|]. split; [lia|]. intros _. eexists.
      split; [by apply list_lookup_insert_eq|]. simpl.
      apply string_find_Some in Hfind as [_ Hle]. lia. }
    split; [intros H0; apply Ho'; lia|].
    split.
    { intros H0. destruct (Hdraw1 H0) as (Hr1 & Hro1 & Hc1 & Hsc1' & Hsr1').
      destruct Hset' as (Hsr' & Hsc' & _).
      unfold drawable, rows_ok. rewrite Hrows', Hco', Hsc', Hsr'.
      split; [|auto].
      apply Forall_insert; [exact Hr1|].
      unfold row_ok, overlay_hl. simpl.
      by rewrite fill_length, length_replicate. }
    unfold find_restore. rewrite Hsv', Hsl'.
    destruct (row_index_Some E' c) as [-> _].
    { unfold isize. rewrite Hrows', length_insert. exact Hc. }
    simpl. rewrite Hrows', list_lookup_insert_eq by exact Hlt. simpl.
    eexists _, _. split; [reflexivity|]. simpl.
    rewrite list_insert_insert_eq. rewrite <- Hrows.
    apply list_insert_id. rewrite Hrow. by destruct row.
  - destruct Hhit as (-> & Hl' & Hsv' & _).
    split; [lia|]. split; [rewrite Hl', <- Hrows; lia|]. split; [assumption|].
    split; [assumption|]. split; [lia|]. split; [assumption|].
    unfold find_restore. rewrite Hsv', Hs2. eauto.
Qed.

(** The loop of [editorPrompt] with the callback of the search. *)
Lemma search_prompt_loop E0 keys : forall input fs E,
  search_state_ok E0 fs E ->
  exists r fs' E',
    editorPrompt_loop find_prompt (Some editorFindCallback) keys input (fs, E)
    = Some (r, (fs', E'))
    /\ search_state_ok E0 fs' E'
    /\ match r with
       | Returned _ rest =>
           rows E' = rows E0 /\ saved_hl fs' = None
           /\ last_match fs' = -1 /\ direction fs' = 1 /\ statusmsg E' = []
           /\ rest `suffix_of` keys /\ (length rest < length keys)%nat
       | Reading _ => 27 ∉ keys
       end.
Proof.
  induction keys as [|c keys IH]; intros input fs E Hok.
  - cbn [editorPrompt_loop fst snd].
    destruct (prompt_refresh E0 fs E (take 255 (find_prompt input)) Hok)
      as (E1 & -> & Hok1 & _).
    simpl. eexists _, _, _. split; [reflexivity|]. split; [assumption|].
    apply not_elem_of_nil.
  - cbn [editorPrompt_loop fst snd].
    destruct (prompt_refresh E0 fs E (take 255 (find_prompt input)) Hok)
      as (E1 & -> & Hok1 & _).
    cbn [mbind option_bind fst snd call_callback].
    destruct ((c =? DEL_KEY) || (c =? Z.land 104 31) || (c =? BACKSPACE)) eqn:Hdel.
    { destruct (search_callback_step E0 (removelast input) c fs E1 Hok1)
        as (fs' & E' & -> & Hok' & _).
      cbn [mbind option_bind].
      destruct (IH (removelast input) fs' E' Hok') as (r & fs2 & E2 & -> & Hok2 & Hr).
      eexists _, _, _. split; [reflexivity|]. split; [assumption|].
      destruct r;
        [destruct Hr as (? & ? & ? & ? & ? & ? & ?); split_and!; try assumption;
         [by apply suffix_cons_r|simpl; lia]|]. rewrite not_elem_of_cons.
      split; [|assumption]. intros <-. discriminate. }
    destruct (Z.eqb_spec c 27) as [->|H27].
    { destruct (search_callback_step E0 input 27 fs (editorSetStatusMessage [] E1))
        as (fs' & E' & -> & Hok' & Hm & Hret).
      { eapply search_state_ok_frame; [exact Hok1| | | | | |];
          try reflexivity; auto.
        by repeat split. }
      cbn [mbind option_bind]. eexists _, _, _. split; [reflexivity|].
      split; [assumption|]. destruct Hret as (? & ? & ? & ?); [tauto|].
      split_and!; try assumption; [by apply suffix_cons_r|simpl; lia]. }
    destruct (Z.eqb_spec c 13) as [->|H13].
    { destruct input as [|a input].
      - destruct (search_callback_step E0 [] 13 fs E1 Hok1)
          as (fs' & E' & -> & Hok' & _).
        cbn [mbind option_bind].
        destruct (IH [] fs' E' Hok') as (r & fs2 & E2 & -> & Hok2 & Hr).
        eexists _, _, _. split; [reflexivity|]. split; [assumption|].
        destruct r;
        [destruct Hr as (? & ? & ? & ? & ? & ? & ?); split_and!; try assumption;
         [by apply suffix_cons_r|simpl; lia]|]. rewrite not_elem_of_cons.
        split; [lia|assumption].
      - destruct (search_callback_step E0 (a :: input) 13 fs
                    (editorSetStatusMessage [] E1))
          as (fs' & E' & -> & Hok' & Hm & Hret).
        { eapply search_state_ok_frame; [exact Hok1| | | | | |];
            try reflexivity; auto.
          by repeat split. }
        cbn [mbind option_bind]. eexists _, _, _. split; [reflexivity|].
        split; [assumption|]. destruct Hret as (? & ? & ? & ?); [tauto|].
        split_and!; try assumption; [by apply suffix_cons_r|simpl; lia]. }
    set (input' := if printable_key c then _ else input).
    destruct (search_callback_step E0 input' c fs E1 Hok1)
      as (fs' & E' & -> & Hok' & _).
    cbn [mbind option_bind].
    destruct (IH input' fs' E' Hok') as (r & fs2 & E2 & -> & Hok2 & Hr).
    eexists _, _, _. split; [reflexivity|]. split; [assumption|].
    destruct r;
        [destruct Hr as (? & ? & ? & ? & ? & ? & ?); split_and!; try assumption;
         [by apply suffix_cons_r|simpl; lia]|]. rewrite not_elem_of_cons.
    split; [congruence|assumption].
Qed.

(** What [editorFind] adds to the loop: the cursor and the offsets come
    back when the query returned is empty. *)
Lemma editorFind_session keys fs E :
  saved_hl fs = None ->
  -1 <= last_match fs < isize (rows E) ->
  0 <= cy E ->
  exists r fs' E',
    editorFind keys fs E = Some (r, (fs', E'))
    /\ same_settings E E'
    /\ (cursor_ok E -> cursor_ok E')
    /\ (0 <= rowoff E -> 0 <= rowoff E')
    /\ (drawable E -> drawable E')
    /\ match r with
       | Returned query rest =>
           rows E' = rows E
           /\ statusmsg E' = []
           /\ saved_hl fs' = None /\ last_match fs' = -1 /\ direction fs' = 1
           /\ rest `suffix_of` keys
           /\ (query = [] ->
               cx E' = cx E /\ cy E' = cy E
               /\ rowoff E' = rowoff E /\ coloff E' = coloff E)
       | Reading _ => 27 ∉ keys
       end.
Proof.
  intros Hsaved Hlm Hcy.
  assert (Hok : search_state_ok E fs E).
  { split; [assumption|]. split; [assumption|]. split; [apply same_settings_refl|].
    split; [auto|]. split; [auto|]. split; [auto|].
    unfold find_restore. rewrite Hsaved. eauto. }
  destruct (search_prompt_loop E keys [] fs E Hok)
    as (r & fs' & E' & Hloop & (_ & _ & Hset & Hcur & Hoff & Hdraw & _) & Hr).
  unfold editorFind, editorPrompt. rewrite Hloop. cbn [mbind option_bind].
  destruct r as [query rest|input].
  - destruct Hr as (Hrows & Hsv & Hl & Hd & Hm & Hsuf & Hlen).
    destruct query as [|a query].
    + eexists _, _, _. split; [reflexivity|]. split; [exact Hset|].
      split.
      { intros H0. apply (cursor_ok_chars E); simpl; auto. by rewrite Hrows. }
      split; [auto|].
      split.
      { intros H0. pose proof H0 as (? & ? & ? & ? & ?).
        destruct (Hdraw H0) as (Hr' & _ & _ & Hsc' & Hsr').
        unfold drawable. simpl. auto. }
      simpl. repeat split; assumption.
    + eexists _, _, _. split; [reflexivity|]. split; [exact Hset|].
      split; [assumption|]. split; [assumption|]. split; [assumption|].
      repeat split; try assumption; discriminate.
  - eexists _, _, _. split; [reflexivity|]. split; [exact Hset|]. auto.
Qed.



End SearchSession.

(** ** Keys: what [editorProcessKeypress] does with a key *)

Section Keys.

(** An edit operation changes the cursor, the dirty flag and the rows
    only. *)
Lemma run_op_frame op E E' : run_op op E = Some E' -> same_view E E'.
Proof.
  assert (Hrow : forall at_ s E0, same_view E0 (editorInsertRow at_ s E0)).
  { intros at_ s E0. unfold editorInsertRow. case_match; by repeat split. }
  assert (Hdel : forall at_ E0, same_view E0 (editorDelRow at_ E0)).
  { intros at_ E0. unfold editorDelRow. case_match; by repeat split. }
  destruct op as [c| | |at_ s|at_|idx s]; simpl.
  - unfold editorInsertChar.
    set (E1 := if cy E =? isize (rows E) then _ else E).
    assert (H1 : same_view E E1).
    { subst E1. case_match; [apply Hrow|by repeat split]. }
    destruct (row_index _ _) as [idx|]; simpl; [|discriminate].
    unfold editorRowInsertChar.
    destruct (_ !! idx) as [row|]; simpl; [|discriminate].
    intros [= <-]. exact H1.
  - unfold editorInsertNewline. destruct (cx E =? 0).
    + simpl. intros [= <-]. apply (Hrow (cy E) [] E).
    + destruct (row_index E (cy E)) as [idx|] eqn:Hidx; simpl; [|discriminate].
      destruct (rows E !! idx) as [row|]; simpl; [|discriminate].
      case_match; simpl; [|discriminate].
      intros [= <-]. apply (Hrow (cy E + 1) _ (set_rows _ E)).
  - unfold editorDelChar.
    case_match; [intros [= <-]; by repeat split|].
    case_match; [intros [= <-]; by repeat split|].
    destruct (row_index E (cy E)) as [idx|]; simpl; [|discriminate].
    destruct (rows E !! idx) as [row|] eqn:Hrow'; simpl; [|discriminate].
    case_match.
    + unfold editorRowDelChar. rewrite Hrow'. simpl.
      case_match; simpl; intros [= <-]; by repeat split.
    + destruct (row_index E (cy E - 1)) as [pidx|]; simpl; [|discriminate].
      destruct (rows E !! pidx) as [prev|] eqn:Hprev; simpl; [|discriminate].
      unfold editorRowAppendString. simpl. rewrite Hprev. simpl.
      intros [= <-]. apply (Hdel (cy E) (set_dirty true (set_rows _ (set_cursor _ _ E)))).
  - intros [= <-]. apply Hrow.
  - intros [= <-]. apply Hdel.
  - unfold editorRowAppendString.
    destruct (rows E !! idx) as [row|]; simpl; [|discriminate].
    intros [= <-]. by repeat split.
Qed.

Lemma editor_ok_edit fs op E E' :
  editor_ok fs E -> run_op op E = Some E' -> cursor_ok E' -> editor_ok fs E'.
Proof.
  intros (Hs & _ & Hoff & Hsr & Hname & Hsv & Hlm & Hco & Hsc) Hrun Hcur.
  destruct (run_op_frame _ _ _ Hrun) as (_ & Ho & Hc & Hr & Hc' & Hf & _ & Hy).
  destruct (keeps_run_op (syntax E)
              (fun row => editorUpdateRow (syntax E) row = row)
              ltac:(reflexivity) op E E' ltac:(by split) Hrun) as [Hsyn HP].
  split; [unfold rows_synced; by rewrite Hsyn|]. split; [assumption|].
  split; [lia|]. split; [lia|]. split; [rewrite Hf, Hy; exact Hname|].
  split; [assumption|]. split; [assumption|]. split; lia.
Qed.

Lemma editor_ok_set_cursor fs x y E :
  editor_ok fs E -> cursor_ok (set_cursor x y E) -> editor_ok fs (set_cursor x y E).
Proof.
  intros (Hs & _ & Hoff & Hsr & Hname & Hfs) Hcur.
  split; [exact Hs|]. split; [assumption|]. split; [assumption|].
  split; [assumption|]. split; [assumption|]. exact Hfs.
Qed.

(** Up, from any column and any row up to the virtual one, and down, from
    any column of a row, end inside the text of a row. *)
Lemma editorMoveCursor_up E :
  rows E <> [] -> 0 <= cx E -> 0 <= cy E <= isize (rows E) ->
  exists E',
    editorMoveCursor ARROW_UP E = Some E'
    /\ cursor_on_row E' /\ E' = set_cursor (cx E') (cy E') E.
Proof.
  intros Hne Hcx Hcy. unfold editorMoveCursor. rewrite match_nonempty by assumption.
  assert (Hsize : 0 < isize (rows E)).
  { unfold isize. destruct (rows E); [done|simpl; lia]. }
  cbn [Z.eqb ARROW_UP ARROW_LEFT ARROW_RIGHT]. simpl (_ =? _).
  destruct (Z.gtb_spec (cy E) 0).
  - destruct (move_clamp E (set_cursor (cx E) (cy E - 1) E))
      as (E' & Hm & HE' & _ & Hon & _); simpl; [reflexivity|lia|lia|].
    exists E'. simpl. auto.
  - destruct (move_clamp E E) as (E' & Hm & HE' & _ & Hon & _);
      [symmetry; apply set_cursor_self|lia|lia|].
    exists E'. simpl. auto.
Qed.

Lemma editorMoveCursor_down E :
  0 <= cx E -> 0 <= cy E < isize (rows E) ->
  exists E',
    editorMoveCursor ARROW_DOWN E = Some E'
    /\ cursor_on_row E' /\ E' = set_cursor (cx E') (cy E') E.
Proof.
  intros Hcx Hcy. unfold editorMoveCursor.
  rewrite match_nonempty
    by (intros Hnil; rewrite Hnil in Hcy; unfold isize in Hcy; simpl in Hcy; lia).
  simpl (_ =? _).
  destruct (Z.ltb_spec (cy E) (isize (rows E) - 1)).
  - destruct (move_clamp E (set_cursor (cx E) (cy E + 1) E))
      as (E' & Hm & HE' & _ & Hon & _); simpl; [reflexivity|lia|lia|].
    exists E'. simpl. auto.
  - destruct (move_clamp E E) as (E' & Hm & HE' & _ & Hon & _);
      [symmetry; apply set_cursor_self|lia|lia|].
    exists E'. simpl. auto.
Qed.

(** Left from the start of the virtual row goes to the end of the last
    row. *)
Lemma editorMoveCursor_left_virtual E :
  rows E <> [] -> cx E = 0 -> cy E = isize (rows E) ->
  exists E',
    editorMoveCursor ARROW_LEFT E = Some E'
    /\ cursor_on_row E' /\ E' = set_cursor (cx E') (cy E') E.
Proof.
  intros Hne Hcx Hcy. unfold editorMoveCursor. rewrite match_nonempty by assumption.
  assert (Hsize : 0 < isize (rows E)).
  { unfold isize. destruct (rows E); [done|simpl; lia]. }
  simpl (_ =? _). rewrite Hcx. simpl (0 >? 0).
  destruct (Z.gtb_spec (cy E) 0); [|lia].
  destruct (row_len_Some E (cy E - 1)) as (prev & Hprev & ->); [lia|].
  cbn [mbind option_bind].
  destruct (move_clamp E (set_cursor (isize (chars prev)) (cy E - 1) E))
    as (E' & Hm & HE' & _ & Hon & _); simpl; [reflexivity|unfold isize; lia|lia|].
  exists E'. auto.
Qed.

Lemma set_cursor_twice x y x' y' E :
  set_cursor x y (set_cursor x' y' E) = set_cursor x y E.
Proof. reflexivity. Qed.

Lemma move_times_on_row n key : forall E,
  cursor_on_row E ->
  exists E',
    move_times n key E = Some E'
    /\ cursor_on_row E' /\ E' = set_cursor (cx E') (cy E') E.
Proof.
  induction n as [|n IH]; intros E Hon; simpl.
  - exists E. split; [reflexivity|]. split; [assumption|].
    symmetry. apply set_cursor_self.
  - destruct (editorMoveCursor_on_row key E Hon) as (E1 & -> & Hon1 & HE1).
    simpl. destruct (IH E1 Hon1) as (E' & -> & Hon' & HE').
    exists E'. split; [reflexivity|]. split; [assumption|].
    rewrite HE', HE1 at 1. reflexivity.
Qed.

(** ** Prompts without a callback *)

Lemma same_document_refl E : same_document E E.
Proof. unfold same_document. auto using same_settings_refl. Qed.

Lemma same_document_trans E0 E1 E2 :
  same_document E0 E1 -> same_document E1 E2 -> same_document E0 E2.
Proof.
  intros (? & ? & ? & ? & ?) (? & ? & ? & ? & ?).
  repeat split; try congruence; [| | | | |auto];
    eapply same_settings_trans; eauto.
Qed.

Lemma refresh_same_document E m :
  0 <= cy E ->
  exists E1,
    editorRefreshScreen (editorSetStatusMessage m E) = Some E1
    /\ same_document E E1
    /\ (drawable E -> drawable E1).
Proof.
  intros Hcy.
  destruct (editorScroll_form (editorSetStatusMessage m E) Hcy) as [r Hform].
  pose proof (Hform _ eq_refl eq_refl eq_refl) as Hscroll.
  unfold editorRefreshScreen. rewrite Hscroll.
  eexists. split; [reflexivity|]. split.
  - unfold same_document. simpl.
    split; [reflexivity|]. split; [reflexivity|]. split; [reflexivity|].
    split; [by repeat split|]. intros Ho. by apply scroll_offset_nonneg.
  - intros Hd.
    apply (editorScroll_drawable (editorSetStatusMessage m E) _ Hcy Hscroll).
    by apply (drawable_frame E).
Qed.

(** A key that passes the test of [editorPrompt] is none of the keys the
    prompt handles before the test. *)
Lemma printable_key_plain c :
  printable_key c = true ->
  (c =? DEL_KEY) || (c =? Z.land 104 31) || (c =? BACKSPACE) = false
  /\ (c =? 27) = false /\ (c =? 13) = false.
Proof.
  unfold printable_key, iscntrl, DEL_KEY, BACKSPACE.
  change (Z.land 104 31) with 8.
  intros H. apply andb_true_iff in H as [Hc Hlt].
  apply negb_true_iff, orb_false_iff in Hc as [Hlow H127].
  apply Z.ltb_lt in Hlt. apply Z.eqb_neq in H127.
  assert (Hrange : ~ (0 <= c < 32)).
  { intros [? ?]. apply andb_false_iff in Hlow as [Hl|Hl];
      [apply Z.leb_gt in Hl|apply Z.ltb_ge in Hl]; lia. }
  split; [|split].
  - rewrite !orb_false_iff. repeat split; apply Z.eqb_neq; lia.
  - apply Z.eqb_neq. lia.
  - apply Z.eqb_neq. lia.
Qed.

Lemma plain_prompt_loop (prompt : list ascii -> list ascii) keys :
  forall input E,
    0 <= cy E ->
    exists r E',
      editorPrompt_loop prompt None keys input (tt, E) = Some (r, (tt, E'))
      /\ same_document E E'
      /\ (drawable E -> drawable E')
      /\ match r with
         | Returned _ rest => rest `suffix_of` keys
         | Reading _ => True
         end.
Proof.
  induction keys as [|c keys IH]; intros input E Hcy.
  - cbn [editorPrompt_loop fst snd].
    destruct (refresh_same_document E (take 255 (prompt input)) Hcy)
      as (E1 & -> & Hdoc & Hdraw).
    simpl. eauto 6.
  - cbn [editorPrompt_loop fst snd].
    destruct (refresh_same_document E (take 255 (prompt input)) Hcy)
      as (E1 & -> & Hdoc & Hdraw).
    cbn [mbind option_bind fst snd call_callback].
    assert (Hcy1 : 0 <= cy E1) by (destruct Hdoc as (_ & -> & _); exact Hcy).
    assert (Hmsg : same_document E (editorSetStatusMessage [] E1)).
    { eapply same_document_trans; [exact Hdoc|].
      unfold same_document. simpl. by repeat split. }
    assert (Hrec : forall input',
               exists r E',
                 editorPrompt_loop prompt None keys input' (tt, E1)
                 = Some (r, (tt, E'))
                 /\ same_document E E'
                 /\ (drawable E -> drawable E')
                 /\ match r with
                    | Returned _ rest => rest `suffix_of` c :: keys
                    | Reading _ => True
                    end).
    { intros input'.
      destruct (IH input' E1 Hcy1) as (r & E' & Hloop & Hdoc' & Hdraw' & Hr).
      exists r, E'. split; [assumption|].
      split; [by eapply same_document_trans|]. split; [auto|].
      destruct r; [by apply suffix_cons_r|exact I]. }
    destruct ((c =? DEL_KEY) || (c =? Z.land 104 31) || (c =? BACKSPACE));
      [apply Hrec|].
    destruct (c =? 27).
    { eexists _, _. split; [reflexivity|]. split; [assumption|].
      split; [exact Hdraw|]. by apply suffix_cons_r. }
    destruct (c =? 13).
    { destruct input as [|a input]; [apply Hrec|].
      eexists _, _. split; [reflexivity|]. split; [assumption|].
      split; [exact Hdraw|]. by apply suffix_cons_r. }
    apply Hrec.
Qed.

(** Keys that pass the test, then Enter: the prompt returns the bytes of
    the keys behind what was typed before, and leaves the keys behind
    Enter. *)
Lemma plain_prompt_typed (prompt : list ascii -> list ascii) ks rest :
  forall input E,
    0 <= cy E ->
    Forall (fun c => printable_key c = true) ks ->
    input ++ map to_char ks <> [] ->
    exists E',
      editorPrompt_loop prompt None (ks ++ 13 :: rest) input (tt, E)
      = Some (Returned (input ++ map to_char ks) rest, (tt, E')).
Proof.
  induction ks as [|c ks IH]; intros input E Hcy Hks Hne.
  - cbn [app editorPrompt_loop fst snd].
    destruct (refresh_same_document E (take 255 (prompt input)) Hcy)
      as (E1 & -> & _).
    cbn [mbind option_bind fst snd call_callback]. simpl (_ || _).
    cbv iota. simpl in Hne. rewrite app_nil_r in *.
    destruct input as [|a input]; [done|]. eexists. reflexivity.
  - cbn [app editorPrompt_loop fst snd].
    destruct (refresh_same_document E (take 255 (prompt input)) Hcy)
      as (E1 & -> & Hdoc & _).
    cbn [mbind option_bind fst snd call_callback].
    apply Forall_cons in Hks as [Hc Hks].
    destruct (printable_key_plain c Hc) as (-> & -> & ->). rewrite Hc.
    destruct (IH (input ++ [to_char c]) E1) as [E' ->].
    + destruct Hdoc as (_ & -> & _). exact Hcy.
    + exact Hks.
    + by rewrite <- app_assoc.
    + exists E'. by rewrite <- app_assoc.
Qed.

(** ** Saving *)

Lemma save_write_spec d E :
  let '(r, E') := save_write d E in
  same_view E (set_dirty (dirty E) (set_statusmsg (statusmsg E) E'))
  /\ cx E' = cx E /\ cy E' = cy E /\ rows E' = rows E
  /\ match r with
     | SaveWritten name buffer =>
         name = filename E /\ buffer = editorRowsToString E
         /\ dirty E' = false /\ can_open d name = true
     | SaveFailed => dirty E' = dirty E /\ can_open d (filename E) = false
     | _ => False
     end.
Proof.
  unfold save_write. destruct (can_open d (filename E)) eqn:Hopen; simpl.
  - by repeat split.
  - by repeat split.
Qed.

Lemma editorSave_spec d keys E :
  0 <= cy E ->
  exists r rest E',
    editorSave d keys E = Some (r, rest, E')
    /\ cx E' = cx E /\ cy E' = cy E /\ rows E' = rows E
    /\ screenrows E' = screenrows E /\ screencols E' = screencols E
    /\ (0 <= rowoff E -> 0 <= rowoff E')
    /\ (drawable E -> drawable E')
    /\ rest `suffix_of` keys
    /\ (filename E <> [] -> filename E' = filename E /\ syntax E' = syntax E)
    /\ (filename E = [] ->
        (filename E' = [] /\ syntax E' = syntax E)
        \/ (filename E' <> [] /\ syntax E' = None))
    /\ (filename E = [] ->
        forall ks rest0,
          keys = ks ++ 13 :: rest0 -> ks <> [] ->
          Forall (fun c => printable_key c = true) ks ->
          filename E' = map to_char ks /\ rest = rest0
          /\ r = if can_open d (map to_char ks)
                 then SaveWritten (map to_char ks) (editorRowsToString E)
                 else SaveFailed)
    /\ match r with
       | SaveWritten name buffer =>
           name = filename E' /\ buffer = editorRowsToString E
           /\ dirty E' = false /\ can_open d name = true
       | SaveFailed => dirty E' = dirty E /\ can_open d (filename E') = false
       | SaveAborted => dirty E' = dirty E /\ filename E = []
       | SaveReading _ => dirty E' = dirty E /\ filename E = [] /\ rest = []
       end.
Proof.
  intros Hcy. unfold editorSave. destruct (filename E) as [|a name] eqn:Hname.
  - destruct (plain_prompt_loop save_prompt keys [] E Hcy)
      as (r & E1 & Hloop & (Hx & Hy & Hrows & Hset & Hoff) & Hdraw & Hr).
    assert (Htyped : forall ks rest0,
               keys = ks ++ 13 :: rest0 -> ks <> [] ->
               Forall (fun c => printable_key c = true) ks ->
               r = Returned (map to_char ks) rest0).
    { intros ks rest0 -> Hne Hks.
      destruct (plain_prompt_typed save_prompt ks rest0 [] E Hcy Hks) as [E2 H2].
      { simpl. destruct ks; [done|discriminate]. }
      rewrite H2 in Hloop. by injection Hloop as <- _. }
    unfold editorPrompt. rewrite Hloop. cbn [mbind option_bind].
    destruct Hset as (Hsr & Hsc & Hd & Hf & Hsyn).
    destruct r as [[|b newName] rest|input].
    + eexists _, _, _. split; [reflexivity|]. simpl.
      split; [assumption|]. split; [assumption|]. split; [assumption|].
      split; [assumption|]. split; [assumption|]. split; [assumption|].
      split; [intros H0; by apply (drawable_frame E1); auto|].
      split; [assumption|]. split; [done|].
      split; [intros _; left; rewrite Hf, Hname; by split|].
      split; [|by split].
      intros _ ks rest0 Hk Hne Hks. specialize (Htyped ks rest0 Hk Hne Hks).
      injection Htyped as Hn _. destruct ks; [done|discriminate Hn].
    + assert (Hsel : editorSelectSyntaxHighlight E1 = set_syntax None E1).
      { unfold editorSelectSyntaxHighlight. simpl. rewrite Hf, Hname. reflexivity. }
      rewrite Hsel.
      pose proof (save_write_spec d (set_filename (b :: newName) (set_syntax None E1)))
        as Hw.
      assert (Hbuf : editorRowsToString
                       (set_filename (b :: newName) (set_syntax None E1))
                     = editorRowsToString E).
      { unfold editorRowsToString. simpl. by rewrite Hrows. }
      assert (Hres' : fst (save_write d
                             (set_filename (b :: newName) (set_syntax None E1)))
                      = if can_open d (b :: newName)
                        then SaveWritten (b :: newName) (editorRowsToString E)
                        else SaveFailed).
      { unfold save_write. rewrite Hbuf. simpl.
        by destruct (can_open d (b :: newName)). }
      destruct (save_write d _) as [res E3]. simpl in Hres'.
      destruct Hw as ((_ & Ho3 & Hco3 & Hsr3 & Hsc3 & Hf3 & _ & Hsyn3)
                      & Hx3 & Hy3 & Hrows3 & Hres).
      simpl in Ho3, Hco3, Hsr3, Hsc3, Hf3, Hsyn3, Hx3, Hy3, Hrows3, Hres.
      eexists _, _, _. split; [reflexivity|].
      split; [congruence|]. split; [congruence|]. split; [congruence|].
      split; [congruence|]. split; [congruence|].
      split; [intros H0; rewrite Ho3; auto|].
      split; [intros H0; apply (drawable_frame E1); auto|].
      split; [assumption|]. split; [done|].
      split; [intros _; right; rewrite Hf3, Hsyn3; by split|].
      split.
      { intros _ ks rest0 Hk Hne Hks. specialize (Htyped ks rest0 Hk Hne Hks).
        injection Htyped as Hn ->. rewrite Hf3, <- Hn. by split. }
      destruct res; try contradiction.
      * destruct Hres as (-> & -> & ? & ?). rewrite Hf3.
        split; [reflexivity|]. split; [exact Hbuf|]. by split.
      * rewrite Hf3. destruct Hres as [-> ?]. by split.
    + eexists _, _, _. split; [reflexivity|].
      split; [assumption|]. split; [assumption|]. split; [assumption|].
      split; [assumption|]. split; [assumption|]. split; [assumption|].
      split; [assumption|].
      split; [apply suffix_nil|]. split; [done|].
      split; [intros _; left; rewrite Hf, Hname; by split|].
      split; [|by repeat split].
      intros _ ks rest0 Hk Hne Hks. by specialize (Htyped ks rest0 Hk Hne Hks).
  - pose proof (save_write_spec d E) as Hw.
    destruct (save_write d E) as [res E1].
    destruct Hw as ((_ & Ho & Hco & Hsr & Hsc & Hf & _ & Hsyn)
                    & Hx & Hy & Hrows & Hres).
    simpl in Ho, Hco, Hsr, Hsc, Hf, Hsyn.
    eexists _, _, _. split; [reflexivity|].
    split; [assumption|]. split; [assumption|]. split; [assumption|].
    split; [assumption|]. split; [assumption|].
    split; [intros H0; by rewrite Ho|].
    split; [intros H0; by apply (drawable_frame E)|].
    split; [reflexivity|]. split; [intros _; by rewrite Hf, Hname|].
    split; [done|]. split; [done|].
    rewrite Hname in Hres. destruct res; try contradiction.
    + destruct Hres as (-> & -> & ? & ?). by rewrite Hf, Hname.
    + by rewrite Hf, Hname.
Qed.

Lemma editor_ok_drawable fs E : editor_ok fs E -> drawable E.
Proof.
  intros (Hs & _ & Hoff & _ & _ & _ & _ & Hco & Hsc).
  split; [by apply rows_synced_ok|]. auto.
Qed.

(** ** One key *)

Lemma editor_ok_cy fs E : editor_ok fs E -> 0 <= cy E <= isize (rows E) /\ 0 <= cx E.
Proof. intros (_ & (Hcy & Hcx & _) & _). auto. Qed.

Lemma cursor_ok_empty E : cursor_ok E -> rows E = [] -> cx E = 0 /\ cy E = 0.
Proof.
  intros (Hcy & Hcx & Hrow) Hnil. rewrite Hnil in *. unfold isize in Hcy.
  simpl in Hcy. split; [|lia].
  destruct (Z.eq_dec (cx E) 0) as [|Hne]; [assumption|].
  destruct (Hrow Hne) as (row & Hl & _). by rewrite lookup_nil in Hl.
Qed.

Lemma editorMoveCursor_empty key E : rows E = [] -> editorMoveCursor key E = Some E.
Proof. intros Hnil. unfold editorMoveCursor. by rewrite Hnil. Qed.

Lemma move_times_empty n key E : rows E = [] -> move_times n key E = Some E.
Proof.
  intros Hnil. induction n as [|n IH]; simpl; [reflexivity|].
  rewrite editorMoveCursor_empty by assumption. exact IH.
Qed.

Lemma editor_ok_moved fs E E' :
  editor_ok fs E -> E' = set_cursor (cx E') (cy E') E -> cursor_ok E' ->
  editor_ok fs E'.
Proof. intros Hok -> Hcur. by apply editor_ok_set_cursor. Qed.

Lemma editor_ok_statusmsg fs m E :
  editor_ok fs E -> editor_ok fs (editorSetStatusMessage m E).
Proof.
  intros (Hs & Hcur & Hoff & Hsr & Hname & Hfs).
  split; [exact Hs|]. split; [exact Hcur|]. split; [assumption|].
  split; [assumption|]. split; [assumption|]. exact Hfs.
Qed.

Lemma key_insert_char fs c E :
  editor_ok fs E ->
  exists E',
    editorInsertChar c E = Some E'
    /\ editor_ok fs E' /\ cursor_on_row E' /\ cx E' = cx E + 1.
Proof.
  intros Hok. pose proof Hok as (_ & Hcur & _).
  destruct (editorInsertChar_text c E Hcur) as (E' & Hins & _ & _ & Hon & Hx & _).
  exists E'. split; [assumption|]. split; [|by split].
  apply (editor_ok_edit fs (InsertChar c) E); [assumption..|].
  by apply cursor_on_row_ok.
Qed.

Lemma key_del_char fs E :
  editor_ok fs E ->
  exists E', editorDelChar E = Some E' /\ editor_ok fs E'.
Proof.
  intros Hok. pose proof Hok as (_ & Hcur & _).
  destruct (editorDelChar_text E Hcur) as (E' & Hdel & Hres).
  exists E'. split; [assumption|].
  apply (editor_ok_edit fs DelChar E); [assumption..|].
  destruct (_ && _).
  - apply cursor_on_row_ok. tauto.
  - by subst E'.
Qed.

Lemma key_insert_pair fs c1 c2 E :
  editor_ok fs E ->
  exists E1 E2,
    editorInsertChar c1 E = Some E1
    /\ editorInsertChar c2 E1 = Some E2
    /\ editor_ok fs (set_cursor (cx E2 - 1) (cy E2) E2).
Proof.
  intros Hok.
  destruct (key_insert_char fs c1 E Hok) as (E1 & Hins1 & Hok1 & Hon1 & Hx1).
  destruct (key_insert_char fs c2 E1 Hok1) as (E2 & Hins2 & Hok2 & Hon2 & Hx2).
  exists E1, E2. split; [assumption|]. split; [assumption|].
  apply editor_ok_set_cursor; [assumption|].
  apply cursor_on_row_ok. destruct Hon1 as (_ & row1 & _ & Hcx1).
  destruct Hon2 as (Hcy2 & row & Hrow & Hcx2).
  split; [exact Hcy2|]. exists row. split; [exact Hrow|]. simpl. lia.
Qed.

(** The arrow keys, from a cursor that is in the text or at the start of
    the virtual row. *)
Lemma key_arrow fs key E :
  editor_ok fs E ->
  key = ARROW_UP \/ key = ARROW_DOWN \/ key = ARROW_LEFT \/ key = ARROW_RIGHT ->
  match editorMoveCursor key E with
  | None =>
      rows E <> [] /\ cy E = isize (rows E)
      /\ (key = ARROW_RIGHT \/ key = ARROW_DOWN)
  | Some E' =>
      editor_ok fs E'
      /\ ~ (rows E <> [] /\ cy E = isize (rows E)
            /\ (key = ARROW_RIGHT \/ key = ARROW_DOWN))
  end.
Proof.
  intros Hok Hkey. pose proof Hok as (_ & Hcur & _).
  destruct (cursor_ok_cases E Hcur) as [[Hlt Hon]|[Hend Hcx]].
  - destruct (editorMoveCursor_on_row key E Hon) as (E' & -> & Hon' & HE').
    split; [|intros (_ & Heq & _); lia].
    eapply editor_ok_moved; [exact Hok|exact HE'|by apply cursor_on_row_ok].
  - destruct (rows E) as [|row0 rs0] eqn:Hrows.
    { rewrite editorMoveCursor_empty by assumption. split; [assumption|tauto]. }
    assert (Hne : rows E <> []) by (by rewrite Hrows).
    rewrite <- Hrows in *.
    destruct Hkey as [->|[->|[->| ->]]].
    + destruct (editorMoveCursor_up E Hne) as (E' & -> & Hon' & HE');
        [lia|unfold isize in *; lia|].
      split; [|intros (_ & _ & [H|H]); discriminate H].
      eapply editor_ok_moved; [exact Hok|exact HE'|by apply cursor_on_row_ok].
    + rewrite editorMoveCursor_virtual by (assumption || discriminate). auto.
    + destruct (editorMoveCursor_left_virtual E Hne Hcx Hend) as (E' & -> & Hon' & HE').
      split; [|intros (_ & _ & [H|H]); discriminate H].
      eapply editor_ok_moved; [exact Hok|exact HE'|by apply cursor_on_row_ok].
    + rewrite editorMoveCursor_virtual by (assumption || discriminate). auto.
Qed.

Lemma key_page_up fs E :
  editor_ok fs E -> rowoff E <= cy E ->
  exists E',
    move_times (Z.to_nat (screenrows E)) ARROW_UP (set_cursor (cx E) (rowoff E) E)
    = Some E'
    /\ editor_ok fs E'.
Proof.
  intros Hok Hscr. pose proof Hok as (_ & Hcur & Hoff & Hsr & _).
  pose proof (editor_ok_cy _ _ Hok) as (Hcy & Hcx).
  destruct (Z.to_nat (screenrows E)) as [|n] eqn:Hn; [lia|].
  destruct (rows E) as [|row0 rs0] eqn:Hrows.
  { rewrite move_times_empty by assumption. eexists. split; [reflexivity|].
    destruct (cursor_ok_empty E Hcur Hrows) as [Hx0 Hy0].
    apply editor_ok_set_cursor; [assumption|].
    unfold cursor_ok, isize. simpl. rewrite Hrows. simpl.
    split; [lia|]. split; [lia|]. intros Hne. lia. }
  assert (Hne : rows E <> []) by (by rewrite Hrows).
  rewrite <- Hrows in *. cbn [move_times].
  destruct (editorMoveCursor_up (set_cursor (cx E) (rowoff E) E))
    as (E1 & -> & Hon1 & HE1); simpl; [assumption|lia|lia|].
  cbn [mbind option_bind].
  destruct (move_times_on_row n ARROW_UP E1 Hon1) as (E' & -> & Hon' & HE').
  exists E'. split; [reflexivity|].
  eapply editor_ok_moved; [exact Hok| |by apply cursor_on_row_ok].
  rewrite HE', HE1 at 1. reflexivity.
Qed.

Lemma key_page_down fs E :
  editor_ok fs E ->
  let y := rowoff E + screenrows E - 1 in
  match move_times (Z.to_nat (screenrows E)) ARROW_DOWN
          (set_cursor (cx E) (if y >? isize (rows E) then isize (rows E) else y) E)
  with
  | None => rows E <> [] /\ isize (rows E) <= y
  | Some E' => editor_ok fs E' /\ ~ (rows E <> [] /\ isize (rows E) <= y)
  end.
Proof.
  intros Hok y. pose proof Hok as (_ & Hcur & Hoff & Hsr & _).
  pose proof (editor_ok_cy _ _ Hok) as (Hcy & Hcx).
  destruct (Z.to_nat (screenrows E)) as [|n] eqn:Hn; [lia|].
  set (y1 := if y >? isize (rows E) then isize (rows E) else y).
  assert (Hy1 : 0 <= y1 <= isize (rows E)
                /\ (isize (rows E) <= y -> y1 = isize (rows E))
                /\ (y < isize (rows E) -> y1 = y)).
  { subst y1 y. unfold isize in *. destruct (Z.gtb_spec (rowoff E + screenrows E - 1)
                                   (Z.of_nat (length (rows E)))); lia. }
  destruct Hy1 as (Hy1 & Hpast & Hin).
  destruct (rows E) as [|row0 rs0] eqn:Hrows.
  { rewrite move_times_empty by assumption. split; [|tauto].
    destruct (cursor_ok_empty E Hcur Hrows) as [Hx0 Hy0].
    apply editor_ok_set_cursor; [assumption|].
    unfold cursor_ok, isize in *. simpl. rewrite Hrows. simpl in *.
    split; [lia|]. split; [lia|]. intros Hne. lia. }
  assert (Hne : rows E <> []) by (by rewrite Hrows).
  rewrite <- Hrows in *. cbn [move_times].
  destruct (Z_lt_le_dec y (isize (rows E))) as [Hlt|Hge].
  - destruct (editorMoveCursor_down (set_cursor (cx E) y1 E))
      as (E1 & -> & Hon1 & HE1); simpl; [assumption|lia|].
    cbn [mbind option_bind].
    destruct (move_times_on_row n ARROW_DOWN E1 Hon1) as (E' & -> & Hon' & HE').
    split; [|intros [_ H]; lia].
    eapply editor_ok_moved; [exact Hok| |by apply cursor_on_row_ok].
    rewrite HE', HE1 at 1. reflexivity.
  - rewrite editorMoveCursor_virtual; simpl; [auto|assumption|auto|discriminate..].
Qed.

Ltac other_key :=
  let H := fresh in
  intros H; unfold reads_past_end, END_KEY, ARROW_RIGHT, ARROW_DOWN, DEL_KEY,
              PAGE_DOWN in H;
  destruct H as [[H _]|[(_ & _ & [H|[H|H]])|(H & _)]];
  first [discriminate H | lia].

(** [editorProcessKeypress] on a state that [main] keeps, after the
    window has followed the cursor. *)
Lemma editorProcessKeypress_spec d c keys qt fs E :
  editor_ok fs E -> rowoff E <= cy E ->
  match editorProcessKeypress d c keys qt fs E with
  | None => reads_past_end c E
  | Some o =>
      ~ reads_past_end c E
      /\ match o with
         | Next _ fs' E' rest _ => editor_ok fs' E' /\ rest `suffix_of` keys
         | Exit => c = CTRL_KEY 113 /\ (dirty E = false \/ qt <= 0)
         | InPrompt _ E' => (c = CTRL_KEY 115 \/ c = CTRL_KEY 102) /\ drawable E'
         end
  end.
Proof.
  intros Hok Hscr.
  pose proof Hok as (Hs & Hcur & Hoff & Hsr & Hname & Hsv & Hlm & Hco & Hsc).
  pose proof (editor_ok_drawable _ _ Hok) as Hdraw.
  pose proof (editor_ok_cy _ _ Hok) as (Hcy & Hcx).
  unfold editorProcessKeypress. cbv zeta.
  change (CTRL_KEY 113) with 17. change (CTRL_KEY 115) with 19.
  change (CTRL_KEY 102) with 6. change (CTRL_KEY 104) with 8.
  change (CTRL_KEY 108) with 12.
  destruct (Z.eqb_spec c 13) as [->|H13].
  { destruct (editorInsertNewline_text E Hcur)
      as (E' & Hnl & _ & _ & _ & _ & _ & Hcur').
    rewrite Hnl. simpl. split; [other_key|]. split; [|reflexivity].
    by apply (editor_ok_edit fs InsertNewline E). }
  destruct (Z.eqb_spec c 17) as [->|H17].
  { destruct (dirty E) eqn:Hd; simpl.
    - destruct (Z.gtb_spec qt 0).
      + split; [other_key|]. split; [|reflexivity]. by apply editor_ok_statusmsg.
      + split; [other_key|]. split; [reflexivity|]. right. lia.
    - split; [other_key|]. split; [reflexivity|]. by left. }
  destruct (Z.eqb_spec c 19) as [->|H19].
  { destruct (editorSave_spec d keys E ltac:(lia))
      as (r & rest & E' & -> & Hx & Hy & Hrows & Hsr' & _ & Hoff' & Hdraw' & Hlen
          & Hnamed & Hunnamed & _ & Hr).
    specialize (Hdraw' Hdraw).
    assert (Hsyn : syntax E' = syntax E
                   /\ (filename E' = [] -> syntax E' = None)).
    { destruct (filename E) as [|a name] eqn:Hf.
      - specialize (Hname eq_refl).
        destruct (Hunnamed eq_refl) as [[Hf' ->]|[Hf' ->]]; [by split|].
        split; [by rewrite Hname|]. intros H. by destruct Hf'.
      - destruct (Hnamed ltac:(done)) as [Hf' ->]. split; [reflexivity|].
        rewrite Hf'. discriminate. }
    assert (Hok' : editor_ok fs E').
    { split; [unfold rows_synced; by rewrite Hrows, (proj1 Hsyn)|].
      split; [apply (cursor_ok_chars E); auto; by rewrite Hrows|].
      split; [auto|]. split; [lia|]. split; [tauto|].
      split; [assumption|]. split; [assumption|].
      destruct Hdraw' as (_ & _ & ? & ?). by split. }
    destruct r; simpl; (split; [other_key|]); [by split..|].
    split; [by left|assumption]. }
  destruct (Z.eqb_spec c HOME_KEY) as [->|Hhome].
  { split; [other_key|]. split; [|reflexivity].
    apply editor_ok_set_cursor; [assumption|].
    split; [exact Hcy|]. split; [simpl; lia|]. simpl. intros H. by destruct H. }
  destruct (Z.eqb_spec c END_KEY) as [->|Hend].
  { destruct (Z.eq_dec (cy E) (isize (rows E))) as [Hv|Hv].
    - rewrite row_len_out_of_range by lia. simpl. left. by split.
    - destruct (row_len_Some E (cy E)) as (row & Hrow & ->); [lia|]. simpl.
      split.
      { intros [[_ H]|[(_ & _ & [H|[H|H]])|(H & _)]];
          first [discriminate H | contradiction]. }
      split; [|reflexivity]. apply editor_ok_set_cursor; [assumption|].
      apply cursor_on_row_ok. split; [simpl; lia|]. exists row. simpl.
      split; [assumption|]. unfold isize. lia. }
  destruct (Z.eqb_spec c 6) as [->|H6].
  { destruct (editorFind_session keys fs E Hsv ltac:(rewrite Hlm; unfold isize; lia)
                ltac:(lia))
      as (r & fs' & E' & -> & (Hsr' & _ & _ & Hf' & Hsyn') & Hcur' & Hoff'
          & Hdraw' & Hr).
    specialize (Hdraw' Hdraw).
    destruct r as [query rest|input]; simpl; (split; [other_key|]);
      [|split; [by right|assumption]].
    destruct Hr as (Hrows & _ & Hsv' & Hlm' & _ & Hlen & _).
    split; [|exact Hlen].
    split; [unfold rows_synced; by rewrite Hrows, Hsyn'|].
    split; [auto|]. split; [auto|]. split; [lia|].
    split; [rewrite Hf', Hsyn'; exact Hname|].
    split; [assumption|]. split; [assumption|].
    destruct Hdraw' as (_ & _ & ? & ?). by split. }
  destruct ((c =? BACKSPACE) || (c =? 8) || (c =? DEL_KEY)) eqn:Hback.
  { destruct (Z.eqb_spec c DEL_KEY) as [->|Hdel].
    - pose proof (key_arrow fs ARROW_RIGHT E Hok ltac:(auto)) as Hmove.
      destruct (editorMoveCursor ARROW_RIGHT E) as [E1|].
      + destruct Hmove as [Hok1 Hnot].
        destruct (key_del_char fs E1 Hok1) as (E' & Hdel & Hok').
        cbv iota. cbn [mbind option_bind]. rewrite Hdel.
        simpl. split; [|by split; [|reflexivity]].
        intros [[H _]|[(Hne & Hv & _)|(H & _)]]; [discriminate H| |discriminate H].
        apply Hnot. auto.
      + simpl. right. left. destruct Hmove as (Hne & Hv & _). auto.
    - destruct (key_del_char fs E Hok) as (E' & Hdel' & Hok').
      cbv iota. cbn [mbind option_bind]. rewrite Hdel'.
      simpl. split; [|by split; [|reflexivity]].
      apply orb_true_iff in Hback as [Hback|Hback]; [|discriminate Hback].
      apply orb_true_iff in Hback as [Hback|Hback];
        apply Z.eqb_eq in Hback; subst c; other_key. }
  destruct ((c =? PAGE_UP) || (c =? PAGE_DOWN)) eqn:Hpage.
  { destruct (Z.eqb_spec c PAGE_UP) as [->|Hup].
    - cbn [screenrows set_cursor]. destruct (Z.ltb_spec (screenrows E) 0); [lia|].
      destruct (key_page_up fs E Hok Hscr) as (E' & -> & Hok').
      simpl. split; [other_key|]. by split; [|reflexivity].
    - assert (c = PAGE_DOWN) as ->.
      { apply orb_true_iff in Hpage as [Hp|Hp]; [discriminate Hp|].
        by apply Z.eqb_eq in Hp. }
      cbn [screenrows set_cursor]. destruct (Z.ltb_spec (screenrows E) 0); [lia|].
      pose proof (key_page_down fs E Hok) as Hdown. cbv zeta in Hdown.
      destruct (move_times _ _ _) as [E'|].
      + destruct Hdown as [Hok' Hnot]. simpl. split; [|by split; [|reflexivity]].
        intros [[Hq _]|[(_ & _ & [Hq|[Hq|Hq]])|(_ & Hne & Hy)]];
          try discriminate Hq. apply Hnot. auto.
      + simpl. right. right. destruct Hdown. auto. }
  destruct ((c =? ARROW_UP) || (c =? ARROW_DOWN) || (c =? ARROW_LEFT)
            || (c =? ARROW_RIGHT)) eqn:Harrow.
  { assert (Hkey : c = ARROW_UP \/ c = ARROW_DOWN \/ c = ARROW_LEFT \/ c = ARROW_RIGHT).
    { rewrite !orb_true_iff, !Z.eqb_eq in Harrow. tauto. }
    pose proof (key_arrow fs c E Hok Hkey) as Hmove.
    destruct (editorMoveCursor c E) as [E'|].
    - destruct Hmove as [Hok' Hnot]. simpl. split; [|by split; [|reflexivity]].
      intros [[H _]|[(Hne & Hv & [H|[H|H]])|(H & _)]].
      + subst c. destruct Hkey as [H|[H|[H|H]]]; discriminate H.
      + apply Hnot. auto.
      + apply Hnot. auto.
      + subst c. destruct Hkey as [H|[H|[H|H]]]; discriminate H.
      + subst c. destruct Hkey as [H|[H|[H|H]]]; discriminate H.
    - simpl. right. left. destruct Hmove as (Hne & Hv & [H|H]); auto. }
  assert (Hother : ~ reads_past_end c E).
  { repeat match goal with
           | H : _ || _ = false |- _ => apply orb_false_iff in H as [? ?]
           end.
    repeat match goal with
           | H : (_ =? _) = false |- _ => apply Z.eqb_neq in H
           end.
    intros [[Hq _]|[(_ & _ & [Hq|[Hq|Hq]])|(Hq & _)]]; contradiction. }
  destruct ((c =? 12) || (c =? 27)).
  { split; [assumption|]. by split; [|reflexivity]. }
  destruct (Z.eqb_spec c 123) as [->|H123].
  { destruct (key_insert_pair fs (to_char 123) "}"%char E Hok)
      as (E1 & E2 & -> & Hins2 & Hok').
    cbn [mbind option_bind]. rewrite Hins2. simpl.
    split; [assumption|]. by split; [|reflexivity]. }
  destruct (Z.eqb_spec c 40) as [->|H40].
  { destruct (key_insert_pair fs (to_char 40) ")"%char E Hok)
      as (E1 & E2 & -> & Hins2 & Hok').
    cbn [mbind option_bind]. rewrite Hins2. simpl.
    split; [assumption|]. by split; [|reflexivity]. }
  destruct (key_insert_char fs (to_char c) E Hok) as (E' & -> & Hok' & _).
  simpl. split; [assumption|]. by split; [|reflexivity].
Qed.

(** ** Delete and the pairs of brackets, on the serialized text *)

Lemma editorMoveCursor_right E row :
  0 <= cy E -> rows E !! Z.to_nat (cy E) = Some row ->
  0 <= cx E <= isize (chars row) ->
  editorMoveCursor ARROW_RIGHT E
  = Some (if cx E <? isize (chars row) then set_cursor (cx E + 1) (cy E) E
          else if cy E <? isize (rows E) - 1 then set_cursor 0 (cy E + 1) E
          else E).
Proof.
  intros Hcy Hrow Hcx.
  pose proof (lookup_lt_Some _ _ _ Hrow) as Hn.
  assert (Hne : rows E <> []) by (intros Hnil; by rewrite Hnil in Hrow).
  assert (Hlen : row_len E (cy E) = Some (isize (chars row))).
  { destruct (row_len_Some E (cy E)) as (row' & Hrow' & ->); [unfold isize; lia|].
    rewrite Hrow in Hrow'. by injection Hrow' as <-. }
  assert (Hclamp : forall E1,
             E1 = set_cursor (cx E1) (cy E1) E ->
             0 <= cx E1 -> 0 <= cy E1 < isize (rows E) ->
             (forall row1, rows E !! Z.to_nat (cy E1) = Some row1 ->
                           cx E1 <= isize (chars row1)) ->
             (rowlen ← row_len E1 (cy E1);
              Some (if cx E1 >? rowlen then set_cursor rowlen (cy E1) E1 else E1))
             = Some E1).
  { intros E1 H1 H2 H3 H4.
    destruct (move_clamp E E1 H1 H2 H3) as (E' & -> & _ & _ & _ & Hsame).
    destruct (lookup_lt_is_Some_2 (rows E) (Z.to_nat (cy E1))) as [row1 Hrow1];
      [unfold isize in H3; lia|].
    f_equal. eapply Hsame; [exact Hrow1|]. by apply H4. }
  unfold editorMoveCursor. rewrite match_nonempty by assumption.
  change (ARROW_RIGHT =? ARROW_LEFT) with false.
  change (ARROW_RIGHT =? ARROW_RIGHT) with true. cbv iota.
  rewrite Hlen. cbn [mbind option_bind].
  destruct (Z.ltb_spec (cx E) (isize (chars row))) as [Hin|Hend].
  - cbn [mbind option_bind].
    apply (Hclamp (set_cursor (cx E + 1) (cy E) E)); simpl;
      [reflexivity|lia|unfold isize; lia|].
    intros row1 Hrow1. rewrite Hrow in Hrow1. injection Hrow1 as <-. lia.
  - destruct (Z.ltb_spec (cy E) (isize (rows E) - 1)).
    + cbn [mbind option_bind].
      apply (Hclamp (set_cursor 0 (cy E + 1) E)); simpl;
        [reflexivity|lia|unfold isize in *; lia|].
      intros row1 _. unfold isize. lia.
    + cbn [mbind option_bind]. apply (Hclamp E);
        [symmetry; apply set_cursor_self|lia|unfold isize; lia|].
      intros row1 Hrow1. rewrite Hrow in Hrow1. injection Hrow1 as <-. lia.
Qed.

Lemma cursor_offset_le E :
  cursor_on_row E -> (cursor_offset E < length (editorRowsToString E))%nat.
Proof.
  intros (Hcy & row & Hrow & Hcx). rewrite editorRowsToString_text.
  rewrite (text_of_lookup _ _ _ Hrow). unfold cursor_offset.
  rewrite !length_app. simpl. unfold isize in Hcx. lia.
Qed.

Lemma insert_at_twice {A : Type} (k : nat) (x y : A) (v : list A) :
  (k <= length v)%nat ->
  insert_at (S k) y (insert_at k x v) = take k v ++ [x; y] ++ drop k v.
Proof.
  intros Hk. unfold insert_at.
  assert (Hlen : length (take k v) = k) by (rewrite length_take; lia).
  replace (S k) with (length (take k v) + 1)%nat by lia.
  rewrite take_app_add, drop_app_add. simpl. by rewrite <- app_assoc.
Qed.

(** A key [{] or [(] puts the pair of brackets into the serialized text
    at the cursor and leaves the cursor between the two; on the virtual
    row past the end the pair makes a new last line. *)
Theorem bracket_key_inserts_pair
    (d : Disk) (c : Z) (keys : list Z) (qt : Z) (fs : FindStatics)
    (E : editorConfig) :
  cursor_ok E ->
  c = 123 \/ c = 40 ->
  let closing := if c =? 123 then "}"%char else ")"%char in
  exists E',
    editorProcessKeypress d c keys qt fs E
    = Some (Next KILO_QUIT_TIMES fs E' keys None)
    /\ editorRowsToString E'
       = (if cy E <? isize (rows E)
          then take (cursor_offset E) (editorRowsToString E)
               ++ [to_char c; closing]
               ++ drop (cursor_offset E) (editorRowsToString E)
          else editorRowsToString E ++ [to_char c; closing; LF])
    /\ cursor_offset E' = S (cursor_offset E)
    /\ cursor_on_row E'.
Proof.
  intros Hcur Hc closing.
  destruct (editorInsertChar_text (to_char c) E Hcur)
    as (E1 & Hins1 & Htext1 & Hoff1 & Hon1 & Hx1 & Hy1).
  destruct (editorInsertChar_text closing E1 (cursor_on_row_ok _ Hon1))
    as (E2 & Hins2 & Htext2 & Hoff2 & Hon2 & Hx2 & Hy2).
  assert (Hrow1 : (cy E1 <? isize (rows E1)) = true).
  { destruct Hon1 as (Hcy1 & row1 & Hl1 & _).
    apply lookup_lt_Some in Hl1. apply Z.ltb_lt. unfold isize. lia. }
  rewrite Hrow1 in Htext2.
  assert (Hkey : editorProcessKeypress d c keys qt fs E
                 = Some (Next KILO_QUIT_TIMES fs
                           (set_cursor (cx E2 - 1) (cy E2) E2) keys None)).
  { unfold editorProcessKeypress. subst closing.
    destruct Hc as [-> | ->]; simpl (_ =? _); simpl (_ || _); cbv iota zeta;
      rewrite Hins1; cbn [mbind option_bind]; simpl (_ =? _) in Hins2;
      cbv iota in Hins2; rewrite Hins2; reflexivity. }
  exists (set_cursor (cx E2 - 1) (cy E2) E2). split; [exact Hkey|].
  destruct Hon1 as (Hcy1 & row1 & Hl1 & Hcx1).
  destruct Hon2 as (Hcy2 & row2 & Hl2 & Hcx2).
  split; [|split].
  - change (editorRowsToString (set_cursor (cx E2 - 1) (cy E2) E2))
      with (editorRowsToString E2).
    rewrite Htext2, Hoff1, Htext1.
    destruct (cursor_ok_cases E Hcur) as [[Hlt Hon]|[Hend Hcx]].
    + rewrite (proj2 (Z.ltb_lt _ _) Hlt). apply insert_at_twice.
      pose proof (cursor_offset_le E Hon). lia.
    + destruct (Z.ltb_spec (cy E) (isize (rows E))); [lia|].
      assert (Hoff : cursor_offset E = length (editorRowsToString E)).
      { unfold cursor_offset. rewrite Hend, Hcx, editorRowsToString_text.
        unfold isize. rewrite Nat2Z.id, firstn_all. simpl. lia. }
      rewrite Hoff. unfold insert_at.
      replace (S (length (editorRowsToString E)))
        with (length (editorRowsToString E) + 1)%nat by lia.
      rewrite take_app_add, drop_app_add. simpl. by rewrite <- app_assoc.
  - unfold cursor_offset in *. simpl. lia.
  - split; [exact Hcy2|]. exists row2. split; [exact Hl2|]. simpl. lia.
Qed.

Lemma bracket_key_inserts_pair_witness :
  exists E',
    editorProcessKeypress (mkDisk (fun _ => true) []) 123 [] 3 find_statics_init
      (set_cursor 1 0 (load_from_lines [lit "ab"] (initEditor 24 80)))
    = Some (Next KILO_QUIT_TIMES find_statics_init E' [] None)
    /\ editorRowsToString E'
       = (if cy (set_cursor 1 0 (load_from_lines [lit "ab"] (initEditor 24 80)))
             <? isize (rows (set_cursor 1 0
                               (load_from_lines [lit "ab"] (initEditor 24 80))))
          then take (cursor_offset
                       (set_cursor 1 0 (load_from_lines [lit "ab"] (initEditor 24 80))))
                 (editorRowsToString
                    (set_cursor 1 0 (load_from_lines [lit "ab"] (initEditor 24 80))))
               ++ [to_char 123; "}"%char]
               ++ drop (cursor_offset
                          (set_cursor 1 0
                             (load_from_lines [lit "ab"] (initEditor 24 80))))
                    (editorRowsToString
                       (set_cursor 1 0 (load_from_lines [lit "ab"] (initEditor 24 80))))
          else editorRowsToString
                 (set_cursor 1 0 (load_from_lines [lit "ab"] (initEditor 24 80)))
               ++ [to_char 123; "}"%char; LF])
    /\ cursor_offset E'
       = S (cursor_offset
              (set_cursor 1 0 (load_from_lines [lit "ab"] (initEditor 24 80))))
    /\ cursor_on_row E'.
Proof.
  apply (bracket_key_inserts_pair (mkDisk (fun _ => true) []) 123 [] 3
           find_statics_init
           (set_cursor 1 0 (load_from_lines [lit "ab"] (initEditor 24 80)))).
  - split; [vm_compute; split; discriminate|].
    split; [vm_compute; discriminate|].
    intros _. eexists. split; [reflexivity|]. vm_compute. discriminate.
  - left. reflexivity.
Defined.

(** The Delete key removes the byte at the cursor from the serialized text
    (the newline, at the end of a row that is not the last) and leaves the
    cursor where it is. At the end of the last row, where there is nothing
    to delete, it does what Backspace does. *)
Theorem delete_key_removes_byte_at_cursor
    (d : Disk) (keys : list Z) (qt : Z) (fs : FindStatics)
    (E : editorConfig) (row : ERow) :
  0 <= cy E -> rows E !! Z.to_nat (cy E) = Some row ->
  0 <= cx E <= isize (chars row) ->
  exists E',
    editorProcessKeypress d DEL_KEY keys qt fs E
    = Some (Next KILO_QUIT_TIMES fs E' keys None)
    /\ if (cx E <? isize (chars row)) || (cy E <? isize (rows E) - 1)
       then editorRowsToString E'
            = delete (cursor_offset E) (editorRowsToString E)
            /\ cursor_offset E' = cursor_offset E
       else editorDelChar E = Some E'.
Proof.
  intros Hcy Hrow Hcx.
  pose proof (lookup_lt_Some _ _ _ Hrow) as Hn.
  set (E1 := if cx E <? isize (chars row) then set_cursor (cx E + 1) (cy E) E
             else if cy E <? isize (rows E) - 1 then set_cursor 0 (cy E + 1) E
             else E).
  assert (Hmove : editorMoveCursor ARROW_RIGHT E = Some E1)
    by (by apply editorMoveCursor_right).
  assert (Hcur1 : cursor_ok E1).
  { apply cursor_on_row_ok. subst E1.
    destruct (Z.ltb_spec (cx E) (isize (chars row))).
    - split; [simpl; lia|]. exists row. simpl. split; [assumption|lia].
    - destruct (Z.ltb_spec (cy E) (isize (rows E) - 1)).
      + destruct (lookup_lt_is_Some_2 (rows E) (Z.to_nat (cy E + 1))) as [row' Hrow'];
          [unfold isize in *; lia|].
        split; [simpl; lia|]. exists row'. simpl. split; [assumption|].
        unfold isize. lia.
      + split; [assumption|]. exists row. split; [assumption|lia]. }
  destruct (editorDelChar_text E1 Hcur1) as (E' & Hdel & Hres).
  assert (Hkey : editorProcessKeypress d DEL_KEY keys qt fs E
                 = Some (Next KILO_QUIT_TIMES fs E' keys None)).
  { unfold editorProcessKeypress. simpl (_ =? _). simpl (_ || _). cbv iota zeta.
    rewrite Hmove. cbn [mbind option_bind]. rewrite Hdel. reflexivity. }
  exists E'. split; [exact Hkey|].
  assert (Hrows1 : rows E1 = rows E).
  { subst E1. by repeat case_match. }
  assert (Htext1 : editorRowsToString E1 = editorRowsToString E).
  { unfold editorRowsToString. by rewrite Hrows1. }
  subst E1.
  destruct (Z.ltb_spec (cx E) (isize (chars row))) as [Hin|Hend].
  - simpl orb. cbv iota.
    simpl in Hres.
    destruct (Z.ltb_spec (cy E) (isize (rows E))); [|unfold isize in *; lia].
    destruct (Z.eqb_spec (cx E + 1) 0); [lia|]. simpl in Hres.
    destruct Hres as (Htext & Hoff & _). rewrite Htext, Hoff, Htext1.
    unfold cursor_offset. simpl.
    replace (length (text_of (take (Z.to_nat (cy E)) (rows E)))
             + Z.to_nat (cx E + 1) - 1)%nat
      with (length (text_of (take (Z.to_nat (cy E)) (rows E))) + Z.to_nat (cx E))%nat
      by lia.
    by split.
  - destruct (Z.ltb_spec (cy E) (isize (rows E) - 1)) as [Hmid|Hlast].
    + simpl orb. cbv iota. simpl in Hres.
      destruct (Z.ltb_spec (cy E + 1) (isize (rows E))); [|lia].
      destruct (Z.eqb_spec (cy E + 1) 0); [lia|]. simpl in Hres.
      destruct Hres as (Htext & Hoff & _). rewrite Htext, Hoff, Htext1.
      assert (Hnext : cursor_offset (set_cursor 0 (cy E + 1) E)
                      = S (cursor_offset E)).
      { unfold cursor_offset. simpl.
        replace (Z.to_nat (cy E + 1)) with (S (Z.to_nat (cy E))) by lia.
        rewrite (take_S_r _ _ _ Hrow), text_of_app, text_of_cons, !length_app.
        simpl. unfold isize in *. lia. }
      rewrite Hnext. simpl. by rewrite Nat.sub_0_r.
    + simpl orb. cbv iota. exact Hdel.
Qed.

Lemma delete_key_removes_byte_at_cursor_witness :
  exists E',
    editorProcessKeypress (mkDisk (fun _ => true) []) DEL_KEY [] 3 find_statics_init
      (set_cursor 2 0 (load_from_lines [lit "ab"; lit "c"] (initEditor 24 80)))
    = Some (Next KILO_QUIT_TIMES find_statics_init E' [] None)
    /\ if (cx (set_cursor 2 0 (load_from_lines [lit "ab"; lit "c"] (initEditor 24 80)))
           <? isize (chars (editorUpdateRow None (mkRow (lit "ab") [] []))))
          || (cy (set_cursor 2 0
                    (load_from_lines [lit "ab"; lit "c"] (initEditor 24 80)))
              <? isize (rows (set_cursor 2 0
                                (load_from_lines [lit "ab"; lit "c"]
                                   (initEditor 24 80)))) - 1)
       then editorRowsToString E'
            = delete (cursor_offset
                        (set_cursor 2 0
                           (load_from_lines [lit "ab"; lit "c"] (initEditor 24 80))))
                (editorRowsToString
                   (set_cursor 2 0
                      (load_from_lines [lit "ab"; lit "c"] (initEditor 24 80))))
            /\ cursor_offset E'
               = cursor_offset
                   (set_cursor 2 0
                      (load_from_lines [lit "ab"; lit "c"] (initEditor 24 80)))
       else editorDelChar
              (set_cursor 2 0 (load_from_lines [lit "ab"; lit "c"] (initEditor 24 80)))
            = Some E'.
Proof.
  apply (delete_key_removes_byte_at_cursor (mkDisk (fun _ => true) []) [] 3
           find_statics_init
           (set_cursor 2 0 (load_from_lines [lit "ab"; lit "c"] (initEditor 24 80)))
           (editorUpdateRow None (mkRow (lit "ab") [] []))).
  - vm_compute. discriminate.
  - reflexivity.
  - vm_compute. split; discriminate.
Defined.

(** ** What a key can do *)

(** From a state that [main] keeps, a key either makes
    [editorProcessKeypress] read [E.rows[E.cy]] past the end of the vector
    (End, right, down, Delete and Page Down, in the states [reads_past_end]
    lists, and no other key in no other state), or the call is defined.
    When it returns, the rows still carry the rendered text and the
    highlight of their raw text, the cursor is in the text or at the start
    of the virtual row, the search is at rest, neither [coloff] nor the
    width of the window is negative, and no key is read that was not given.
    Ctrl-S without a file name and Ctrl-F read the keys that follow in a
    prompt, any [int]s [editorReadKey] may return, and the prompt draws the
    screen before it reads each of them. When the keys given end inside the
    prompt, the state is the one just drawn, and the drawing has returned:
    its bytes are [out]. As the keys are arbitrary, this is so at every
    refresh of a prompt, which is where the call on the keys read so far
    stands. *)
Theorem keypress_reads_past_end_or_keeps_state
    (d : Disk) (c : Z) (keys : list Z) (qt : Z) (fs : FindStatics)
    (E : editorConfig) (recent : bool) :
  editor_ok fs E -> rowoff E <= cy E ->
  (editorProcessKeypress d c keys qt fs E = None <-> reads_past_end c E)
  /\ (forall qt' fs' E' rest written,
        editorProcessKeypress d c keys qt fs E
        = Some (Next qt' fs' E' rest written) ->
        editor_ok fs' E' /\ rest `suffix_of` keys)
  /\ (forall fs' E',
        editorProcessKeypress d c keys qt fs E = Some (InPrompt fs' E') ->
        (c = CTRL_KEY 115 \/ c = CTRL_KEY 102)
        /\ exists out, editorRefreshScreen_draw recent E' = Some out).
Proof.
  intros Hok Hscr.
  pose proof (editorProcessKeypress_spec d c keys qt fs E Hok Hscr) as Hspec.
  destruct (editorProcessKeypress d c keys qt fs E) as [o|].
  - destruct Hspec as [Hnot Ho]. split; [|split].
    + split; [discriminate|]. intros H. by destruct Hnot.
    + intros qt' fs' E' rest written [= ->]. exact Ho.
    + intros fs' E' [= ->]. destruct Ho as [Hc Hd]. split; [exact Hc|].
      by apply drawable_draws.
  - split; [by split|]. split; discriminate.
Qed.

Lemma keypress_reads_past_end_or_keeps_state_witness :
  (editorProcessKeypress (mkDisk (fun _ => true) []) (CTRL_KEY 115) [-61; -87] 3
     find_statics_init (load_from_lines [lit "ab"] (initEditor 24 80)) = None
   <-> reads_past_end (CTRL_KEY 115)
         (load_from_lines [lit "ab"] (initEditor 24 80)))
  /\ (forall qt' fs' E' rest written,
        editorProcessKeypress (mkDisk (fun _ => true) []) (CTRL_KEY 115)
          [-61; -87] 3 find_statics_init
          (load_from_lines [lit "ab"] (initEditor 24 80))
        = Some (Next qt' fs' E' rest written) ->
        editor_ok fs' E' /\ rest `suffix_of` [-61; -87])
  /\ (forall fs' E',
        editorProcessKeypress (mkDisk (fun _ => true) []) (CTRL_KEY 115)
          [-61; -87] 3 find_statics_init
          (load_from_lines [lit "ab"] (initEditor 24 80))
        = Some (InPrompt fs' E') ->
        (CTRL_KEY 115 = CTRL_KEY 115 \/ CTRL_KEY 115 = CTRL_KEY 102)
        /\ exists out, editorRefreshScreen_draw true E' = Some out).
Proof.
  apply (keypress_reads_past_end_or_keeps_state (mkDisk (fun _ => true) [])
           (CTRL_KEY 115) [-61; -87] 3 find_statics_init
           (load_from_lines [lit "ab"] (initEditor 24 80)) true).
  - split; [repeat constructor|].
    split.
    { split; [vm_compute; split; discriminate|].
      split; [vm_compute; discriminate|]. intros H. by destruct H. }
    split; [vm_compute; discriminate|]. split; [reflexivity|].
    split; [reflexivity|]. split; [reflexivity|].
    split; [reflexivity|]. vm_compute. repeat split; discriminate.
  - vm_compute. discriminate.
Defined.

(** ** The loop of [main] *)








(** ** Quitting *)

Lemma refresh_document E :
  0 <= cy E ->
  exists E1, editorRefreshScreen E = Some E1 /\ same_document E E1.
Proof.
  intros Hcy. destruct (editorScroll_form E Hcy) as [r Hform].
  unfold editorRefreshScreen. rewrite (Hform _ eq_refl eq_refl eq_refl).
  eexists. split; [reflexivity|]. unfold same_document. simpl.
  split; [reflexivity|]. split; [reflexivity|]. split; [reflexivity|].
  split; [by repeat split|]. intros Ho. by apply scroll_offset_nonneg.
Qed.

Lemma same_document_dirty E E' : same_document E E' -> dirty E' = dirty E.
Proof. by intros (_ & _ & _ & (_ & _ & Hd & _) & _). Qed.

Lemma same_document_cy E E' : same_document E E' -> cy E' = cy E.
Proof. by intros (_ & Hy & _). Qed.

(** With unsaved changes, [k] presses of Ctrl-Q in a row, [k] not above
    the counter, leave [main] waiting for a key. *)
Lemma quit_warnings d k : forall fuel qt fs E log,
  0 <= cy E -> dirty E = true -> Z.of_nat k <= qt -> (k <= fuel)%nat ->
  exists E',
    main_loop fuel d (replicate k 17) qt fs E log
    = Some (AtKey (qt - Z.of_nat k) fs E', log)
    /\ same_document E E' /\ dirty E' = true.
Proof.
  induction k as [|k IH]; intros fuel qt fs E log Hcy Hd Hqt Hfuel.
  - destruct (refresh_document E Hcy) as (E1 & Href & Hdoc).
    exists E1. destruct fuel; simpl; rewrite Href; simpl;
      (split; [by rewrite Z.sub_0_r|]);
      (split; [assumption|]); by rewrite (same_document_dirty _ _ Hdoc).
  - destruct fuel as [|fuel]; [lia|].
    destruct (refresh_document E Hcy) as (E1 & Href & Hdoc).
    cbn [replicate main_loop]. rewrite Href. cbn [mbind option_bind].
    unfold editorProcessKeypress. simpl (_ =? _). cbv iota zeta.
    rewrite (same_document_dirty _ _ Hdoc), Hd.
    destruct (Z.gtb_spec qt 0); [|lia]. cbn [andb mbind option_bind option_list].
    rewrite app_nil_r.
    destruct (IH fuel (qt - 1) fs (editorSetStatusMessage (quit_warning qt) E1) log)
      as (E' & Hloop & Hdoc' & Hd').
    { simpl. by rewrite (same_document_cy _ _ Hdoc). }
    { simpl. by rewrite (same_document_dirty _ _ Hdoc). }
    { lia. }
    { lia. }
    exists E'. rewrite Hloop. split; [do 3 f_equal; lia|].
    split; [|assumption]. eapply same_document_trans; [exact Hdoc|].
    eapply same_document_trans; [|exact Hdoc'].
    unfold same_document. simpl. by repeat split.
Qed.

(** Ctrl-Q exits when the buffer has no unsaved changes or the counter is
    used up. *)
Lemma quit_exits d fuel rest qt fs E log :
  0 <= cy E -> dirty E = false \/ qt <= 0 ->
  main_loop fuel d (17 :: rest) qt fs E log = Some (Exited, log).
Proof.
  intros Hcy Hq. destruct (refresh_document E Hcy) as (E1 & Href & Hdoc).
  assert (Hexit : editorProcessKeypress d 17 rest qt fs E1 = Some Exit).
  { unfold editorProcessKeypress. simpl (_ =? _). cbv iota zeta.
    rewrite (same_document_dirty _ _ Hdoc).
    destruct Hq as [-> | Hq]; [reflexivity|].
    destruct (Z.gtb_spec qt 0); [lia|]. by rewrite andb_false_r. }
  destruct fuel; simpl; rewrite Href; simpl; by rewrite Hexit.
Qed.

(** With unsaved changes and the counter at [KILO_QUIT_TIMES], where every
    other key puts it, up to three presses of Ctrl-Q in a row leave [main]
    running on the same document, still dirty, and the fourth exits. A
    buffer without unsaved changes exits at the first press. No file is
    written on the way. *)
Theorem quit_needs_four_presses_when_dirty
    (d : Disk) (fuel : nat) (fs : FindStatics) (E : editorConfig)
    (log : list (list ascii * list ascii)) (rest : list Z) :
  0 <= cy E -> (3 <= fuel)%nat ->
  (dirty E = true ->
   (forall k, (k <= 3)%nat ->
      exists E',
        main_loop fuel d (replicate k 17) KILO_QUIT_TIMES fs E log
        = Some (AtKey (KILO_QUIT_TIMES - Z.of_nat k) fs E', log)
        /\ same_document E E' /\ dirty E' = true)
   /\ main_loop fuel d (replicate 3 17 ++ 17 :: rest) KILO_QUIT_TIMES fs E log
      = Some (Exited, log))
  /\ (dirty E = false ->
      main_loop fuel d (17 :: rest) KILO_QUIT_TIMES fs E log = Some (Exited, log)).
Proof.
  intros Hcy Hfuel. split.
  - intros Hd. split.
    + intros k Hk. apply quit_warnings; auto; unfold KILO_QUIT_TIMES; lia.
    + assert (Hgen : forall k fuel' qt E0,
                 0 <= cy E0 -> dirty E0 = true -> qt = Z.of_nat k ->
                 (k <= fuel')%nat ->
                 main_loop fuel' d (replicate k 17 ++ 17 :: rest) qt fs E0 log
                 = Some (Exited, log)).
      { induction k as [|k IH]; intros fuel' qt E0 Hcy0 Hd0 Hqt Hf.
        - simpl. apply quit_exits; [assumption|]. right. lia.
        - destruct fuel' as [|fuel']; [lia|].
          destruct (refresh_document E0 Hcy0) as (E1 & Href & Hdoc).
          cbn [replicate app main_loop]. rewrite Href. cbn [mbind option_bind].
          unfold editorProcessKeypress. simpl (_ =? _). cbv iota zeta.
          rewrite (same_document_dirty _ _ Hdoc), Hd0.
          destruct (Z.gtb_spec qt 0); [|lia].
          cbn [andb mbind option_bind option_list]. rewrite app_nil_r.
          apply IH; simpl.
          + by rewrite (same_document_cy _ _ Hdoc).
          + by rewrite (same_document_dirty _ _ Hdoc).
          + lia.
          + lia. }
      apply Hgen; auto.
  - intros Hd. apply quit_exits; auto.
Qed.

Lemma quit_needs_four_presses_when_dirty_witness :
  (dirty (set_dirty true (load_from_lines [lit "ab"] (initEditor 24 80))) = true ->
   (forall k, (k <= 3)%nat ->
      exists E',
        main_loop 3 (mkDisk (fun _ => true) []) (replicate k 17) KILO_QUIT_TIMES
          find_statics_init
          (set_dirty true (load_from_lines [lit "ab"] (initEditor 24 80))) []
        = Some (AtKey (KILO_QUIT_TIMES - Z.of_nat k) find_statics_init E', [])
        /\ same_document
             (set_dirty true (load_from_lines [lit "ab"] (initEditor 24 80))) E'
        /\ dirty E' = true)
   /\ main_loop 3 (mkDisk (fun _ => true) []) (replicate 3 17 ++ 17 :: [120])
        KILO_QUIT_TIMES find_statics_init
        (set_dirty true (load_from_lines [lit "ab"] (initEditor 24 80))) []
      = Some (Exited, []))
  /\ (dirty (set_dirty true (load_from_lines [lit "ab"] (initEditor 24 80))) = false ->
      main_loop 3 (mkDisk (fun _ => true) []) (17 :: [120]) KILO_QUIT_TIMES
        find_statics_init
        (set_dirty true (load_from_lines [lit "ab"] (initEditor 24 80))) []
      = Some (Exited, [])).
Proof.
  apply (quit_needs_four_presses_when_dirty (mkDisk (fun _ => true) []) 3
           find_statics_init
           (set_dirty true (load_from_lines [lit "ab"] (initEditor 24 80))) [] [120]).
  - vm_compute. discriminate.
  - lia.
Defined.

(** ** Saving *)



End Keys.

(** ** Drawing: what the terminal shows *)

Section Drawing.

Lemma shows_nil fg : shows fg [] [] fg.
Proof. intros tail. simpl. by destruct (term_read Text fg tail). Qed.

Lemma shows_app fg a c1 f1 b c2 f2 :
  shows fg a c1 f1 -> shows f1 b c2 f2 -> shows fg (a ++ b) (c1 ++ c2) f2.
Proof.
  intros Ha Hb tail. rewrite <- app_assoc, Ha, Hb. simpl.
  by rewrite <- app_assoc.
Qed.

Lemma shows_byte fg c : c <> ESC -> shows fg [c] [(c, fg)] fg.
Proof.
  intros Hc tail. simpl.
  destruct (Ascii.eqb_spec c ESC) as [|_]; [contradiction|].
  by destruct (term_read Text fg tail).
Qed.

Lemma shows_plain fg s :
  Forall (fun c => c <> ESC) s -> shows fg s (map (fun c => (c, fg)) s) fg.
Proof.
  induction 1 as [|c s Hc _ IH]; [apply shows_nil|].
  apply (shows_app fg [c] [(c, fg)] fg s _ fg); [by apply shows_byte|exact IH].
Qed.

Lemma shows_default fg : shows fg (ESC :: lit "[39m") [] 39.
Proof.
  intros tail.
  change (term_read Text fg ((ESC :: lit "[39m") ++ tail))
    with (term_read Text 39 tail).
  by destruct (term_read Text 39 tail).
Qed.

Lemma shows_color fg h :
  shows fg (ESC :: lit "[" ++ decimal (editorSyntaxColor h) ++ lit "m") []
    (editorSyntaxColor h).
Proof.
  intros tail.
  destruct h;
    match goal with
    | |- term_read Text fg (_ ++ tail) = (_, (term_read Text ?c tail).2) =>
        change (term_read Text fg
                  ((ESC :: lit "[" ++ decimal c ++ lit "m") ++ tail))
          with (term_read Text c tail);
        by destruct (term_read Text c tail)
    end.
Qed.

Lemma shows_clear fg : shows fg (ESC :: lit "[K") [] fg.
Proof.
  intros tail.
  change (term_read Text fg ((ESC :: lit "[K") ++ tail))
    with (term_read Text fg tail).
  by destruct (term_read Text fg tail).
Qed.

(** The colour the terminal is in when [current_color] has the value
    [cur]. *)
Lemma editorSyntaxColor_not_default h : editorSyntaxColor h <> -1.
Proof. by destruct h. Qed.

Lemma draw_cells_shows row off n : forall j cur,
  0 <= off + j ->
  (Z.to_nat (off + j) + n <= length (render row))%nat ->
  length (render row) = length (hl row) ->
  Forall (fun c => c <> ESC) (render row) ->
  exists out fg',
    draw_cells row off n j cur = Some out
    /\ shows (if cur =? -1 then 39 else cur) out
         (zip (take n (drop (Z.to_nat (off + j)) (render row)))
            (map cell_color (take n (drop (Z.to_nat (off + j)) (hl row)))))
         fg'.
Proof.
  induction n as [|n IH]; intros j cur Hj Hn Hlen Hesc.
  - exists [], (if cur =? -1 then 39 else cur). split; [reflexivity|].
    simpl. apply shows_nil.
  - cbn [draw_cells]. destruct (Z.leb_spec 0 (off + j)); [|lia].
    cbn [mbind option_bind].
    set (idx := Z.to_nat (off + j)) in *.
    destruct (lookup_lt_is_Some_2 (render row) idx) as [c Hc]; [lia|].
    destruct (lookup_lt_is_Some_2 (hl row) idx) as [h Hh]; [lia|].
    rewrite Hc, Hh. cbn [mbind option_bind].
    assert (Hcesc : c <> ESC).
    { eapply Forall_lookup_1 in Hesc; [|exact Hc]. exact Hesc. }
    rewrite (drop_S _ _ _ Hc), (drop_S _ _ _ Hh). cbn [take map zip zip_with].
    assert (Hnext : Z.to_nat (off + (j + 1)) = S idx) by (subst idx; lia).
    assert (Hstep : forall cur' prefix,
               shows (if cur =? -1 then 39 else cur) prefix []
                 (if cur' =? -1 then 39 else cur') ->
               (if cur' =? -1 then 39 else cur') = cell_color h ->
               exists out fg',
                 (rest ← draw_cells row off n (j + 1) cur'; Some (prefix ++ c :: rest))
                 = Some out
                 /\ shows (if cur =? -1 then 39 else cur) out
                      ((c, cell_color h)
                       :: zip (take n (drop (S idx) (render row)))
                            (map cell_color (take n (drop (S idx) (hl row)))))
                      fg').
    { intros cur' prefix Hpre Hcol.
      destruct (IH (j + 1) cur' ltac:(lia) ltac:(rewrite Hnext; lia) Hlen Hesc)
        as (rest & fg' & -> & Hrest).
      rewrite Hnext in Hrest. cbn [mbind option_bind].
      exists (prefix ++ c :: rest), fg'. split; [reflexivity|].
      apply (shows_app _ prefix [] (if cur' =? -1 then 39 else cur')
               (c :: rest) _ fg'); [exact Hpre|].
      apply (shows_app _ [c] [(c, cell_color h)] (if cur' =? -1 then 39 else cur')
               rest _ fg'); [|exact Hrest].
      rewrite <- Hcol. by apply shows_byte. }
    assert (Hcolor : forall h', h' = h -> h <> HL_NORMAL ->
               exists out fg',
                 (rest ← draw_cells row off n (j + 1) (editorSyntaxColor h');
                  Some ((if editorSyntaxColor h' =? cur then []
                         else ESC :: lit "[" ++ decimal (editorSyntaxColor h')
                              ++ lit "m") ++ c :: rest))
                 = Some out
                 /\ shows (if cur =? -1 then 39 else cur) out
                      ((c, cell_color h)
                       :: zip (take n (drop (S idx) (render row)))
                            (map cell_color (take n (drop (S idx) (hl row)))))
                      fg').
    { intros h' -> Hne. pose proof (editorSyntaxColor_not_default h) as Hnd.
      assert (Hfg : (if editorSyntaxColor h =? -1 then 39 else editorSyntaxColor h)
                    = editorSyntaxColor h).
      { destruct (Z.eqb_spec (editorSyntaxColor h) (-1)); [contradiction|reflexivity]. }
      apply Hstep.
      - rewrite Hfg. destruct (Z.eqb_spec (editorSyntaxColor h) cur) as [<-|_].
        + rewrite Hfg. apply shows_nil.
        + apply shows_color.
      - rewrite Hfg. by destruct h. }
    destruct h.
    + apply Hstep; [|reflexivity]. simpl.
      destruct (cur =? -1); [apply shows_nil|apply shows_default].
    + by apply (Hcolor HL_COMMENT).
    + by apply (Hcolor HL_KEYWORD1).
    + by apply (Hcolor HL_KEYWORD2).
    + by apply (Hcolor HL_STRING).
    + by apply (Hcolor HL_NUMBER).
    + by apply (Hcolor HL_MATCH).
Qed.

Lemma take_min_length {A : Type} (l : list A) k :
  take (Nat.min (length l) k) l = take k l.
Proof.
  destruct (Nat.le_gt_cases k (length l)).
  - by rewrite Nat.min_r.
  - rewrite Nat.min_l by lia. by rewrite !take_ge by lia.
Qed.

Lemma draw_text_row_shows E row :
  0 <= coloff E ->
  length (render row) = length (hl row) ->
  Forall (fun c => c <> ESC) (render row) ->
  exists out,
    draw_text_row E row = Some out
    /\ shows 39 out
         (zip (in_window E (render row)) (map cell_color (in_window E (hl row))))
         39.
Proof.
  intros Hoff Hlen Hesc. unfold draw_text_row. cbv zeta.
  set (len := if (if isize (render row) - coloff E <? 0 then 0
                  else isize (render row) - coloff E) >? screencols E
              then screencols E
              else if isize (render row) - coloff E <? 0 then 0
                   else isize (render row) - coloff E).
  assert (Hn : Z.to_nat len
               = Nat.min (length (drop (Z.to_nat (coloff E)) (render row)))
                   (Z.to_nat (screencols E))).
  { subst len. rewrite length_drop. unfold isize.
    destruct (Z.ltb_spec (Z.of_nat (length (render row)) - coloff E) 0);
      [destruct (Z.gtb_spec 0 (screencols E))
      |destruct (Z.gtb_spec (Z.of_nat (length (render row)) - coloff E)
                  (screencols E))]; lia. }
  assert (Hwin : zip (in_window E (render row))
                   (map cell_color (in_window E (hl row)))
                 = zip (take (Z.to_nat len) (drop (Z.to_nat (coloff E)) (render row)))
                     (map cell_color
                        (take (Z.to_nat len) (drop (Z.to_nat (coloff E)) (hl row))))).
  { unfold in_window.
    rewrite <- (take_min_length (drop _ (render row))).
    rewrite <- (take_min_length (drop _ (hl row))).
    by rewrite !length_drop, <- Hlen, <- (length_drop (render row)), <- Hn. }
  rewrite Hwin.
  destruct (Nat.eq_dec (Z.to_nat len) 0%nat) as [Hz|Hnz].
  { rewrite Hz. simpl. eexists. split; [reflexivity|]. apply shows_default. }
  destruct (draw_cells_shows row (coloff E) (Z.to_nat len) 0 (-1))
    as (cells & fg' & -> & Hcells); [lia| |assumption..|].
  { rewrite length_drop in Hn. lia. }
  cbn [mbind option_bind]. eexists. split; [reflexivity|].
  rewrite Z.add_0_r in Hcells.
  change (if -1 =? -1 then 39 else -1) with 39 in Hcells.
  pose proof (shows_app _ _ _ _ _ _ _ Hcells (shows_default fg')) as Hall.
  by rewrite app_nil_r in Hall.
Qed.

Lemma draw_filler_plain E y s :
  draw_filler E y = Some s -> Forall (fun c => c <> ESC) s.
Proof.
  unfold draw_filler.
  assert (Hw : Forall (fun c => c <> ESC)
                 (lit "Kilo editor -- version " ++ KILO_VERSION))
    by (repeat constructor; discriminate).
  destruct (_ && _).
  - destruct (_ >? _).
    + destruct (_ <? _); simpl; [discriminate|]. intros [= <-].
      apply Forall_app. split.
      * case_match; [constructor|]. constructor; [discriminate|].
        apply Forall_replicate. discriminate.
      * by apply Forall_take.
    + simpl. intros [= <-]. apply Forall_app. split; [|exact Hw].
      case_match; [constructor|]. constructor; [discriminate|].
      apply Forall_replicate. discriminate.
  - intros [= <-]. repeat constructor. discriminate.
Qed.

(** What [editorDrawRows] draws past the end of the file, in a window
    whose sizes are not negative: the welcome line in the empty buffer, a
    third of the way down, and a tilde elsewhere. *)
Lemma draw_filler_spec E y :
  0 <= screencols E -> 0 <= screenrows E ->
  draw_filler E y
  = Some (if bool_decide (rows E = []) && (y =? screenrows E / 3)
          then welcome_line (Z.to_nat (screencols E))
          else lit "~").
Proof.
  intros Hsc Hsr. unfold draw_filler.
  rewrite Z.quot_div_nonneg by lia.
  destruct (bool_decide (rows E = []) && (y =? screenrows E / 3)); [|reflexivity].
  change (lit "Kilo editor -- version " ++ KILO_VERSION)
    with (lit "Kilo editor -- version 0.0.1").
  unfold welcome_line. cbv zeta.
  set (w := lit "Kilo editor -- version 0.0.1").
  assert (Hw : length w = 28%nat) by reflexivity.
  unfold isize. rewrite Hw.
  destruct (Z.gtb_spec (Z.of_nat 28) (screencols E)) as [Hcut|Hfit].
  - destruct (Z.ltb_spec (screencols E) 0); [lia|]. cbn [mbind option_bind].
    rewrite length_take, Hw.
    replace (screencols E - Z.of_nat (Nat.min (Z.to_nat (screencols E)) 28))
      with 0 by lia.
    replace (Z.to_nat (screencols E) - Nat.min (Z.to_nat (screencols E)) 28)%nat
      with 0%nat by lia.
    reflexivity.
  - cbn [mbind option_bind]. rewrite take_ge by lia. rewrite Hw.
    rewrite Z.quot_div_nonneg by lia.
    assert (Hpad : Z.to_nat ((screencols E - Z.of_nat 28) / 2)
                   = ((Z.to_nat (screencols E) - 28) / 2)%nat).
    { rewrite Z2Nat.inj_div by lia. f_equal. lia. }
    destruct (((Z.to_nat (screencols E) - 28) / 2)%nat) as [|n] eqn:Hn.
    + destruct (Z.eqb_spec ((screencols E - Z.of_nat 28) / 2) 0) as [|Hne];
        [reflexivity|].
      pose proof (Z.div_pos (screencols E - Z.of_nat 28) 2 ltac:(lia) ltac:(lia)).
      lia.
    + destruct (Z.eqb_spec ((screencols E - Z.of_nat 28) / 2) 0) as [Hz|Hne];
        [rewrite Hz in Hpad; simpl in Hpad; lia|].
      replace (Z.to_nat ((screencols E - Z.of_nat 28) / 2 - 1)) with n by lia.
      reflexivity.
Qed.

Lemma draw_line_shows E y :
  rows_ok E -> 0 <= y + rowoff E -> 0 <= coloff E -> 0 <= screencols E ->
  0 <= screenrows E ->
  (forall row, row ∈ rows E -> Forall (fun c => c <> ESC) (render row)) ->
  exists out, draw_line E y = Some out /\ shows 39 out (screen_line E y) 39.
Proof.
  intros Hrows Hy Hoff Hsc Hsr Hesc. unfold draw_line, screen_line. cbv zeta.
  assert (Hend : shows 39 (ESC :: lit "[K" ++ [CR; LF]) (plain_cells [CR; LF]) 39).
  { apply (shows_app 39 (ESC :: lit "[K") [] 39 [CR; LF] _ 39);
      [apply shows_clear|]. apply shows_plain. repeat constructor; discriminate. }
  destruct (y + rowoff E >=? isize (rows E)) eqn:Hpast.
  - pose proof (draw_filler_spec E y Hsc Hsr) as Hs. rewrite Hs.
    cbn [mbind option_bind]. eexists. split; [reflexivity|].
    apply (shows_app 39 _ _ 39); [|exact Hend].
    apply draw_filler_plain in Hs.
    destruct (bool_decide (rows E = []) && (y =? screenrows E / 3));
      [by apply shows_plain|].
    change [("~"%char, 39)] with (plain_cells (lit "~")). by apply shows_plain.
  - destruct (Z.leb_spec 0 (y + rowoff E)); [|lia].
    assert (Hlt : (Z.to_nat (y + rowoff E) < length (rows E))%nat).
    { destruct (Z.geb_spec (y + rowoff E) (isize (rows E))); [discriminate|].
      unfold isize in *. lia. }
    destruct (lookup_lt_is_Some_2 _ _ Hlt) as [row Hrow]. rewrite Hrow.
    cbn [mbind option_bind].
    destruct (draw_text_row_shows E row Hoff) as (body & -> & Hbody).
    { eapply Forall_lookup_1 in Hrows; [|exact Hrow]. exact Hrows. }
    { apply Hesc. by eapply list_elem_of_lookup_2. }
    cbn [mbind option_bind]. eexists. split; [reflexivity|].
    apply (shows_app 39 _ _ 39); [exact Hbody|exact Hend].
Qed.

Lemma draw_lines_shows E n : forall y,
  rows_ok E -> 0 <= y + rowoff E -> 0 <= coloff E -> 0 <= screencols E ->
  0 <= screenrows E ->
  (forall row, row ∈ rows E -> Forall (fun c => c <> ESC) (render row)) ->
  exists out, draw_lines E n y = Some out /\ shows 39 out (screen_lines E n y) 39.
Proof.
  induction n as [|n IH]; intros y Hrows Hy Hoff Hsc Hsr Hesc.
  - exists []. split; [reflexivity|]. apply shows_nil.
  - cbn [draw_lines screen_lines].
    destruct (draw_line_shows E y Hrows Hy Hoff Hsc Hsr Hesc) as (line & -> & Hline).
    destruct (IH (y + 1) Hrows ltac:(lia) Hoff Hsc Hsr Hesc) as (rest & -> & Hrest).
    cbn [mbind option_bind]. eexists. split; [reflexivity|].
    by apply (shows_app 39 _ _ 39).
Qed.

(** What [editorDrawRows] appends to the buffer shows, on a terminal in the
    default colour, one line for each row of the window: for a row of the
    file the part of its rendered text inside the window, each byte in the
    colour [editorSyntaxColor] gives its highlight class (the default
    colour for [HL_NORMAL]); past the end of the file a tilde, but in the
    empty buffer, a third of the way down, the welcome line: the message
    "Kilo editor -- version 0.0.1", cut at the right margin, behind a left
    margin half as wide as what the message leaves of the line, which
    starts with a tilde. Each line is cleared to its end, and the colour is
    the default one again after it. [screen_lines] says this without the
    drawing functions. *)
Theorem editorDrawRows_shows_the_window (E : editorConfig) (ab : list ascii) :
  rows_ok E -> 0 <= rowoff E -> 0 <= coloff E -> 0 <= screencols E ->
  (forall row, row ∈ rows E -> ESC ∉ render row) ->
  exists out,
    editorDrawRows E ab = Some (ab ++ out)
    /\ term_read Text 39 out
       = (screen_lines E (Z.to_nat (screenrows E)) 0, (Text, 39)).
Proof.
  intros Hrows Hro Hco Hsc Hesc. unfold editorDrawRows.
  destruct (Z_lt_le_dec (screenrows E) 0) as [Hneg|Hsr].
  { replace (Z.to_nat (screenrows E)) with 0%nat by lia.
    exists []. split; reflexivity. }
  destruct (draw_lines_shows E (Z.to_nat (screenrows E)) 0 Hrows ltac:(lia)
              Hco Hsc Hsr)
    as (out & -> & Hout).
  { intros row Hrow. apply Forall_forall. intros c Hc ->.
    by apply (Hesc row Hrow). }
  cbn [mbind option_bind]. exists out. split; [reflexivity|].
  specialize (Hout []). rewrite app_nil_r in Hout. rewrite Hout. simpl.
  by rewrite app_nil_r.
Qed.

Lemma editorDrawRows_shows_the_window_witness :
  exists out,
    editorDrawRows (load_from_lines [lit "a1"] (initEditor 2 80)) [] = Some ([] ++ out)
    /\ term_read Text 39 out
       = (screen_lines (load_from_lines [lit "a1"] (initEditor 2 80))
            (Z.to_nat (screenrows (load_from_lines [lit "a1"] (initEditor 2 80)))) 0,
          (Text, 39)).
Proof.
  apply (editorDrawRows_shows_the_window
           (load_from_lines [lit "a1"] (initEditor 2 80)) []).
  - repeat constructor.
  - vm_compute. discriminate.
  - vm_compute. discriminate.
  - vm_compute. discriminate.
  - intros row Hrow. vm_compute in Hrow.
    apply list_elem_of_singleton in Hrow. subst row. vm_compute.
    intros H. repeat (apply elem_of_cons in H as [H|H]; [discriminate H|]).
    by apply elem_of_nil in H.
Defined.

(** ** Drawing: the status bar *)

Lemma status_fill_fits r : forall n,
  (length r <= n)%nat ->
  status_fill n r = replicate (n - length r) " "%char ++ r.
Proof.
  induction n as [|n IH]; intros Hn.
  - destruct r; [reflexivity|simpl in Hn; lia].
  - cbn [status_fill]. unfold isize.
    destruct (Z.eqb_spec (Z.of_nat (S n)) (Z.of_nat (length r))) as [Heq|Hne].
    + apply Nat2Z.inj in Heq. by rewrite <- Heq, Nat.sub_diag.
    + assert (length r <= n)%nat by lia. rewrite IH by assumption.
      replace (S n - length r)%nat with (S (n - length r)) by lia. reflexivity.
Qed.

Lemma status_fill_short r : forall n,
  (n < length r)%nat -> status_fill n r = replicate n " "%char.
Proof.
  induction n as [|n IH]; intros Hn; [reflexivity|].
  cbn [status_fill]. unfold isize.
  destruct (Z.eqb_spec (Z.of_nat (S n)) (Z.of_nat (length r))); [lia|].
  rewrite IH by lia. reflexivity.
Qed.

(** Between the two escape sequences, the status bar is exactly as wide as
    the window. If the left and the right text fit together, it is the left
    text, spaces, and the right text at the right margin; if not, the right
    text is left out, and the left text is cut at the margin or followed
    by spaces up to it. *)
Theorem editorDrawStatusBar_fills_the_line (E : editorConfig) (ab : list ascii) :
  0 <= screencols E ->
  exists body,
    editorDrawStatusBar E ab
    = Some (ab ++ ESC :: lit "[7m" ++ body ++ ESC :: lit "[m" ++ [CR; LF])
    /\ length body = Z.to_nat (screencols E)
    /\ body
       = (if isize (status_left E) + isize (status_right E) <=? screencols E
          then status_left E
               ++ replicate (Z.to_nat (screencols E - isize (status_left E)
                                       - isize (status_right E))) " "%char
               ++ status_right E
          else take (Z.to_nat (screencols E))
                 (status_left E
                  ++ replicate (Z.to_nat (screencols E)) " "%char)).
Proof.
  intros Hsc. unfold editorDrawStatusBar.
  set (l := status_left E). set (r := status_right E). unfold isize.
  destruct (Z.gtb_spec (Z.of_nat (length l)) (screencols E)) as [Hlong|Hshort].
  - destruct (Z.ltb_spec (screencols E) 0); [lia|]. cbn [mbind option_bind].
    rewrite length_take.
    replace (Z.to_nat (screencols E
                       - Z.of_nat (Nat.min (Z.to_nat (screencols E)) (length l))))
      with 0%nat by lia.
    simpl status_fill.
    exists (take (Z.to_nat (screencols E)) l).
    split; [by rewrite app_nil_l|].
    split; [rewrite length_take; lia|].
    destruct (Z.leb_spec (Z.of_nat (length l) + Z.of_nat (length r)) (screencols E));
      [lia|].
    by rewrite take_app_le by lia.
  - cbn [mbind option_bind].
    set (n := Z.to_nat (screencols E - Z.of_nat (length l))).
    exists (l ++ status_fill n r). split; [by rewrite <- !app_assoc|].
    destruct (Z.leb_spec (Z.of_nat (length l) + Z.of_nat (length r)) (screencols E)).
    + rewrite status_fill_fits by (subst n; lia).
      split.
      * rewrite !length_app, length_replicate. subst n. lia.
      * subst n. do 3 f_equal. lia.
    + rewrite status_fill_short by (subst n; lia).
      split.
      * rewrite length_app, length_replicate. subst n. lia.
      * rewrite take_app_ge by lia. f_equal.
        rewrite take_replicate. f_equal. subst n. lia.
Qed.

Lemma editorDrawStatusBar_fills_the_line_witness :
  exists body,
    editorDrawStatusBar (initEditor 3 40) []
    = Some ([] ++ ESC :: lit "[7m" ++ body ++ ESC :: lit "[m" ++ [CR; LF])
    /\ length body = Z.to_nat (screencols (initEditor 3 40))
    /\ body
       = (if isize (status_left (initEditor 3 40))
             + isize (status_right (initEditor 3 40))
             <=? screencols (initEditor 3 40)
          then status_left (initEditor 3 40)
               ++ replicate (Z.to_nat (screencols (initEditor 3 40)
                                       - isize (status_left (initEditor 3 40))
                                       - isize (status_right (initEditor 3 40))))
                    " "%char
               ++ status_right (initEditor 3 40)
          else take (Z.to_nat (screencols (initEditor 3 40)))
                 (status_left (initEditor 3 40)
                  ++ replicate (Z.to_nat (screencols (initEditor 3 40))) " "%char)).
Proof.
  apply (editorDrawStatusBar_fills_the_line (initEditor 3 40) []).
  vm_compute. discriminate.
Defined.

End Drawing.
